(** * emailJob: the ingestion-and-persistence pipeline

    A shallow embedding of [app/services.py], [app/repositories.py],
    [app/models.py], [app/email_fetch_service.py] and the trigger logic of
    [app/scheduler.py] / [app/main.py], followed by the properties of the
    pipeline.

    Conventions of the embedding
    - Python [str] is [string]; [str.lower] is modelled on the ASCII range.
    - [Optional[T]] is [option T]; Python truthiness of an optional string
      ([if f.from_address:]) is [truthy].
    - SQLAlchemy's session is a pair of stores: the committed one and the one
      seen inside the open transaction; [flush] writes to the latter,
      [commit] copies it to the former, [rollback] restores it from there.
    - Integer primary keys are allocated as SQLite does for an
      [INTEGER PRIMARY KEY] column: one more than the largest key in the table.
    - The attachment directory is a map from path to contents; the outcome
      of a write and of a removal is read from an environment record, as is
      the transport's answer. *)

From Stdlib Require Import String Ascii List Arith Lia Bool.
From Stdlib Require Import Decimal DecimalString DecimalNat.
From stdpp Require Import base option list gmap strings.

Open Scope string_scope.
Open Scope list_scope.

(* ===================================================================== *)
(** ** Strings: the Python string operations the pipeline uses *)
(* ===================================================================== *)

Module Str.

(** [c.lower()] on the ASCII range. *)
Definition lower_ascii (c : ascii) : ascii :=
  let n := nat_of_ascii c in
  if (65 <=? n)%nat && (n <=? 90)%nat then ascii_of_nat (n + 32) else c.

Fixpoint lower (s : string) : string :=
  match s with
  | EmptyString => EmptyString
  | String c s' => String (lower_ascii c) (lower s')
  end.

(** [needle in hay] for Python strings. *)
Fixpoint contains (needle hay : string) : bool :=
  match hay with
  | EmptyString => String.prefix needle EmptyString
  | String _ hay' => String.prefix needle hay || contains needle hay'
  end.

(** Truthiness of an [Optional[str]]: neither [None] nor [""]. *)
Definition truthy (o : option string) : bool :=
  match o with
  | Some (String _ _) => true
  | _ => false
  end.

(** [o or ""]. *)
Definition or_empty (o : option string) : string :=
  match o with
  | Some (String c s) => String c s
  | _ => EmptyString
  end.

Definition is_digit (c : ascii) : bool :=
  let n := nat_of_ascii c in (48 <=? n)%nat && (n <=? 57)%nat.

Fixpoint all_digits (s : string) : bool :=
  match s with
  | EmptyString => true
  | String c s' => is_digit c && all_digits s'
  end.

Fixpoint zeros (k : nat) : string :=
  match k with
  | O => EmptyString
  | S k' => String "0" (zeros k')
  end.

(** [str(n)] for a non-negative integer. *)
Definition decimal (n : nat) : string :=
  NilEmpty.string_of_uint (Nat.to_uint n).

(** [f"{n:08d}"] for a non-negative integer: zero padding to width 8,
    wider numbers are printed in full. *)
Definition format_08d (n : nat) : string :=
  let s := decimal n in zeros (8 - String.length s) +:+ s.

Definition ends_with_sep (s : string) : bool :=
  match String.get (String.length s - 1) s with
  | Some c => Ascii.eqb c "/"
  | None => false
  end.

(** [os.path.join(a, b)] (posixpath). *)
Definition os_path_join (a b : string) : string :=
  if String.prefix "/" b then b
  else if (String.length a =? 0)%nat || ends_with_sep a then a +:+ b
  else a +:+ "/" +:+ b.

End Str.

(* ===================================================================== *)
(** ** models.py *)
(* ===================================================================== *)

Definition Time := nat.
Definition bytes := list Byte.byte.

Inductive Status := running | success | error.

#[global] Instance Status_eq_dec : EqDecision Status.
Proof. solve_decision. Defined.

Record Email := mkEmail {
  email_pk : nat;
  message_id : string;
  sender : string;
  recipient : option string;
  cc : option string;
  subject : option string;
  body : option string;
  received_at : option Time;
  email_created_at : Time;
  is_deleted : bool
}.

Record Attachment := mkAttachment {
  attachment_pk : nat;
  email_id : nat;
  filename_original : string;
  filename_stored : string;
  mime_type : option string;
  size_bytes : option nat;
  attachment_created_at : Time
}.

Record EmailFilter := mkEmailFilter {
  filter_pk : nat;
  name : string;
  enabled : bool;
  from_address : option string;
  subject_contains : option string;
  body_contains : option string;
  filter_created_at : Time
}.

Record JobRun := mkJobRun {
  job_pk : nat;
  started_at : Time;
  finished_at : option Time;
  messages_fetched : nat;
  messages_saved : nat;
  status : Status;
  error_message : option string
}.

(** The dictionaries [EmailClient.fetch_unseen_emails_raw] returns. *)
Record RawAttachment := mkRawAttachment {
  att_filename : string;
  att_mime_type : option string;
  att_content : bytes;
  att_size_bytes : option nat
}.

Record RawEmail := mkRawEmail {
  raw_message_id : option string;
  raw_sender : option string;
  raw_recipient : option string;
  raw_cc : option string;
  raw_subject : option string;
  raw_body : option string;
  raw_received_at : option Time;
  raw_attachments : list RawAttachment
}.

(* ===================================================================== *)
(** ** services.py: dynamic filters *)
(* ===================================================================== *)

(** [all(conds)] *)
Definition py_all (conds : list bool) : bool := forallb (fun b => b) conds.

(** The body of one turn of the [for f in filters] loop: [Some true] is
    [return True], [None] is falling through to the next rule. *)
Definition filter_turn (email_data : RawEmail) (f : EmailFilter) : option bool :=
  if negb (enabled f) then None
  else
    let conds := [] in
    let conds :=
      if Str.truthy (from_address f)
      then conds ++ [Str.contains (Str.lower (Str.or_empty (from_address f)))
                                  (Str.lower (Str.or_empty (raw_sender email_data)))]
      else conds in
    let conds :=
      if Str.truthy (subject_contains f)
      then conds ++ [Str.contains (Str.lower (Str.or_empty (subject_contains f)))
                                  (Str.lower (Str.or_empty (raw_subject email_data)))]
      else conds in
    let conds :=
      if Str.truthy (body_contains f)
      then conds ++ [Str.contains (Str.lower (Str.or_empty (body_contains f)))
                                  (Str.lower (Str.or_empty (raw_body email_data)))]
      else conds in
    if negb (Str.truthy (from_address f) || Str.truthy (subject_contains f)
             || Str.truthy (body_contains f))
    then None
    else if py_all conds then Some true else None.

Fixpoint filters_loop (email_data : RawEmail) (filters : list EmailFilter) : bool :=
  match filters with
  | [] => false
  | f :: rest =>
      match filter_turn email_data f with
      | Some r => r
      | None => filters_loop email_data rest
      end
  end.

Definition apply_filters_to_email (email_data : RawEmail) (filters : list EmailFilter) : bool :=
  match filters with
  | [] => true
  | _ => filters_loop email_data filters
  end.

(** *** The filter contract as the specification words it

    Follows the wording of the Filter Engine contract, to be compared with
    [apply_filters_to_email]. A condition is "configured" in the sense of
    the source's own comment on the rule ("nenhuma condição configurada"):
    present and not the empty string. *)
Module FilterSpec.

Definition configured (c : option string) : bool := Str.truthy c.

(** case-insensitive substring test; an absent field is the empty string *)
Definition icontains (pattern : string) (field : option string) : bool :=
  Str.contains (Str.lower pattern)
               (Str.lower (match field with Some s => s | None => "" end)).

(** a condition that is not configured is vacuously true *)
Definition condition (c field : option string) : bool :=
  match c with
  | Some p => if configured c then icontains p field else true
  | None => true
  end.

Definition has_condition (r : EmailFilter) : bool :=
  existsb configured [from_address r; subject_contains r; body_contains r].

Definition conjunction (candidate : RawEmail) (r : EmailFilter) : bool :=
  condition (from_address r) (raw_sender candidate)
  && condition (subject_contains r) (raw_subject candidate)
  && condition (body_contains r) (raw_body candidate).

Definition accepts (candidate : RawEmail) (rules : list EmailFilter) : bool :=
  match rules with
  | [] => true
  | _ =>
      existsb (conjunction candidate)
              (List.filter (fun r => enabled r && has_condition r) rules)
  end.

End FilterSpec.

(** *** The filter engine, whatever [str.lower] does

    [Str.lower] folds the letters of the ASCII range; on other text
    [str.lower] does more. The filter engine is therefore given once more
    with [str.lower] left open: a [str] is read as its UTF-8 bytes, on
    which [in] is still the substring test and the empty string still the
    only falsy one, and [lower] stands for [str.lower] on them.
    [filter_turn], [filters_loop] and [apply_filters_to_email] above are
    the instance at [Str.lower], which is the one the runs below use. *)
Module AnyLower.

Section Engine.

Variable lower : string -> string.

Definition filter_turn (email_data : RawEmail) (f : EmailFilter) : option bool :=
  if negb (enabled f) then None
  else
    let conds := [] in
    let conds :=
      if Str.truthy (from_address f)
      then conds ++ [Str.contains (lower (Str.or_empty (from_address f)))
                                  (lower (Str.or_empty (raw_sender email_data)))]
      else conds in
    let conds :=
      if Str.truthy (subject_contains f)
      then conds ++ [Str.contains (lower (Str.or_empty (subject_contains f)))
                                  (lower (Str.or_empty (raw_subject email_data)))]
      else conds in
    let conds :=
      if Str.truthy (body_contains f)
      then conds ++ [Str.contains (lower (Str.or_empty (body_contains f)))
                                  (lower (Str.or_empty (raw_body email_data)))]
      else conds in
    if negb (Str.truthy (from_address f) || Str.truthy (subject_contains f)
             || Str.truthy (body_contains f))
    then None
    else if py_all conds then Some true else None.

Fixpoint filters_loop (email_data : RawEmail) (filters : list EmailFilter) : bool :=
  match filters with
  | [] => false
  | f :: rest =>
      match filter_turn email_data f with
      | Some r => r
      | None => filters_loop email_data rest
      end
  end.

Definition apply_filters_to_email (email_data : RawEmail) (filters : list EmailFilter) : bool :=
  match filters with
  | [] => true
  | _ => filters_loop email_data filters
  end.

End Engine.

(** The filter contract as the specification words it, the test that
    ignores case being the substring test after [str.lower] on both
    sides. *)
Module Contract.

Section Wording.

Variable lower : string -> string.

Definition configured (c : option string) : bool := Str.truthy c.

(** case-insensitive substring test; an absent field is the empty string *)
Definition icontains (pattern : string) (field : option string) : bool :=
  Str.contains (lower pattern)
               (lower (match field with Some s => s | None => "" end)).

(** a condition that is not configured is vacuously true *)
Definition condition (c field : option string) : bool :=
  match c with
  | Some p => if configured c then icontains p field else true
  | None => true
  end.

Definition has_condition (r : EmailFilter) : bool :=
  existsb configured [from_address r; subject_contains r; body_contains r].

Definition conjunction (candidate : RawEmail) (r : EmailFilter) : bool :=
  condition (from_address r) (raw_sender candidate)
  && condition (subject_contains r) (raw_subject candidate)
  && condition (body_contains r) (raw_body candidate).

Definition accepts (candidate : RawEmail) (rules : list EmailFilter) : bool :=
  match rules with
  | [] => true
  | _ =>
      existsb (conjunction candidate)
              (List.filter (fun r => enabled r && has_condition r) rules)
  end.

End Wording.

End Contract.

End AnyLower.

(* ===================================================================== *)
(** ** The record store, the blob store and the session *)
(* ===================================================================== *)

Record Store := mkStore {
  emails : list Email;
  attachments : list Attachment;
  email_filters : list EmailFilter;
  job_runs : list JobRun
}.

Definition set_emails (l : list Email) (s : Store) : Store :=
  mkStore l (attachments s) (email_filters s) (job_runs s).
Definition set_attachments (l : list Attachment) (s : Store) : Store :=
  mkStore (emails s) l (email_filters s) (job_runs s).
Definition set_job_runs (l : list JobRun) (s : Store) : Store :=
  mkStore (emails s) (attachments s) (email_filters s) l.

(** Exceptions that travel through the pipeline. *)
Inductive Exn :=
| HTTPException (status_code : nat) (detail : string)
| OSError (msg : string)
| IntegrityError (msg : string)
| TransportError (msg : string).

(** [str(exc)]; an [HTTPException] prints as ["<status>: <detail>"]. *)
Definition str_exn (e : Exn) : string :=
  match e with
  | HTTPException c d => Str.decimal c +:+ ": " +:+ d
  | OSError m => m
  | IntegrityError m => m
  | TransportError m => m
  end.

(** What a run does, in order: the calls to the run recorder, the blobs
    written, and the two places where the source logs a failed write
    ([logger.exception]), with the local variables at that point. *)
Inductive Event :=
| JobRunCreated (pk : nat)
| JobRunFinished (pk : nat) (st : Status)
| BlobWritten (file_path : string)
| BlobWriteFailed (attachment : Attachment) (file_path : string) (exc : Exn)
| BlobDropped (attachment : Attachment) (file_path : string) (exc : Exn).

Record World := mkWorld {
  committed : Store;            (* what a new session would read *)
  session : Store;              (* what [db] reads inside its transaction *)
  disk : gmap string bytes;     (* the files under the attachment directory *)
  clock : Time;
  trace : list Event
}.

Definition set_session (s : Store) (w : World) : World :=
  mkWorld (committed w) s (disk w) (clock w) (trace w).
Definition set_disk (d : gmap string bytes) (w : World) : World :=
  mkWorld (committed w) (session w) d (clock w) (trace w).
Definition emit (e : Event) (w : World) : World :=
  mkWorld (committed w) (session w) (disk w) (clock w) (trace w ++ [e]).
Definition tick (w : World) : World :=
  mkWorld (committed w) (session w) (disk w) (S (clock w)) (trace w).

(** How a write to the attachment directory goes wrong: the bytes left
    behind under the path, if the file was created at all, and the
    exception raised. *)
Record WriteFault := mkWriteFault {
  partial : option bytes;
  cause : Exn
}.

(** The collaborators of a run. *)
Record Env := mkEnv {
  attachments_dir : string;                         (* settings.attachments_dir *)
  fetch_unseen_emails_raw : Exn + list RawEmail;    (* EmailClient's answer *)
  makedirs_error : option string;                   (* os.makedirs raising OSError *)
  write_fault : string -> bytes -> option WriteFault;  (* open(..., "wb") / f.write *)
  remove_error : string -> option Exn;              (* os.remove *)
  open_imap_error : option Exn;                     (* open_imap_connection *)
  imap_select_ok : bool;                            (* typ == "OK" of imap.select *)
  imap_search : string + list (option RawEmail)     (* imap.search, then imap.fetch *)
}.

(* ===================================================================== *)
(** ** A state-and-exception monad for the effectful code *)
(* ===================================================================== *)

Inductive Outcome (A : Type) :=
| Return (a : A)
| Raise (e : Exn).
Arguments Return {A} a.
Arguments Raise {A} e.

Definition M (A : Type) : Type := World -> Outcome A * World.

Definition ret {A} (a : A) : M A := fun w => (Return a, w).
Definition raise {A} (e : Exn) : M A := fun w => (Raise e, w).
Definition bind {A B} (c : M A) (k : A -> M B) : M B :=
  fun w =>
    match c w with
    | (Return a, w') => k a w'
    | (Raise e, w') => (Raise e, w')
    end.
(** [try: c except Exception as exc: h exc] *)
Definition try_except {A} (c : M A) (h : Exn -> M A) : M A :=
  fun w =>
    match c w with
    | (Return a, w') => (Return a, w')
    | (Raise e, w') => h e w'
    end.
Definition modify (f : World -> World) : M unit := fun w => (Return tt, f w).
Definition gets {A} (f : World -> A) : M A := fun w => (Return (f w), w).

Notation "'do' x <- c ; k" := (bind c (fun x => k))
  (at level 10, x name, c at level 99, k at level 200).
Notation "'do' ' p <- c ; k" := (bind c (fun x => match x with p => k end))
  (at level 10, p pattern, c at level 99, k at level 200).
Notation "c ;; k" := (bind c (fun _ => k))
  (at level 100, k at level 200, right associativity).

(** [db.commit()], [db.rollback()], [datetime.utcnow()] *)
Definition db_commit : M unit :=
  modify (fun w => mkWorld (session w) (session w) (disk w) (clock w) (trace w)).
Definition db_rollback : M unit :=
  modify (fun w => mkWorld (committed w) (committed w) (disk w) (clock w) (trace w)).
Definition utcnow : M Time :=
  fun w => (Return (clock w), tick w).

(** The key the table hands to the next inserted row. *)
Definition next_pk {A} (pk : A -> nat) (rows : list A) : nat :=
  S (fold_right Nat.max 0 (map pk rows)).

(* ===================================================================== *)
(** ** repositories.py *)
(* ===================================================================== *)

Module EmailRepository.

Definition get_by_message_id (mid : string) : M (option Email) :=
  gets (fun w => List.find (fun e => String.eqb (message_id e) mid)
                           (emails (session w))).

(** [db.add(email); db.flush()]: the insert checks the NOT NULL column
    [sender] and the UNIQUE column [message_id]. *)
Definition create (mid : string) (sender : option string)
    (recipient cc subject body : option string) (received_at : option Time)
    : M Email :=
  match sender with
  | None => raise (IntegrityError "NOT NULL constraint failed: emails.sender")
  | Some from =>
      do rows <- gets (fun w => emails (session w));
      if existsb (fun e => String.eqb (message_id e) mid) rows
      then raise (IntegrityError "UNIQUE constraint failed: emails.message_id")
      else
        do now <- utcnow;
        let email := mkEmail (next_pk email_pk rows) mid from recipient cc
                             subject body received_at now false in
        modify (fun w => set_session (set_emails (rows ++ [email]) (session w)) w) ;;
        ret email
  end.

End EmailRepository.

Module AttachmentRepository.

(** [db.add(attachment); db.flush()]: [filename_stored] is UNIQUE. *)
Definition create (email_id : nat) (filename_original stored_name : string)
    (mime_type : option string) (size_bytes : option nat) : M Attachment :=
  do rows <- gets (fun w => attachments (session w));
  if existsb (fun a => String.eqb (filename_stored a) stored_name) rows
  then raise (IntegrityError "UNIQUE constraint failed: attachments.filename_stored")
  else
    do now <- utcnow;
    let attachment := mkAttachment (next_pk attachment_pk rows) email_id
                        filename_original stored_name mime_type size_bytes now in
    modify (fun w => set_session (set_attachments (rows ++ [attachment]) (session w)) w) ;;
    ret attachment.

(** [attachment.filename_stored = name; db.add(attachment); db.flush()] *)
Definition set_filename_stored (attachment : Attachment) (name : string)
    : M Attachment :=
  do rows <- gets (fun w => attachments (session w));
  if existsb (fun a => negb (attachment_pk a =? attachment_pk attachment)%nat
                       && String.eqb (filename_stored a) name) rows
  then raise (IntegrityError "UNIQUE constraint failed: attachments.filename_stored")
  else
    let attachment' :=
      mkAttachment (attachment_pk attachment) (email_id attachment)
        (filename_original attachment) name (mime_type attachment)
        (size_bytes attachment) (attachment_created_at attachment) in
    modify (fun w => set_session
      (set_attachments
         (map (fun a => if (attachment_pk a =? attachment_pk attachment)%nat
                        then attachment' else a) rows)
         (session w)) w) ;;
    ret attachment'.

(** [db.delete(attachment)] followed by the caller's flush. *)
Definition delete (attachment : Attachment) : M unit :=
  modify (fun w => set_session
    (set_attachments
       (List.filter (fun a => negb (attachment_pk a =? attachment_pk attachment)%nat)
                    (attachments (session w)))
       (session w)) w).

End AttachmentRepository.

Module EmailFilterRepository.

Definition get_all (enabled_only : bool) : M (list EmailFilter) :=
  gets (fun w =>
    if enabled_only then List.filter enabled (email_filters (session w))
    else email_filters (session w)).

End EmailFilterRepository.

Module JobRunRepository.

(** [JobRun()] with the column defaults, added and flushed. *)
Definition create : M JobRun :=
  do rows <- gets (fun w => job_runs (session w));
  do now <- utcnow;
  let job_run := mkJobRun (next_pk job_pk rows) now None 0 0 running None in
  modify (fun w => set_session (set_job_runs (rows ++ [job_run]) (session w)) w) ;;
  modify (emit (JobRunCreated (job_pk job_run))) ;;
  ret job_run.

(** Writes the object back: an UPDATE of its row, or an INSERT when a
    rollback has expunged the object from the session. *)
Definition save (job_run : JobRun) (rows : list JobRun) : list JobRun :=
  if existsb (fun r => (job_pk r =? job_pk job_run)%nat) rows
  then map (fun r => if (job_pk r =? job_pk job_run)%nat then job_run else r) rows
  else rows ++ [job_run].

Definition finish (job_run : JobRun) (messages_fetched messages_saved : nat)
    (status : Status) (error_message : option string) : M JobRun :=
  do now <- utcnow;
  let job_run := mkJobRun (job_pk job_run) (started_at job_run) (Some now)
                          messages_fetched messages_saved status error_message in
  modify (fun w => set_session (set_job_runs (save job_run (job_runs (session w)))
                                             (session w)) w) ;;
  modify (emit (JobRunFinished (job_pk job_run) status)) ;;
  ret job_run.

(** [ORDER BY id DESC LIMIT 1] *)
Fixpoint last_by_pk (rows : list JobRun) : option JobRun :=
  match rows with
  | [] => None
  | r :: rest =>
      match last_by_pk rest with
      | Some r' => if (job_pk r' <? job_pk r)%nat then Some r else Some r'
      | None => Some r
      end
  end.

Definition get_last : M (option JobRun) :=
  gets (fun w => last_by_pk (job_runs (session w))).

(** SQL [SUM]: NULL over no rows. *)
Definition sql_sum (col : list nat) : option nat :=
  match col with
  | [] => None
  | _ => Some (fold_left Nat.add col 0)
  end.

Definition coalesce (v : option nat) (d : nat) : nat :=
  match v with Some n => n | None => d end.

Definition get_aggregated_metrics : M (option JobRun * nat * nat) :=
  do total_fetched <- gets (fun w =>
    coalesce (sql_sum (map messages_fetched (job_runs (session w)))) 0);
  do total_saved <- gets (fun w =>
    coalesce (sql_sum (map messages_saved (job_runs (session w)))) 0);
  do last <- get_last;
  ret (last, total_fetched, total_saved).

End JobRunRepository.

(* ===================================================================== *)
(** ** The attachment directory *)
(* ===================================================================== *)

(** [os.makedirs(settings.attachments_dir, exist_ok=True)] *)
Definition ensure_attachments_dir (env : Env) : M unit :=
  match makedirs_error env with
  | Some msg => raise (OSError msg)
  | None => ret tt
  end.

(** [with open(file_path, "wb") as f: f.write(content)] *)
Definition write_file (env : Env) (file_path : string) (content : bytes) : M unit :=
  fun w =>
    match write_fault env file_path content with
    | None =>
        (Return tt, emit (BlobWritten file_path)
                         (set_disk (<[file_path := content]> (disk w)) w))
    | Some fault =>
        (Raise (cause fault),
         match partial fault with
         | Some left_behind => set_disk (<[file_path := left_behind]> (disk w)) w
         | None => w
         end)
    end.

Definition os_path_exists (file_path : string) : M bool :=
  gets (fun w => match disk w !! file_path with Some _ => true | None => false end).

Definition os_remove (env : Env) (file_path : string) : M unit :=
  fun w =>
    match remove_error env file_path with
    | Some e => (Raise e, w)
    | None =>
        match disk w !! file_path with
        | Some _ => (Return tt, set_disk (delete file_path (disk w)) w)
        | None => (Raise (OSError "No such file or directory"), w)
        end
    end.

(* ===================================================================== *)
(** ** services.py: the check job *)
(* ===================================================================== *)

Definition HTTP_500_INTERNAL_SERVER_ERROR : nat := 500.

(** [f"ID{email_obj.id:08d}-{attachment.id:08d}_{filename_original}"] *)
Definition stored_filename (email_id attachment_id : nat) (filename_original : string)
    : string :=
  "ID" +:+ Str.format_08d email_id +:+ "-" +:+ Str.format_08d attachment_id
       +:+ "_" +:+ filename_original.

Definition _save_attachment_with_rollback (env : Env) (email_obj : Email)
    (filename_original : string) (mime_type : option string) (content : bytes)
    (size_bytes : option nat) : M unit :=
  try_except
    (let temp_name := "temp" in
     do attachment <- AttachmentRepository.create (email_pk email_obj)
                        filename_original temp_name mime_type size_bytes;
     let stored_filename :=
       stored_filename (email_pk email_obj) (attachment_pk attachment)
                       filename_original in
     do attachment <- AttachmentRepository.set_filename_stored attachment stored_filename;
     ensure_attachments_dir env ;;
     let file_path := Str.os_path_join (attachments_dir env) stored_filename in
     try_except
       (write_file env file_path content)
       (fun exc =>
          modify (emit (BlobWriteFailed attachment file_path exc)) ;;
          db_rollback ;;
          try_except
            (do present <- os_path_exists file_path;
             if present then os_remove env file_path else ret tt)
            (fun _ => ret tt) ;;
          raise (HTTPException HTTP_500_INTERNAL_SERVER_ERROR
                   ("Erro ao salvar anexo '" +:+ filename_original
                      +:+ "' em disco: " +:+ str_exn exc))))
    (fun exc =>
       match exc with
       | HTTPException _ _ => raise exc
       | _ =>
           db_rollback ;;
           raise (HTTPException HTTP_500_INTERNAL_SERVER_ERROR
                    ("Erro ao salvar anexo '" +:+ filename_original
                       +:+ "': " +:+ str_exn exc))
       end).

(** [for attach in em["attachments"]: _save_attachment_with_rollback(...)] *)
Fixpoint save_attachments (env : Env) (email_obj : Email)
    (attachs : list RawAttachment) : M unit :=
  match attachs with
  | [] => ret tt
  | attach :: rest =>
      _save_attachment_with_rollback env email_obj (att_filename attach)
        (att_mime_type attach) (att_content attach) (att_size_bytes attach) ;;
      save_attachments env email_obj rest
  end.

(** One turn of [for em in raw_emails]; [true] when the turn reaches
    [messages_saved += 1], [false] when it leaves through [continue]. *)
Definition check_job_turn (env : Env) (filters : list EmailFilter) (em : RawEmail)
    : M bool :=
  if negb (Str.truthy (raw_message_id em)) then ret false
  else
    do existing <- EmailRepository.get_by_message_id (Str.or_empty (raw_message_id em));
    match existing with
    | Some _ => ret false
    | None =>
        if negb (apply_filters_to_email em filters) then ret false
        else
          do email_obj <- EmailRepository.create (Str.or_empty (raw_message_id em))
                            (raw_sender em) (raw_recipient em) (raw_cc em)
                            (raw_subject em) (raw_body em) (raw_received_at em);
          save_attachments env email_obj (raw_attachments em) ;;
          ret true
    end.

(** The [for em in raw_emails] loop. The counter is a local of the
    enclosing function and keeps its value when a turn raises. *)
Fixpoint check_job_loop (env : Env) (filters : list EmailFilter)
    (raw_emails : list RawEmail) (messages_saved : nat) (w : World)
    : (nat * option Exn) * World :=
  match raw_emails with
  | [] => ((messages_saved, None), w)
  | em :: rest =>
      match check_job_turn env filters em w with
      | (Return true, w') => check_job_loop env filters rest (S messages_saved) w'
      | (Return false, w') => check_job_loop env filters rest messages_saved w'
      | (Raise exc, w') => ((messages_saved, Some exc), w')
      end
  end.

(** The locals of [run_email_check_job] that the [finally] block reads. *)
Record Locals := mkLocals {
  l_messages_fetched : nat;
  l_messages_saved : nat;
  l_error_message : option string;
  l_status_str : Status
}.

(** The [try] block, up to and including its [db.commit()], together with
    the [except Exception] handler. *)
Definition check_job_try (env : Env) (w : World) : Locals * World :=
  let failed fetched saved exc w :=
    let '(_, w) := db_rollback w in
    (mkLocals fetched saved (Some (str_exn exc)) error, w) in
  match ensure_attachments_dir env w with
  | (Raise exc, w) => failed 0 0 exc w
  | (Return _, w) =>
      match fetch_unseen_emails_raw env with
      | inl exc => failed 0 0 exc w
      | inr raw_emails =>
          let messages_fetched := length raw_emails in
          match EmailFilterRepository.get_all true w with
          | (Raise exc, w) => failed messages_fetched 0 exc w
          | (Return filters, w) =>
              match check_job_loop env filters raw_emails 0 w with
              | ((messages_saved, Some exc), w) =>
                  failed messages_fetched messages_saved exc w
              | ((messages_saved, None), w) =>
                  let '(_, w) := db_commit w in
                  (mkLocals messages_fetched messages_saved None success, w)
              end
          end
      end
  end.

Definition run_email_check_job (env : Env) : M JobRun :=
  do job_run <- JobRunRepository.create;
  db_commit ;;
  do locals <- (fun w => let '(l, w') := check_job_try env w in (Return l, w'));
  do job_run <- JobRunRepository.finish job_run
                  (l_messages_fetched locals) (l_messages_saved locals)
                  (l_status_str locals) (l_error_message locals);
  db_commit ;;
  ret job_run.

(** schemas.py: [JobMetrics] *)
Record JobMetrics := mkJobMetrics {
  last_run_start : option Time;
  last_run_end : option Time;
  last_status : option Status;
  last_error : option string;
  total_messages_fetched : nat;
  total_messages_saved : nat
}.

Definition get_job_metrics : M JobMetrics :=
  do '(last, total_fetched, total_saved) <- JobRunRepository.get_aggregated_metrics;
  ret (mkJobMetrics
         (match last with Some l => Some (started_at l) | None => None end)
         (match last with Some l => finished_at l | None => None end)
         (match last with Some l => Some (status l) | None => None end)
         (match last with Some l => error_message l | None => None end)
         total_fetched total_saved).

(* ===================================================================== *)
(** ** email_fetch_service.py: the scheduled job

    The service reads a parsed message through a handful of accessors; the
    message is represented by what they return: [raw_message_id] is
    [msg.get("Message-ID")], [raw_sender] is [msg.get("From")],
    [raw_body] the text payload, [raw_received_at] the [Date] header after
    [parsedate_to_datetime] ([None] when the header is absent or does not
    parse), [raw_attachments] the parts whose disposition is "attachment",
    with [att_filename] the result of [part.get_filename()] ([""] for
    [None]). [imap_search] answers [inl data] when [typ != "OK"], and
    otherwise lists the messages, [None] standing for a message whose
    [imap.fetch] did not answer "OK". *)
(* ===================================================================== *)

Module EmailFetchService.

(** [f"ID{email_record.id:08d}-{attachment.id:08d}-{filename}"] *)
Definition stored_name (email_id attachment_id : nat) (filename : string) : string :=
  "ID" +:+ Str.format_08d email_id +:+ "-" +:+ Str.format_08d attachment_id
       +:+ "-" +:+ filename.

(** One turn of the second [for part in msg.walk()] loop. The rename is
    only added to the session by the source and reaches the database
    with the next flush; it is applied here right after the write. *)
Definition store_part (env : Env) (email_record : Email) (part : RawAttachment)
    : M unit :=
  let filename := att_filename part in
  if negb (Str.truthy (Some filename)) then ret tt
  else
    let file_data := att_content part in
    let size_bytes := length file_data in
    let temp_name := "PENDING" in
    do attachment <- AttachmentRepository.create (email_pk email_record) filename
                       temp_name (att_mime_type part) (Some size_bytes);
    let stored_name := stored_name (email_pk email_record)
                                   (attachment_pk attachment) filename in
    let stored_path := Str.os_path_join (attachments_dir env) stored_name in
    do written <- try_except
         (write_file env stored_path file_data ;; ret true)
         (fun e =>
            modify (emit (BlobDropped attachment stored_path e)) ;;
            AttachmentRepository.delete attachment ;;
            ret false);
    if (written : bool)
    then (AttachmentRepository.set_filename_stored attachment stored_name ;; ret tt)
    else ret tt.

Fixpoint store_parts (env : Env) (email_record : Email) (parts : list RawAttachment)
    : M unit :=
  match parts with
  | [] => ret tt
  | part :: rest => store_part env email_record part ;; store_parts env email_record rest
  end.

(** One turn of [for num in message_nums]. *)
Definition fetch_turn (env : Env) (fetched : option RawEmail) : M bool :=
  match fetched with
  | None => ret false
  | Some msg =>
      if negb (Str.truthy (raw_message_id msg)) then ret false
      else
        do existing <- EmailRepository.get_by_message_id
                         (Str.or_empty (raw_message_id msg));
        match existing with
        | Some _ => ret false
        | None =>
            do now <- utcnow;
            let received_at :=
              match raw_received_at msg with
              | Some parsed => parsed
              | None => now
              end in
            do email_record <- EmailRepository.create
                                 (Str.or_empty (raw_message_id msg))
                                 (Some (Str.or_empty (raw_sender msg)))
                                 (raw_recipient msg) (raw_cc msg) (raw_subject msg)
                                 (Some (Str.or_empty (raw_body msg)))
                                 (Some received_at);
            store_parts env email_record (raw_attachments msg) ;;
            ret true
        end
  end.

Fixpoint fetch_loop (env : Env) (message_nums : list (option RawEmail))
    (messages_saved : nat) (w : World) : (nat * option Exn) * World :=
  match message_nums with
  | [] => ((messages_saved, None), w)
  | num :: rest =>
      match fetch_turn env num w with
      | (Return true, w') => fetch_loop env rest (S messages_saved) w'
      | (Return false, w') => fetch_loop env rest messages_saved w'
      | (Raise exc, w') => ((messages_saved, Some exc), w')
      end
  end.

(** The [try] block with its [except Exception] handler. *)
Definition fetch_try (env : Env) (job_run : JobRun) : M unit :=
  if negb (imap_select_ok env)
  then
    JobRunRepository.finish job_run 0 0 error
      (Some "Não foi possível selecionar INBOX") ;;
    db_commit
  else
    match imap_search env with
    | inl data =>
        JobRunRepository.finish job_run 0 0 error
          (Some ("Erro ao buscar mensagens: " +:+ data)) ;;
        db_commit
    | inr message_nums =>
        let messages_fetched := length message_nums in
        fun w =>
          match fetch_loop env message_nums 0 w with
          | ((messages_saved, None), w) =>
              (JobRunRepository.finish job_run messages_fetched messages_saved
                 success None ;;
               db_commit) w
          | ((messages_saved, Some e), w) =>
              (db_rollback ;;
               JobRunRepository.finish job_run messages_fetched messages_saved
                 error (Some (str_exn e)) ;;
               db_commit) w
          end
    end.

Definition fetch_and_store_emails (env : Env) : M unit :=
  do job_run <- JobRunRepository.create;
  match open_imap_error env with
  | Some e => raise e
  | None => fetch_try env job_run
  end.

End EmailFetchService.

(* ===================================================================== *)
(** ** scheduler.py and the trigger endpoint of main.py

    Who is running the pipeline. The state is the module global
    [_scheduler] and the invocations of the pipeline that have started and
    not returned. [start_scheduler] registers the periodic job with the
    scheduler's defaults, under which a firing is dropped while an earlier
    instance of the same job is still running; the endpoint calls
    [run_email_check_job] directly. *)
(* ===================================================================== *)

Module Scheduler.

(** An invocation of the pipeline: by the periodic job of the scheduler
    created [generation]-th, or by the endpoint. *)
Inductive Invocation :=
| Scheduled (generation : nat)
| OnDemand.

#[global] Instance Invocation_eq_dec : EqDecision Invocation.
Proof. solve_decision. Defined.

Record Process := mkProcess {
  _scheduler : option nat;           (* the live scheduler, if any *)
  created : nat;                     (* schedulers created so far *)
  in_flight : list Invocation       (* invocations not yet returned *)
}.

Definition initial : Process := mkProcess None 0 [].

Inductive Request :=
| StartScheduler
| ShutdownScheduler
| TimerFires
| TriggerJob
| Returns (i : Invocation).

Definition start_scheduler (p : Process) : Process :=
  match _scheduler p with
  | Some _ => p
  | None => mkProcess (Some (created p)) (S (created p)) (in_flight p)
  end.

Definition shutdown_scheduler (p : Process) : Process :=
  match _scheduler p with
  | Some _ => mkProcess None (created p) (in_flight p)
  | None => p
  end.

Definition running (i : Invocation) (l : list Invocation) : bool :=
  existsb (fun j => bool_decide (i = j)) l.

(** The interval trigger of the live scheduler calls [_run_email_job]. *)
Definition timer_fires (p : Process) : Process :=
  match _scheduler p with
  | Some g =>
      if running (Scheduled g) (in_flight p) then p
      else mkProcess (_scheduler p) (created p) (Scheduled g :: in_flight p)
  | None => p
  end.

(** [POST /job/trigger]: [job_run = run_email_check_job(db)]. *)
Definition trigger_job (p : Process) : Process :=
  mkProcess (_scheduler p) (created p) (OnDemand :: in_flight p).

Fixpoint remove_one (i : Invocation) (l : list Invocation) : list Invocation :=
  match l with
  | [] => []
  | j :: rest => if decide (i = j) then rest else j :: remove_one i rest
  end.

Definition returns (i : Invocation) (p : Process) : Process :=
  mkProcess (_scheduler p) (created p) (remove_one i (in_flight p)).

Definition step (p : Process) (r : Request) : Process :=
  match r with
  | StartScheduler => start_scheduler p
  | ShutdownScheduler => shutdown_scheduler p
  | TimerFires => timer_fires p
  | TriggerJob => trigger_job p
  | Returns i => returns i p
  end.

Definition run (rs : list Request) : Process := fold_left step rs initial.

Definition occurrences (i : Invocation) (l : list Invocation) : nat :=
  length (List.filter (fun j => bool_decide (i = j)) l).

(** "At most one pipeline run executes at any instant", after the
    requests [rs]. *)
Definition single_flight (rs : list Request) : Prop :=
  length (in_flight (run rs)) <= 1.

End Scheduler.


(* ===================================================================== *)
(** ** Vocabulary of the properties *)
(* ===================================================================== *)

(** The events a computation added to the trace. *)
Definition new_events (w w' : World) : list Event :=
  drop (length (trace w)) (trace w').

Definition is_job_event (ev : Event) : bool :=
  match ev with
  | JobRunCreated _ | JobRunFinished _ _ => true
  | _ => false
  end.

Definition is_write_failure (ev : Event) : bool :=
  match ev with
  | BlobWriteFailed _ _ _ => true
  | _ => false
  end.

(** The text of the error [_save_attachment_with_rollback] signals for a
    failed write. *)
Definition write_failure_detail (filename_original : string) (exc : Exn) : string :=
  "Erro ao salvar anexo '" +:+ filename_original +:+ "' em disco: " +:+ str_exn exc.

Definition has_message_id (mid : string) (rows : list Email) : bool :=
  existsb (fun e => String.eqb (message_id e) mid) rows.

Definition count_message_id (mid : string) (rows : list Email) : nat :=
  length (List.filter (fun e => String.eqb (message_id e) mid) rows).

(** Rows appended one by one, each with a [message_id] that no row before
    it carries. *)
Fixpoint appended_fresh (rows es : list Email) : Prop :=
  match es with
  | [] => True
  | e :: es' =>
      has_message_id (message_id e) rows = false
      /\ appended_fresh (rows ++ [e]) es'
  end.

(** A store that only gained messages, each under a new identifier, and
    attachments. *)
Definition grows (s s' : Store) : Prop :=
  (exists es, emails s' = emails s ++ es /\ appended_fresh (emails s) es)
  /\ (exists ats, attachments s' = attachments s ++ ats)
  /\ email_filters s' = email_filters s
  /\ job_runs s' = job_runs s.


Definition exn_of {A} (o : Outcome A) : option Exn :=
  match o with
  | Return _ => None
  | Raise e => Some e
  end.

(** No event of the list is a failed write. *)
Definition quiet (evs : list Event) : Prop :=
  Forall (fun ev => is_write_failure ev = false) evs.

(** No event of the list is a call to the run recorder. *)
Definition blob_only (evs : list Event) : Prop :=
  Forall (fun ev => is_job_event ev = false) evs.

(** Every committed attachment row is visible in the session. *)
Definition committed_visible (w : World) : Prop :=
  forall a, In a (attachments (committed w)) -> In a (attachments (session w)).

(** What holds in the world [w'] in which [_save_attachment_with_rollback]
    gave up on writing the blob of the row [a] to [file_path], the write
    having raised [exc], and signalled [e]. *)
Record failed_write (env : Env) (w' : World) (e : Exn)
    (a : Attachment) (file_path : string) (exc : Exn) : Prop := mkFailedWrite {
  fw_signalled :
    e = HTTPException HTTP_500_INTERNAL_SERVER_ERROR
          (write_failure_detail (filename_original a) exc);
  fw_rolled_back : session w' = committed w';
  fw_path : file_path = Str.os_path_join (attachments_dir env) (filename_stored a);
  fw_name :
    filename_stored a
    = stored_filename (email_id a) (attachment_pk a) (filename_original a);
  fw_no_record :
    forall a', In a' (attachments (committed w')) ->
               filename_stored a' <> filename_stored a
               /\ attachment_pk a' <> attachment_pk a;
  fw_no_blob : remove_error env file_path = None -> disk w' !! file_path = None
}.

(** How a stretch of the loop body, run inside the transaction, ended. *)
Inductive seg_result (env : Env) (w w' : World) : option Exn -> list Event -> Prop :=
| seg_ok evs :
    grows (session w) (session w') -> quiet evs ->
    seg_result env w w' None evs
| seg_raised e evs :
    quiet evs ->
    seg_result env w w' (Some e) evs
| seg_failed_write e evs a file_path exc :
    quiet evs -> failed_write env w' e a file_path exc ->
    seg_result env w w' (Some e) (evs ++ [BlobWriteFailed a file_path exc]).

Definition segment (env : Env) (w w' : World) (oe : option Exn) : Prop :=
  committed w' = committed w
  /\ clock w <= clock w'
  /\ exists evs, trace w' = trace w ++ evs /\ blob_only evs
                 /\ seg_result env w w' oe evs.

(** The first two statements of [run_email_check_job]. *)
Definition begin_run : M JobRun :=
  do job_run <- JobRunRepository.create;
  db_commit ;;
  ret job_run.


(** "What was persisted for candidates processed earlier in the run
    remains after a failed write": [w_mid] is the world the loop reached
    after a prefix of the fetched candidates went through without raising. *)
Definition earlier_candidates_kept (env : Env) (w : World) : Prop :=
  forall jr w' a file_path exc,
    run_email_check_job env w = (Return jr, w') ->
    In (BlobWriteFailed a file_path exc) (new_events w w') ->
    forall job_run0 w1 before after n w_mid,
      begin_run w = (Return job_run0, w1) ->
      fetch_unseen_emails_raw env = inr (before ++ after) ->
      check_job_loop env (List.filter enabled (email_filters (session w1)))
                     before 0 w1 = ((n, None), w_mid) ->
      (forall e, In e (emails (session w_mid)) -> In e (emails (committed w')))
      /\ (forall a', In a' (attachments (session w_mid)) ->
                     In a' (attachments (committed w'))).

Definition set_fetched (r : Exn + list RawEmail) (env : Env) : Env :=
  mkEnv (attachments_dir env) r (makedirs_error env) (write_fault env)
        (remove_error env) (open_imap_error env) (imap_select_ok env)
        (imap_search env).

(* ===================================================================== *)
(** ** Sample inputs *)
(* ===================================================================== *)

Module Sample.

Definition empty_store : Store := mkStore [] [] [] [].
Definition fresh : World := mkWorld empty_store empty_store ∅ 0 [].

Definition report : RawAttachment :=
  mkRawAttachment "report.pdf" (Some "application/pdf")
                  [Byte.x25; Byte.x50; Byte.x44; Byte.x46] (Some 4).

Definition plain : RawEmail :=
  mkRawEmail (Some "<m1@example.org>") (Some "Alice <alice@example.org>")
             (Some "ops@example.org") None (Some "Hello") (Some "first")
             (Some 1000) [].

Definition with_report : RawEmail :=
  mkRawEmail (Some "<m2@example.org>") (Some "Bob <bob@example.org>")
             (Some "ops@example.org") None (Some "Report") (Some "see attachment")
             (Some 2000) [report].


Definition anonymous : RawEmail :=
  mkRawEmail (Some "") (Some "Dave <dave@example.org>")
             (Some "ops@example.org") None (Some "No id") (Some "text")
             (Some 3000) [].

Definition disk_full : WriteFault :=
  mkWriteFault (Some [Byte.x25]) (OSError "[Errno 28] No space left on device").

(** Every collaborator answers normally. *)
Definition healthy (raw_emails : list RawEmail) : Env :=
  mkEnv "/srv/attachments" (inr raw_emails) None (fun _ _ => None)
        (fun _ => None) None true (inr (map Some raw_emails)).

(** Writes stop after the first byte; the partial file can be removed. *)
Definition failing_disk (raw_emails : list RawEmail) : Env :=
  mkEnv "/srv/attachments" (inr raw_emails) None (fun _ _ => Some disk_full)
        (fun _ => None) None true (inr (map Some raw_emails)).


(** A store in which [plain] was ingested once and then soft-deleted. *)
Definition soft_deleted_store : Store :=
  mkStore [mkEmail 1 "<m1@example.org>" "Alice <alice@example.org>"
             (Some "ops@example.org") None (Some "Hello") (Some "first")
             (Some 1000) 1 true] [] [] [].
Definition with_soft_deleted : World :=
  mkWorld soft_deleted_store soft_deleted_store ∅ 10 [].

(** A store whose only rule accepts mail from Bob. *)
Definition only_from_bob : Store :=
  mkStore [] [] [mkEmailFilter 1 "bob" true (Some "bob@example.org") None None 5] [].
Definition with_rule : World := mkWorld only_from_bob only_from_bob ∅ 10 [].

Definition report_path : string :=
  "/srv/attachments/ID00000002-00000001_report.pdf".

(** The row [EmailRepository.create] adds for [plain], from [fresh],
    in a run of the check job. *)
Definition plain_row : Email :=
  mkEmail 1 "<m1@example.org>" "Alice <alice@example.org>"
          (Some "ops@example.org") None (Some "Hello") (Some "first")
          (Some 1000) 1 false.

(** The row [_save_attachment_with_rollback] holds for [report] when,
    from [fresh], [plain] has been stored before [with_report]. *)
Definition report_row : Attachment :=
  mkAttachment 1 2 "report.pdf" "ID00000002-00000001_report.pdf"
               (Some "application/pdf") (Some 4) 3.

End Sample.

(** A sequence of runs of the check job, one per environment, with the
    records they returned. *)
Fixpoint run_many (envs : list Env) (w : World) : list JobRun * World :=
  match envs with
  | [] => ([], w)
  | env :: rest =>
      match run_email_check_job env w with
      | (Return jr, w') => let '(jrs, w'') := run_many rest w' in (jr :: jrs, w'')
      | (Raise _, w') => ([], w')
      end
  end.

(** What [get_job_metrics] answers in a world. *)
Definition metrics_in (w : World) : option JobMetrics :=
  match get_job_metrics w with
  | (Return m, _) => Some m
  | (Raise _, _) => None
  end.

(** The world in which the [try] block of [run_email_check_job] starts. *)
Definition after_begin (w : World) : World := snd (begin_run w).

(* ===================================================================== *)
(** ** Comparing the two entry points *)
(* ===================================================================== *)











(* ===================================================================== *)
(** * The rest of the code: definitions *)
(* ===================================================================== *)

(** ** services.py: what a run adds *)

(** The file of an attachment row exists in the attachment directory. *)
Definition has_blob (env : Env) (d : gmap string bytes) (a : Attachment) : Prop :=
  is_Some (d !! Str.os_path_join (attachments_dir env) (filename_stored a)).

(** The stored name of the row is the one [_save_attachment_with_rollback]
    derives from the row's keys and filename. *)
Definition named_by_check_job (a : Attachment) : Prop :=
  filename_stored a
  = stored_filename (email_id a) (attachment_pk a) (filename_original a).

(** Every file of [d] is still there in [d']. *)
Definition keeps_files (d d' : gmap string bytes) : Prop :=
  forall file_path, is_Some (d !! file_path) -> is_Some (d' !! file_path).

(** What a stretch of the loop of the check job that did not raise has
    added to the session: [n] messages, and attachments that carry their
    derived name and have their file; keys stay unique. *)
Definition gained (env : Env) (n : nat) (w w' : World) : Prop :=
  (exists es, emails (session w') = emails (session w) ++ es /\ length es = n)
  /\ (exists ats, attachments (session w') = attachments (session w) ++ ats
                  /\ Forall named_by_check_job ats
                  /\ Forall (has_blob env (disk w')) ats)
  /\ keeps_files (disk w) (disk w')
  /\ (NoDup (map email_pk (emails (session w))) ->
      NoDup (map email_pk (emails (session w'))))
  /\ (NoDup (map attachment_pk (attachments (session w))) ->
      NoDup (map attachment_pk (attachments (session w')))).

(** ** email_fetch_service.py: what a stretch of the scheduled loop keeps *)

(** The session saw messages and attachments come (and attachments of a
    failed write go again); the rest of the record store is as it was. *)
Definition scheduled_progress (w w' : World) : Prop :=
  committed w' = committed w
  /\ (exists es, emails (session w') = emails (session w) ++ es
                 /\ appended_fresh (emails (session w)) es)
  /\ email_filters (session w') = email_filters (session w)
  /\ job_runs (session w') = job_runs (session w).

Definition set_email_filters (l : list EmailFilter) (s : Store) : Store :=
  mkStore (emails s) (attachments s) l (job_runs s).

(** The world with other filter rules in the record store. *)
Definition with_rules (rules : list EmailFilter) (w : World) : World :=
  mkWorld (set_email_filters rules (committed w))
          (set_email_filters rules (session w))
          (disk w) (clock w) (trace w).

Definition set_search (r : string + list (option RawEmail)) (env : Env) : Env :=
  mkEnv (attachments_dir env) (fetch_unseen_emails_raw env) (makedirs_error env)
        (write_fault env) (remove_error env) (open_imap_error env)
        (imap_select_ok env) r.

(** A message number the scheduled loop passes over in the world [w]: its
    fetch did not answer "OK", or the message has no Message-ID, or a
    message with its Message-ID is stored. *)
Definition passed_over (w : World) (num : option RawEmail) : Prop :=
  match num with
  | None => True
  | Some msg =>
      Str.truthy (raw_message_id msg) = false
      \/ has_message_id (Str.or_empty (raw_message_id msg)) (emails (session w)) = true
  end.

(** A computation that never looks at the filter rules: run in a world with
    other rules, it does the same and leaves those rules in place. *)
Definition ignores_rules (rules : list EmailFilter) {A} (c : M A) : Prop :=
  forall w, c (with_rules rules w)
            = let '(o, w') := c w in (o, with_rules rules w').

(* ===================================================================== *)
(** ** repositories.py: what the endpoints of main.py use

    A path or query parameter that is an identifier is a natural number
    here: a negative one finds no row, as does a natural number that is
    not a key. *)
(* ===================================================================== *)

(** SQLite's [LIKE]: [%] stands for any run of characters, [_] for one
    character, and letters match whatever their case; on the ASCII range,
    a character of the string being one of the text. *)
Fixpoint sql_like (pattern value : string) : bool :=
  match pattern with
  | EmptyString => match value with EmptyString => true | String _ _ => false end
  | String c pattern' =>
      if Ascii.eqb c "%"
      then (fix any_run (v : string) : bool :=
              sql_like pattern' v
              || match v with
                 | EmptyString => false
                 | String _ v' => any_run v'
                 end) value
      else
        match value with
        | EmptyString => false
        | String d value' =>
            (Ascii.eqb c "_" || Ascii.eqb (Str.lower_ascii c) (Str.lower_ascii d))
            && sql_like pattern' value'
        end
  end.

(** [column.ilike(pattern)], which SQLAlchemy renders for SQLite as
    [lower(column) LIKE lower(pattern)]; a NULL column matches nothing. *)
Definition ilike (column : option string) (pattern : string) : bool :=
  match column with
  | Some value => sql_like (Str.lower pattern) (Str.lower value)
  | None => false
  end.

(** [ORDER BY received_at DESC NULLS LAST, id DESC]: whether the row [a]
    comes no later than the row [b]. *)
Definition listed_before (a b : Email) : bool :=
  match received_at a, received_at b with
  | Some ta, Some tb =>
      if (tb <? ta)%nat then true
      else if (ta <? tb)%nat then false
      else (email_pk b <=? email_pk a)%nat
  | Some _, None => true
  | None, Some _ => false
  | None, None => (email_pk b <=? email_pk a)%nat
  end.

Fixpoint insert_listed (e : Email) (sorted : list Email) : list Email :=
  match sorted with
  | [] => [e]
  | x :: rest => if listed_before e x then e :: x :: rest
                 else x :: insert_listed e rest
  end.

Fixpoint order_by_listing (rows : list Email) : list Email :=
  match rows with
  | [] => []
  | e :: rest => insert_listed e (order_by_listing rest)
  end.

(** The conjunction of [query_filters] on one row; [by_sender] and
    [by_subject] are the parameters [sender] and [subject]. *)
Definition query_filters (attachs : list Attachment) (by_sender by_subject : option string)
    (has_attachments : option bool) (include_deleted : bool) (e : Email) : bool :=
  (if negb include_deleted then negb (is_deleted e) else true)
  && (if Str.truthy by_sender
      then ilike (Some (sender e)) ("%" +:+ Str.or_empty by_sender +:+ "%")
      else true)
  && (if Str.truthy by_subject
      then ilike (subject e) ("%" +:+ Str.or_empty by_subject +:+ "%")
      else true)
  && match has_attachments with
     | None => true
     | Some wanted =>
         let any := existsb (fun a => (email_id a =? email_pk e)%nat) attachs in
         if wanted then any else negb any
     end.

(** [EmailRepository.get_paginated], for an offset and a limit below
    [2 ^ 63], which is what the SQLite driver takes as an integer. A
    negative [OFFSET] is read by SQLite as 0 and a negative [LIMIT] as no
    limit. *)
Definition EmailRepository_get_paginated (page page_size : Z)
    (by_sender by_subject : option string) (has_attachments : option bool)
    (include_deleted : bool) : M (list Email * nat) :=
  do selected <- gets (fun w =>
    List.filter (query_filters (attachments (session w)) by_sender by_subject
                               has_attachments include_deleted)
                (emails (session w)));
  let total := length selected in
  let ordered := order_by_listing selected in
  let after_offset := skipn (Z.to_nat ((page - 1) * page_size)) ordered in
  let items := if (page_size <? 0)%Z then after_offset
               else firstn (Z.to_nat page_size) after_offset in
  ret (items, total).

Definition EmailRepository_get_by_id (email_id : nat) : M (option Email) :=
  gets (fun w => find (fun e => (email_pk e =? email_id)%nat) (emails (session w))).

(** [email.is_deleted = True; db.add(email)], written by the caller's
    commit. *)
Definition EmailRepository_soft_delete (email : Email) : M unit :=
  let email' := mkEmail (email_pk email) (message_id email) (sender email)
                        (recipient email) (cc email) (subject email) (body email)
                        (received_at email) (email_created_at email) true in
  modify (fun w => set_session
    (set_emails
       (map (fun e => if (email_pk e =? email_pk email)%nat then email' else e)
            (emails (session w)))
       (session w)) w).

(** [db.delete(email)], written by the caller's commit: the relationship
    [attachments] cascades ("all, delete-orphan"), so the attachment rows
    of the message are deleted with it. *)
Definition EmailRepository_hard_delete (email : Email) : M unit :=
  modify (fun w => set_session
    (set_attachments
       (List.filter (fun a => negb (email_id a =? email_pk email)%nat)
                    (attachments (session w)))
       (set_emails
          (List.filter (fun e => negb (email_pk e =? email_pk email)%nat)
                       (emails (session w)))
          (session w))) w).

Definition AttachmentRepository_get_by_id (attachment_id : nat) : M (option Attachment) :=
  gets (fun w => find (fun a => (attachment_pk a =? attachment_id)%nat)
                      (attachments (session w))).

(* ===================================================================== *)
(** ** main.py: the endpoints on messages and attachments *)
(* ===================================================================== *)

(** schemas.py: [PaginatedEmails] *)
Record PaginatedEmails := mkPaginatedEmails {
  items : list Email;
  total : nat;
  page_no : Z;
  page_size_of : Z;
  has_next : bool;
  has_previous : bool
}.

Definition list_emails (page page_size : Z) (by_sender by_subject : option string)
    (has_attachments : option bool) (include_deleted : bool) : M PaginatedEmails :=
  if (page <? 1)%Z || (page_size <? 1)%Z
  then raise (HTTPException 400 "page e page_size devem ser >= 1")
  else
    do ' (items, total) <- EmailRepository_get_paginated page page_size by_sender
                             by_subject has_attachments include_deleted;
    let has_prev := (1 <? page)%Z in
    let has_next := (page * page_size <? Z.of_nat total)%Z in
    ret (mkPaginatedEmails items total page page_size has_next has_prev).

(** [EmailDetail]: the row with the rows of its relationship [attachments]. *)
Definition get_email (email_no : nat) : M (Email * list Attachment) :=
  do email <- EmailRepository_get_by_id email_no;
  match email with
  | None => raise (HTTPException 404 "Email não encontrado")
  | Some email =>
      do attachs <- gets (fun w =>
        List.filter (fun a => (email_id a =? email_pk email)%nat)
                    (attachments (session w)));
      ret (email, attachs)
  end.

Definition delete_email (email_id : nat) (hard_delete : bool) : M unit :=
  do email <- EmailRepository_get_by_id email_id;
  match email with
  | None => raise (HTTPException 404 "Email não encontrado")
  | Some email =>
      (if hard_delete then EmailRepository_hard_delete email
       else EmailRepository_soft_delete email) ;;
      db_commit
  end.

(** What [FileResponse] is built from. *)
Record FileResponse := mkFileResponse {
  response_path : string;
  response_media_type : string;
  response_filename : string
}.

Definition download_attachment (env : Env) (attachment_id : nat) : M FileResponse :=
  do attachment <- AttachmentRepository_get_by_id attachment_id;
  match attachment with
  | None => raise (HTTPException 404 "Anexo não encontrado")
  | Some attachment =>
      let file_path := Str.os_path_join (attachments_dir env)
                                        (filename_stored attachment) in
      do present <- os_path_exists file_path;
      if negb present
      then raise (HTTPException 404 "Arquivo de anexo não encontrado em disco")
      else
        let filename := if Str.truthy (Some (filename_original attachment))
                        then filename_original attachment else "attachment" in
        ret (mkFileResponse file_path
               (if Str.truthy (mime_type attachment)
                then Str.or_empty (mime_type attachment)
                else "application/octet-stream")
               filename)
  end.

Definition delete_attachment (env : Env) (attachment_id : nat) : M unit :=
  do attachment <- AttachmentRepository_get_by_id attachment_id;
  match attachment with
  | None => raise (HTTPException 404 "Anexo não encontrado")
  | Some attachment =>
      let file_path := Str.os_path_join (attachments_dir env)
                                        (filename_stored attachment) in
      AttachmentRepository.delete attachment ;;
      db_commit ;;
      try_except
        (do present <- os_path_exists file_path;
         if (present : bool) then os_remove env file_path else ret tt)
        (fun _ => ret tt)
  end.

(** The world after a run of the check job that stored [Sample.plain] and
    [Sample.with_report]: two messages, one attachment row and its file. *)
Definition stocked : World :=
  snd (run_email_check_job (Sample.healthy [Sample.plain; Sample.with_report])
                           Sample.fresh).


(** Every row comes no later, in the order of the listing, than the rows
    after it. *)
Fixpoint listing_ordered (l : list Email) : Prop :=
  match l with
  | [] => True
  | a :: rest => (forall b, In b rest -> listed_before a b = true)
                 /\ listing_ordered rest
  end.

(** A text without the two wildcards of [LIKE]. *)
Fixpoint no_wildcard (s : string) : bool :=
  match s with
  | EmptyString => true
  | String c s' => negb (Ascii.eqb c "%") && negb (Ascii.eqb c "_") && no_wildcard s'
  end.

(* ===================================================================== *)
(** ** scheduler.py: the function the periodic job calls *)
(* ===================================================================== *)

(** [db = SessionLocal()]: a session of its own, which reads the committed
    store. *)
Definition SessionLocal : M unit :=
  modify (fun w => set_session (committed w) w).

(** [db.close()]: what the session has not committed is discarded. *)
Definition db_close : M unit :=
  modify (fun w => set_session (committed w) w).

(** [_run_email_job]; the constructor of [EmailFetchService] makes the
    attachment directory. *)
Definition _run_email_job (env : Env) : M unit :=
  SessionLocal ;;
  try_except
    (ensure_attachments_dir env ;;
     EmailFetchService.fetch_and_store_emails env)
    (fun _ => ret tt) ;;
  db_close.

(* ===================================================================== *)
(** ** main.py and repositories.py: the filter rules *)
(* ===================================================================== *)

(** [EmailFilterRepository.create]: [db.add(filt); db.flush()]; the column
    [name] is UNIQUE. *)
Definition EmailFilterRepository_create (filter_name : string)
    (from_addr subject_part body_part : option string) (is_enabled : bool)
    : M EmailFilter :=
  do rows <- gets (fun w => email_filters (session w));
  if existsb (fun f => String.eqb (name f) filter_name) rows
  then raise (IntegrityError "UNIQUE constraint failed: email_filters.name")
  else
    do now <- utcnow;
    let filt := mkEmailFilter (next_pk filter_pk rows) filter_name is_enabled
                              from_addr subject_part body_part now in
    modify (fun w => set_session
                       (set_email_filters (rows ++ [filt]) (session w)) w) ;;
    ret filt.

Definition EmailFilterRepository_get_by_id (filter_id : nat) : M (option EmailFilter) :=
  gets (fun w => find (fun f => (filter_pk f =? filter_id)%nat)
                      (email_filters (session w))).

(** [db.delete(filt)], written by the caller's commit. *)
Definition EmailFilterRepository_delete (filt : EmailFilter) : M unit :=
  modify (fun w => set_session
    (set_email_filters
       (List.filter (fun f => negb (filter_pk f =? filter_pk filt)%nat)
                    (email_filters (session w)))
       (session w)) w).

Definition list_filters : M (list EmailFilter) :=
  EmailFilterRepository.get_all false.

(** schemas.py: [EmailFilterCreate] *)
Record EmailFilterCreate := mkEmailFilterCreate {
  create_name : string;
  create_from_address : option string;
  create_subject_contains : option string;
  create_body_contains : option string;
  create_enabled : bool
}.

Definition create_filter (payload : EmailFilterCreate) : M EmailFilter :=
  do filt <- EmailFilterRepository_create (create_name payload)
               (create_from_address payload) (create_subject_contains payload)
               (create_body_contains payload) (create_enabled payload);
  db_commit ;;
  ret filt.

(** schemas.py: [EmailFilterUpdate] *)
Record EmailFilterUpdate := mkEmailFilterUpdate {
  update_from_address : option string;
  update_subject_contains : option string;
  update_body_contains : option string;
  update_enabled : option bool
}.

(** The assignments of [update_filter]: a field the payload leaves at
    [None] is not assigned. *)
Definition updated (payload : EmailFilterUpdate) (filt : EmailFilter) : EmailFilter :=
  mkEmailFilter (filter_pk filt) (name filt)
    (match update_enabled payload with Some b => b | None => enabled filt end)
    (match update_from_address payload with
     | Some s => Some s | None => from_address filt end)
    (match update_subject_contains payload with
     | Some s => Some s | None => subject_contains filt end)
    (match update_body_contains payload with
     | Some s => Some s | None => body_contains filt end)
    (filter_created_at filt).

Definition update_filter (filter_id : nat) (payload : EmailFilterUpdate)
    : M EmailFilter :=
  do filt <- EmailFilterRepository_get_by_id filter_id;
  match filt with
  | None => raise (HTTPException 404 "Filtro não encontrado")
  | Some filt =>
      let filt := updated payload filt in
      modify (fun w => set_session
        (set_email_filters
           (map (fun f => if (filter_pk f =? filter_pk filt)%nat then filt else f)
                (email_filters (session w)))
           (session w)) w) ;;
      db_commit ;;
      ret filt
  end.

Definition delete_filter (filter_id : nat) : M unit :=
  do filt <- EmailFilterRepository_get_by_id filter_id;
  match filt with
  | None => raise (HTTPException 404 "Filtro não encontrado")
  | Some filt => EmailFilterRepository_delete filt ;; db_commit
  end.
(* ===================================================================== *)
(** * Properties *)
(* ===================================================================== *)

(** ** The filter engine *)

Lemma or_empty_spec (o : option string) :
  Str.or_empty o = match o with Some s => s | None => "" end.
Proof. destruct o as [[|c s]|]; reflexivity. Qed.

Lemma filter_turn_spec (em : RawEmail) (f : EmailFilter) :
  filter_turn em f =
  if enabled f && FilterSpec.has_condition f && FilterSpec.conjunction em f
  then Some true else None.
Proof.
  unfold filter_turn, FilterSpec.has_condition, FilterSpec.conjunction,
    FilterSpec.condition, FilterSpec.icontains, FilterSpec.configured.
  rewrite <- !or_empty_spec.
  destruct (enabled f); simpl; [|reflexivity].
  destruct (from_address f) as [[|c1 s1]|], (subject_contains f) as [[|c2 s2]|],
    (body_contains f) as [[|c3 s3]|]; simpl; try reflexivity;
    repeat match goal with
           | |- context [Str.contains ?a ?b] => destruct (Str.contains a b); simpl
           end; reflexivity.
Qed.

Lemma filters_loop_spec (em : RawEmail) (rules : list EmailFilter) :
  filters_loop em rules =
  existsb (FilterSpec.conjunction em)
          (List.filter (fun r => enabled r && FilterSpec.has_condition r) rules).
Proof.
  induction rules as [|f rest IH]; simpl; [reflexivity|].
  rewrite filter_turn_spec, IH.
  destruct (enabled f && FilterSpec.has_condition f); simpl; [|reflexivity].
  destruct (FilterSpec.conjunction em f); reflexivity.
Qed.



(** The filter engine the runs use is the instance at the ASCII folding. *)
Lemma apply_filters_to_email_at_ascii_folding (em : RawEmail) (rules : list EmailFilter) :
  apply_filters_to_email em rules = AnyLower.apply_filters_to_email Str.lower em rules.
Proof.
  destruct rules as [|f rest]; [reflexivity|].
  unfold apply_filters_to_email, AnyLower.apply_filters_to_email.
  generalize (f :: rest). intros rules.
  induction rules as [|g rules IH]; simpl; [reflexivity|].
  change (AnyLower.filter_turn Str.lower em g) with (filter_turn em g).
  destruct (filter_turn em g); [reflexivity|exact IH].
Qed.


(** ** Stored names *)

Section StoredNames.

Lemma all_digits_app (s t : string) :
  Str.all_digits (s +:+ t) = Str.all_digits s && Str.all_digits t.
Proof.
  induction s as [|c s IH]; simpl; [reflexivity|].
  rewrite IH. apply andb_assoc.
Qed.

Lemma all_digits_string_of_uint (d : uint) :
  Str.all_digits (NilEmpty.string_of_uint d) = true.
Proof. induction d; simpl; auto. Qed.

Lemma all_digits_zeros (k : nat) : Str.all_digits (Str.zeros k) = true.
Proof. induction k; simpl; auto. Qed.

Lemma all_digits_format_08d (n : nat) : Str.all_digits (Str.format_08d n) = true.
Proof.
  unfold Str.format_08d, Str.decimal. cbv zeta.
  rewrite all_digits_app, all_digits_zeros, all_digits_string_of_uint.
  reflexivity.
Qed.

Lemma zeros_string_of_uint (k : nat) (d : uint) :
  Str.zeros k +:+ NilEmpty.string_of_uint d
  = NilEmpty.string_of_uint (Nat.iter k D0 d).
Proof.
  induction k as [|k IH]; [reflexivity|].
  change (String "0" (Str.zeros k +:+ NilEmpty.string_of_uint d)
          = String "0" (NilEmpty.string_of_uint (Nat.iter k D0 d))).
  f_equal. exact IH.
Qed.

Lemma of_uint_leading_zeros (k : nat) (d : uint) :
  Nat.of_uint (Nat.iter k D0 d) = Nat.of_uint d.
Proof. induction k as [|k IH]; simpl; [reflexivity|]. exact IH. Qed.

Lemma string_of_uint_inj (d d' : uint) :
  NilEmpty.string_of_uint d = NilEmpty.string_of_uint d' -> d = d'.
Proof.
  intros E. apply (f_equal NilEmpty.uint_of_string) in E.
  rewrite !NilEmpty.usu in E. now injection E.
Qed.

Lemma format_08d_inj (n m : nat) : Str.format_08d n = Str.format_08d m -> n = m.
Proof.
  unfold Str.format_08d, Str.decimal. cbv zeta. rewrite !zeros_string_of_uint.
  intros E. apply string_of_uint_inj in E.
  apply (f_equal Nat.of_uint) in E.
  rewrite !of_uint_leading_zeros, !DecimalNat.Unsigned.of_to in E. exact E.
Qed.

(** Two digit strings, each followed by a character that is not a digit:
    the strings end at the same place. *)
Lemma digits_then_sep (d d' : string) (c c' : ascii) (r r' : string) :
  Str.all_digits d = true -> Str.all_digits d' = true ->
  Str.is_digit c = false -> Str.is_digit c' = false ->
  d +:+ String c r = d' +:+ String c' r' ->
  d = d' /\ c = c' /\ r = r'.
Proof.
  revert d'. induction d as [|x d IH]; intros [|x' d'] Hd Hd' Hc Hc' E;
    simpl in *.
  - injection E as -> ->. auto.
  - injection E as -> _. apply andb_true_iff in Hd' as [Hx _]. congruence.
  - injection E as -> _. apply andb_true_iff in Hd as [Hx _]. congruence.
  - injection E as -> E.
    apply andb_true_iff in Hd as [_ Hd]. apply andb_true_iff in Hd' as [_ Hd'].
    destruct (IH d' Hd Hd' Hc Hc' E) as (-> & -> & ->). auto.
Qed.

(** Both entry points build ["ID" e "-" a sep filename]. *)
Lemma id_name_inj (sep sep' : ascii) (e a e' a' : nat) (f f' : string) :
  Str.is_digit sep = false -> Str.is_digit sep' = false ->
  "ID" +:+ Str.format_08d e +:+ "-" +:+ Str.format_08d a +:+ String sep f
  = "ID" +:+ Str.format_08d e' +:+ "-" +:+ Str.format_08d a' +:+ String sep' f' ->
  e = e' /\ a = a' /\ sep = sep' /\ f = f'.
Proof.
  intros Hs Hs' E. simpl in E. injection E as E.
  change ("-" +:+ ?x) with (String "-" x) in E.
  apply digits_then_sep in E as (Ee & _ & E);
    [|apply all_digits_format_08d|apply all_digits_format_08d|reflexivity|reflexivity].
  apply digits_then_sep in E as (Ea & Esep & Ef);
    [|apply all_digits_format_08d|apply all_digits_format_08d|assumption|assumption].
  apply format_08d_inj in Ee, Ea. auto.
Qed.

End StoredNames.

(** C7: the stored name is a function of the message key, the attachment
    key and the original filename, and two attachments with distinct pairs
    of keys get distinct stored names whatever their filenames are. This
    holds for the names of either entry point, and a name built by one is
    never a name built by the other. *)
Theorem stored_names_unique (e a e' a' : nat) (f f' : string) :
  (e, a) <> (e', a') ->
  stored_filename e a f <> stored_filename e' a' f'
  /\ EmailFetchService.stored_name e a f <> EmailFetchService.stored_name e' a' f'
  /\ stored_filename e a f <> EmailFetchService.stored_name e' a' f'
  /\ EmailFetchService.stored_name e a f <> stored_filename e' a' f'.
Proof.
  intros Hne.
  unfold stored_filename, EmailFetchService.stored_name.
  change ("_" +:+ ?x) with (String "_" x).
  change ("-" +:+ f) with (String "-" f). change ("-" +:+ f') with (String "-" f').
  repeat split; intros E; apply id_name_inj in E as (-> & -> & _ & _);
    try reflexivity; apply Hne; reflexivity.
Qed.

Lemma stored_names_unique_witness :
  (2, 1) <> (1, 21)
  /\ stored_filename 2 1 "a.txt" <> stored_filename 1 21 "a.txt"
  /\ EmailFetchService.stored_name 2 1 "a.txt" <> EmailFetchService.stored_name 1 21 "a.txt"
  /\ stored_filename 2 1 "a.txt" <> EmailFetchService.stored_name 1 21 "a.txt"
  /\ EmailFetchService.stored_name 2 1 "a.txt" <> stored_filename 1 21 "a.txt".
Proof.
  assert (H : (2, 1) <> (1, 21)) by (intros E; discriminate E).
  split; [exact H|]. exact (stored_names_unique 2 1 1 21 "a.txt" "a.txt" H).
Defined.

(** ** Primary keys *)

Lemma next_pk_fresh {A} (pk : A -> nat) (rows : list A) (r : A) :
  In r rows -> pk r < next_pk pk rows.
Proof.
  unfold next_pk. induction rows as [|x rows IH]; simpl; [tauto|].
  intros [->|H]; [lia|]. specialize (IH H). lia.
Qed.

Lemma map_replace_fresh {A} (pk : A -> nat) (rows : list A) (k : nat) (r' : A) :
  (forall r, In r rows -> pk r <> k) ->
  map (fun r => if (pk r =? k)%nat then r' else r) rows = rows.
Proof.
  induction rows as [|x rows IH]; simpl; intros H; [reflexivity|].
  rewrite IH by auto.
  destruct (Nat.eqb_spec (pk x) k) as [E|_]; [|reflexivity].
  exfalso. apply (H x); auto.
Qed.

Lemma existsb_false_forall {A} (p : A -> bool) (l : list A) :
  existsb p l = false -> forall x, In x l -> p x = false.
Proof.
  induction l as [|y l IH]; simpl; intros H x; [tauto|].
  apply orb_false_iff in H as [Hy Hl]. intros [->|Hx]; auto.
Qed.

(** ** The attachment writer *)

Ltac done_run :=
  let H := fresh "Hrun" in intros H; inversion H; subst; clear H; simpl.

Ltac frame := split; [reflexivity|split; [simpl; lia|]].

Ltac pick_failed :=
  lazymatch goal with
  | |- context [BlobWriteFailed ?a _ ?c] => exists a, c
  end.

Ltac mstep :=
  unfold bind, try_except, ret, raise, gets, modify, db_rollback, db_commit,
    utcnow, ensure_attachments_dir, write_file, os_path_exists, os_remove in *;
  simpl in *.

Lemma replace_appended_row (rows : list Attachment) (a a' : Attachment) :
  attachment_pk a = next_pk attachment_pk rows ->
  map (fun r => if (attachment_pk r =? next_pk attachment_pk rows)%nat then a' else r)
      (rows ++ [a])
  = rows ++ [a'].
Proof.
  intros Hpk. rewrite map_app. simpl. rewrite Hpk, Nat.eqb_refl.
  rewrite map_replace_fresh; [reflexivity|].
  intros r Hr. apply (next_pk_fresh attachment_pk) in Hr. lia.
Qed.

Lemma unique_check_old_rows (rows : list Attachment) (a : Attachment) (name : string) :
  existsb (fun r => negb (attachment_pk r =? next_pk attachment_pk rows)%nat
                    && String.eqb (filename_stored r) name) (rows ++ [a]) = false ->
  forall r, In r rows -> filename_stored r <> name.
Proof.
  intros Hex r Hr E.
  apply existsb_false_forall with (x := r) in Hex; [|apply in_or_app; auto].
  apply (next_pk_fresh attachment_pk) in Hr.
  destruct (Nat.eqb_spec (attachment_pk r) (next_pk attachment_pk rows)); [lia|].
  simpl in Hex. apply String.eqb_neq in Hex. contradiction.
Qed.

Lemma save_attachment_spec env email_obj fn mime content size w o w' :
  _save_attachment_with_rollback env email_obj fn mime content size w = (o, w') ->
  committed w' = committed w /\ clock w <= clock w' /\
  ((o = Return tt /\ exists a,
      attachments (session w') = attachments (session w) ++ [a]
      /\ emails (session w') = emails (session w)
      /\ email_filters (session w') = email_filters (session w)
      /\ job_runs (session w') = job_runs (session w)
      /\ trace w' = trace w
                    ++ [BlobWritten (Str.os_path_join (attachments_dir env)
                                                      (filename_stored a))])
   \/ (exists e, o = Raise e /\ session w' = committed w /\ trace w' = trace w
                 /\ disk w' = disk w)
   \/ (exists a exc,
         o = Raise (HTTPException HTTP_500_INTERNAL_SERVER_ERROR
                                  (write_failure_detail fn exc))
         /\ session w' = committed w
         /\ trace w' = trace w
              ++ [BlobWriteFailed a (Str.os_path_join (attachments_dir env)
                                                      (filename_stored a)) exc]
         /\ filename_original a = fn
         /\ email_id a = email_pk email_obj
         /\ filename_stored a
            = stored_filename (email_pk email_obj) (attachment_pk a) fn
         /\ attachment_pk a = next_pk attachment_pk (attachments (session w))
         /\ (forall a', In a' (attachments (session w)) ->
                        filename_stored a' <> filename_stored a)
         /\ (remove_error env (Str.os_path_join (attachments_dir env)
                                                (filename_stored a)) = None ->
             disk w' !! Str.os_path_join (attachments_dir env) (filename_stored a)
             = None))).
Proof.
  unfold _save_attachment_with_rollback, AttachmentRepository.create,
    AttachmentRepository.set_filename_stored.
  mstep.
  destruct (existsb _ (attachments (session w))) eqn:Htemp; simpl.
  { done_run. frame. right; left. eauto. }
  match goal with
  | |- context [existsb ?p ?l] => destruct (existsb p l) eqn:Huniq; simpl
  end.
  { done_run. frame. right; left. eauto. }
  destruct (makedirs_error env) as [e|] eqn:Hmk; simpl.
  { done_run. frame. right; left. eauto. }
  rewrite replace_appended_row by reflexivity.
  destruct (write_fault env _ content) as [fault|] eqn:Hwf; simpl.
  2:{ done_run. frame. left. split; [reflexivity|].
      eexists. repeat split; simpl; reflexivity. }
  assert (Hold := unique_check_old_rows _ _ _ Huniq).
  set (p := Str.os_path_join _ _) in *.
  destruct (partial fault) as [left_behind|]; simpl.
  - rewrite lookup_insert_eq. destruct (remove_error env p) eqn:Hrm; simpl;
      rewrite ?lookup_insert_eq; simpl;
      done_run; frame; right; right; pick_failed;
      (split; [reflexivity|]); repeat (split; [reflexivity|]);
      (split; [exact Hold|]); subst p; simpl; intros; try congruence.
    apply lookup_delete_eq.
  - destruct (disk w !! p) eqn:Hp; simpl.
    + destruct (remove_error env p) eqn:Hrm; simpl; rewrite ?Hp; simpl;
        done_run; frame; right; right; pick_failed;
        (split; [reflexivity|]); repeat (split; [reflexivity|]);
        (split; [exact Hold|]); subst p; simpl; intros; try congruence.
      apply lookup_delete_eq.
    + done_run; frame; right; right; pick_failed;
        (split; [reflexivity|]); repeat (split; [reflexivity|]);
        (split; [exact Hold|]); subst p; simpl; intros; exact Hp.
Qed.

(** ** Stretches of the loop body *)

Lemma appended_fresh_app (rows es1 es2 : list Email) :
  appended_fresh rows es1 -> appended_fresh (rows ++ es1) es2 ->
  appended_fresh rows (es1 ++ es2).
Proof.
  revert rows. induction es1 as [|e es1 IH]; simpl; intros rows H1 H2.
  - rewrite app_nil_r in H2. exact H2.
  - destruct H1 as [He H1]. split; [exact He|].
    apply IH; [exact H1|]. rewrite <- app_assoc. exact H2.
Qed.

Lemma grows_refl (s : Store) : grows s s.
Proof.
  split; [exists []; rewrite app_nil_r; split; [reflexivity|exact I]|].
  split; [exists []; rewrite app_nil_r; reflexivity|]. split; reflexivity.
Qed.

Lemma grows_trans (s1 s2 s3 : Store) : grows s1 s2 -> grows s2 s3 -> grows s1 s3.
Proof.
  intros ((es1 & H1 & F1) & [as1 H2] & H3 & H4) ((es2 & H5 & F2) & [as2 H6] & H7 & H8).
  split; [|split; [|split; congruence]].
  - exists (es1 ++ es2). split; [rewrite H5, H1, app_assoc; reflexivity|].
    apply appended_fresh_app; [exact F1|]. rewrite <- H1. exact F2.
  - exists (as1 ++ as2). rewrite H6, H2, app_assoc. reflexivity.
Qed.

Lemma grows_visible (w w' : World) :
  committed w' = committed w -> grows (session w) (session w') ->
  committed_visible w -> committed_visible w'.
Proof.
  intros Hc (_ & [ats Ha] & _) Hv a Hin.
  rewrite Ha. apply in_or_app. left. apply Hv. rewrite <- Hc. exact Hin.
Qed.

Lemma segment_refl env (w : World) : segment env w w None.
Proof.
  split; [reflexivity|]. split; [lia|].
  exists []. rewrite app_nil_r. repeat split; try constructor.
  - apply grows_refl.
  - constructor.
Qed.

Lemma segment_raise_here env (w : World) (e : Exn) : segment env w w (Some e).
Proof.
  split; [reflexivity|]. split; [lia|].
  exists []. rewrite app_nil_r. repeat split; try constructor. constructor.
Qed.

Lemma segment_then env (w w1 w2 : World) (oe : option Exn) :
  committed_visible w ->
  segment env w w1 None ->
  (committed_visible w1 -> segment env w1 w2 oe) ->
  segment env w w2 oe.
Proof.
  intros Hv (Hc1 & Hk1 & evs1 & Ht1 & Hb1 & Hr1) H2.
  inversion Hr1 as [evs Hg1 Hq1| |]; subst.
  destruct H2 as (Hc2 & Hk2 & evs2 & Ht2 & Hb2 & Hr2).
  { eapply grows_visible; eauto. }
  split; [congruence|]. split; [lia|].
  exists (evs1 ++ evs2). split; [rewrite Ht2, Ht1, app_assoc; reflexivity|].
  split; [apply Forall_app; auto|].
  inversion Hr2 as [evs Hg2 Hq2|e evs Hq2|e evs a p exc Hq2 Hf]; subst.
  - constructor; [eapply grows_trans; eauto|apply Forall_app; auto].
  - constructor. apply Forall_app; auto.
  - rewrite app_assoc. constructor; [apply Forall_app; auto|exact Hf].
Qed.

Lemma save_attachment_segment env email_obj fn mime content size w o w' :
  committed_visible w ->
  _save_attachment_with_rollback env email_obj fn mime content size w = (o, w') ->
  segment env w w' (exn_of o).
Proof.
  intros Hv Hrun. apply save_attachment_spec in Hrun as (Hc & Hk & Hcases).
  split; [exact Hc|]. split; [exact Hk|].
  destruct Hcases as [(-> & a & Ha & He & Hf & Hj & Ht)
                     |[(e & -> & Hs & Ht & Hd)
                      |(a & exc & -> & Hs & Ht & Hfn & Heid & Hname & Hpk & Hold & Hblob)]].
  - eexists. split; [exact Ht|]. split; [repeat constructor|].
    constructor; [|repeat constructor].
    split; [|split; [|split; assumption]].
    + exists []. rewrite app_nil_r. split; [exact He|exact I].
    + exists [a]. exact Ha.
  - exists []. rewrite app_nil_r. split; [exact Ht|]. split; [constructor|].
    constructor. constructor.
  - eexists. split; [exact Ht|]. split; [repeat constructor|].
    apply (seg_failed_write env w w' _ []); [constructor|].
    constructor; try assumption.
    + rewrite Hfn. reflexivity.
    + congruence.
    + reflexivity.
    + rewrite Hname, Heid, Hfn. reflexivity.
    + intros a' Hin. rewrite Hc in Hin. apply Hv in Hin. split; [auto|].
      apply (next_pk_fresh attachment_pk) in Hin. lia.
Qed.

Lemma save_attachments_segment env email_obj attachs w o w' :
  committed_visible w ->
  save_attachments env email_obj attachs w = (o, w') ->
  segment env w w' (exn_of o).
Proof.
  revert w. induction attachs as [|attach rest IH]; simpl; intros w Hv Hrun.
  - inversion Hrun; subst. apply segment_refl.
  - unfold bind in Hrun.
    destruct (_save_attachment_with_rollback _ _ _ _ _ _ w) as [o1 w1] eqn:H1.
    apply save_attachment_segment in H1; [|exact Hv].
    destruct o1 as [[]|e]; simpl in H1.
    + eapply segment_then; eauto.
    + inversion Hrun; subst. exact H1.
Qed.

Lemma email_create_spec mid from recipient cc subject body received w o w' :
  EmailRepository.create mid from recipient cc subject body received w = (o, w') ->
  (exists e, o = Raise e /\ w' = w)
  \/ (exists email, o = Return email
        /\ message_id email = mid
        /\ email_pk email = next_pk email_pk (emails (session w))
        /\ received_at email = received
        /\ has_message_id mid (emails (session w)) = false
        /\ emails (session w') = emails (session w) ++ [email]
        /\ attachments (session w') = attachments (session w)
        /\ email_filters (session w') = email_filters (session w)
        /\ job_runs (session w') = job_runs (session w)
        /\ committed w' = committed w /\ disk w' = disk w
        /\ trace w' = trace w /\ clock w' = S (clock w)).
Proof.
  unfold EmailRepository.create. destruct from as [from|]; mstep.
  2:{ intros H; inversion H; subst. left. eauto. }
  destruct (existsb _ (emails (session w))) eqn:Hex; simpl;
    intros H; inversion H; subst; clear H.
  - left. eauto.
  - right. eexists. repeat split; try reflexivity. exact Hex.
Qed.

Lemma email_create_segment env mid from recipient cc subject body received w o w' :
  EmailRepository.create mid from recipient cc subject body received w = (o, w') ->
  segment env w w' (exn_of o).
Proof.
  intros H. apply email_create_spec in H
    as [(e & -> & ->)
       |(email & -> & Hmid & _ & _ & Hnew & He & Ha & Hf & Hj & Hc & _ & Ht & Hk)].
  - apply segment_raise_here.
  - split; [exact Hc|]. split; [lia|].
    exists []. rewrite app_nil_r. split; [exact Ht|]. split; [constructor|].
    constructor; [|constructor].
    split; [|split; [|split; assumption]].
    + exists [email]. split; [exact He|]. simpl. rewrite Hmid. auto.
    + exists []. rewrite app_nil_r. exact Ha.
Qed.

Lemma check_job_turn_segment env filters em w o w' :
  committed_visible w ->
  check_job_turn env filters em w = (o, w') ->
  segment env w w' (exn_of o).
Proof.
  intros Hv. unfold check_job_turn.
  destruct (Str.truthy (raw_message_id em)); simpl.
  2:{ intros H; inversion H; subst. apply segment_refl. }
  unfold bind at 1. unfold EmailRepository.get_by_message_id, gets at 1.
  destruct (find _ _).
  { intros H; inversion H; subst. apply segment_refl. }
  destruct (apply_filters_to_email em filters); simpl.
  2:{ intros H; inversion H; subst. apply segment_refl. }
  unfold bind at 1.
  destruct (EmailRepository.create _ _ _ _ _ _ _ w) as [o1 w1] eqn:H1.
  apply (email_create_segment env) in H1.
  destruct o1 as [email_obj|e]; simpl in H1.
  2:{ intros H; inversion H; subst. exact H1. }
  unfold bind at 1.
  destruct (save_attachments env email_obj (raw_attachments em) w1) as [o2 w2] eqn:H2.
  intros H. eapply segment_then; [exact Hv|exact H1|]. intros Hv1.
  apply save_attachments_segment in H2; [|exact Hv1].
  destruct o2 as [[]|e]; inversion H; subst; exact H2.
Qed.

Lemma check_job_loop_segment env filters raw_emails n w n' oe w' :
  committed_visible w ->
  check_job_loop env filters raw_emails n w = ((n', oe), w') ->
  segment env w w' oe.
Proof.
  revert n w. induction raw_emails as [|em rest IH]; simpl; intros n w Hv Hrun.
  - inversion Hrun; subst. apply segment_refl.
  - destruct (check_job_turn env filters em w) as [o1 w1] eqn:H1.
    apply check_job_turn_segment in H1; [|exact Hv].
    destruct o1 as [[|]|e]; simpl in H1.
    + eapply segment_then; eauto.
    + eapply segment_then; eauto.
    + inversion Hrun; subst. exact H1.
Qed.

(** ** The [try] block of the check job *)

Lemma failed_write_transfer env (w1 w2 : World) e a p exc :
  attachments (committed w2) = attachments (committed w1) ->
  disk w2 = disk w1 ->
  session w2 = committed w2 ->
  failed_write env w1 e a p exc -> failed_write env w2 e a p exc.
Proof.
  intros Ha Hd Hs [H1 H2 H3 H4 H5 H6].
  constructor; try assumption.
  - rewrite Ha. exact H5.
  - rewrite Hd. exact H6.
Qed.

(** How the [try] block ends, from a world whose session has nothing
    pending: either committed with the loop's gains, or rolled back to
    where it started. *)
Lemma check_job_try_spec env w locals w' :
  session w = committed w ->
  check_job_try env w = (locals, w') ->
  session w' = committed w'
  /\ clock w <= clock w'
  /\ exists evs, trace w' = trace w ++ evs /\ blob_only evs
     /\ ((l_status_str locals = success /\ l_error_message locals = None
          /\ grows (session w) (session w') /\ quiet evs)
         \/ (l_status_str locals = error
             /\ session w' = session w
             /\ exists e, l_error_message locals = Some (str_exn e)
                /\ (quiet evs
                    \/ exists evs0 a p exc,
                         evs = evs0 ++ [BlobWriteFailed a p exc]
                         /\ quiet evs0 /\ failed_write env w' e a p exc))).
Proof.
  intros Hs. unfold check_job_try, ensure_attachments_dir.
  assert (Hhere : forall f s e,
    (mkLocals f s (Some (str_exn e)) error,
     mkWorld (committed w) (committed w) (disk w) (clock w) (trace w))
    = (locals, w') ->
    session w' = committed w' /\ clock w <= clock w'
    /\ exists evs, trace w' = trace w ++ evs /\ blob_only evs
       /\ ((l_status_str locals = success /\ l_error_message locals = None
            /\ grows (session w) (session w') /\ quiet evs)
           \/ (l_status_str locals = error
               /\ session w' = session w
               /\ exists e, l_error_message locals = Some (str_exn e)
                  /\ (quiet evs
                      \/ exists evs0 a p exc,
                           evs = evs0 ++ [BlobWriteFailed a p exc]
                           /\ quiet evs0 /\ failed_write env w' e a p exc)))).
  { intros f s e H. inversion H; subst; clear H. simpl.
    split; [reflexivity|]. split; [lia|].
    exists []. rewrite app_nil_r. split; [reflexivity|]. split; [constructor|].
    right. split; [reflexivity|]. split; [symmetry; exact Hs|].
    exists e. split; [reflexivity|]. left. constructor. }
  destruct (makedirs_error env) as [msg|]; simpl.
  { apply (Hhere 0 0 (OSError msg)). }
  destruct (fetch_unseen_emails_raw env) as [exc|raw_emails].
  { apply Hhere. }
  unfold EmailFilterRepository.get_all, gets.
  destruct (check_job_loop env _ raw_emails 0 w) as [[saved oe] w1] eqn:Hloop.
  apply check_job_loop_segment in Hloop as (Hc & Hk & evs & Ht & Hb & Hr);
    [|intros a Ha; rewrite Hs; exact Ha].
  inversion Hr as [evs' Hg Hq|e evs' Hq|e evs0 a p exc Hq Hf]; subst oe; subst;
    simpl; intros H; inversion H; subst; clear H; simpl;
    (split; [reflexivity|]); (split; [exact Hk|]);
    eexists; (split; [exact Ht|]); (split; [exact Hb|]).
  - left. auto.
  - right. split; [reflexivity|]. split; [congruence|]. eauto.
  - right. split; [reflexivity|]. split; [congruence|].
    exists e. split; [reflexivity|]. right. exists evs0, a, p, exc.
    split; [reflexivity|]. split; [exact Hq|].
    eapply failed_write_transfer; [| | |exact Hf]; reflexivity.
Qed.

(** ** The run recorder and the whole job *)

Lemma save_appended (rows : list JobRun) (jr0 jr : JobRun) :
  job_pk jr0 = next_pk job_pk rows -> job_pk jr = job_pk jr0 ->
  JobRunRepository.save jr (rows ++ [jr0]) = rows ++ [jr].
Proof.
  intros H0 H. unfold JobRunRepository.save.
  rewrite existsb_app. simpl. rewrite H, Nat.eqb_refl. simpl. rewrite orb_true_r.
  rewrite map_app. simpl. rewrite Nat.eqb_refl.
  rewrite map_replace_fresh; [reflexivity|].
  intros r Hr. apply (next_pk_fresh job_pk) in Hr. lia.
Qed.

Lemma run_unfold env w locals w3 :
  let pk := next_pk job_pk (job_runs (session w)) in
  let jr0 := mkJobRun pk (clock w) None 0 0 running None in
  let s1 := set_job_runs (job_runs (session w) ++ [jr0]) (session w) in
  let w2 := mkWorld s1 s1 (disk w) (S (clock w)) (trace w ++ [JobRunCreated pk]) in
  check_job_try env w2 = (locals, w3) ->
  let jr := mkJobRun pk (clock w) (Some (clock w3))
              (l_messages_fetched locals) (l_messages_saved locals)
              (l_status_str locals) (l_error_message locals) in
  let s4 := set_job_runs (JobRunRepository.save jr (job_runs (session w3)))
                         (session w3) in
  run_email_check_job env w
  = (Return jr, mkWorld s4 s4 (disk w3) (S (clock w3))
                        (trace w3 ++ [JobRunFinished pk (l_status_str locals)])).
Proof.
  intros pk jr0 s1 w2 Htry jr s4.
  unfold run_email_check_job, JobRunRepository.create, JobRunRepository.finish.
  mstep. fold pk. fold jr0. fold s1. fold w2. rewrite Htry. reflexivity.
Qed.

Lemma run_spec env w :
  exists jr w' evs,
    run_email_check_job env w = (Return jr, w')
    /\ job_pk jr = next_pk job_pk (job_runs (session w))
    /\ started_at jr = clock w
    /\ (exists t, finished_at jr = Some t /\ clock w < t)
    /\ session w' = committed w'
    /\ job_runs (committed w') = job_runs (session w) ++ [jr]
    /\ email_filters (committed w') = email_filters (session w)
    /\ trace w' = trace w ++ [JobRunCreated (job_pk jr)] ++ evs
                          ++ [JobRunFinished (job_pk jr) (status jr)]
    /\ blob_only evs
    /\ ((status jr = success /\ error_message jr = None
         /\ (exists es, emails (committed w') = emails (session w) ++ es
                         /\ appended_fresh (emails (session w)) es)
         /\ (exists ats, attachments (committed w') = attachments (session w) ++ ats)
         /\ quiet evs)
        \/ (status jr = error
            /\ emails (committed w') = emails (session w)
            /\ attachments (committed w') = attachments (session w)
            /\ exists e, error_message jr = Some (str_exn e)
               /\ (quiet evs
                   \/ exists evs0 a p exc,
                        evs = evs0 ++ [BlobWriteFailed a p exc]
                        /\ quiet evs0 /\ failed_write env w' e a p exc))).
Proof.
  set (pk := next_pk job_pk (job_runs (session w))).
  set (jr0 := mkJobRun pk (clock w) None 0 0 running None).
  set (s1 := set_job_runs (job_runs (session w) ++ [jr0]) (session w)).
  set (w2 := mkWorld s1 s1 (disk w) (S (clock w)) (trace w ++ [JobRunCreated pk])).
  destruct (check_job_try env w2) as [locals w3] eqn:Htry.
  pose proof (run_unfold env w locals w3 Htry) as Hrun. cbv zeta in Hrun.
  fold pk jr0 s1 w2 in Hrun.
  apply check_job_try_spec in Htry as (Hs3 & Hk & evs & Ht & Hb & Hcases);
    [|reflexivity].
  simpl in Hk, Ht.
  assert (Hjobs : job_runs (session w3) = job_runs (session w) ++ [jr0]).
  { destruct Hcases as [(_ & _ & (_ & _ & _ & Hj) & _)|(_ & Hsame & _)].
    - exact Hj.
    - rewrite Hsame. reflexivity. }
  assert (Hfil : email_filters (session w3) = email_filters (session w)).
  { destruct Hcases as [(_ & _ & (_ & _ & Hf & _) & _)|(_ & Hsame & _)].
    - exact Hf.
    - rewrite Hsame. reflexivity. }
  eexists _, _, evs. split; [exact Hrun|]. simpl.
  rewrite Hjobs, save_appended by reflexivity.
  split; [reflexivity|]. split; [reflexivity|].
  split; [exists (clock w3); split; [reflexivity|lia]|].
  split; [reflexivity|]. split; [reflexivity|]. split; [exact Hfil|].
  split; [rewrite Ht, <- !app_assoc; reflexivity|]. split; [exact Hb|].
  destruct Hcases as [(-> & -> & (He & Ha & _ & _) & Hq)
                     |(-> & Hsame & e & -> & Hfail)].
  - left. repeat split; assumption.
  - right. rewrite Hsame. simpl. repeat split. exists e. split; [reflexivity|].
    destruct Hfail as [Hq|(evs0 & a & p & exc & -> & Hq & Hf)]; [left; exact Hq|].
    right. exists evs0, a, p, exc. split; [reflexivity|]. split; [exact Hq|].
    eapply failed_write_transfer; [| | |exact Hf]; simpl; try reflexivity.
    rewrite <- Hs3, Hsame. reflexivity.
Qed.

Lemma blob_only_no_job_events (evs : list Event) :
  blob_only evs -> List.filter is_job_event evs = [].
Proof.
  induction 1 as [|ev evs Hev _ IH]; simpl; [reflexivity|].
  rewrite Hev. exact IH.
Qed.

Lemma quiet_no_failure (evs : list Event) a p exc :
  quiet evs -> ~ In (BlobWriteFailed a p exc) evs.
Proof.
  intros Hq Hin. unfold quiet in Hq. rewrite Forall_forall in Hq.
  apply list_elem_of_In in Hin. apply Hq in Hin. discriminate Hin.
Qed.

(** A failed write recorded among the events of a run: the run ended in
    [error], kept nothing of what it had written, and the world it left
    satisfies [failed_write]. *)
Lemma run_with_failed_write env w jr w' a p exc :
  run_email_check_job env w = (Return jr, w') ->
  In (BlobWriteFailed a p exc) (new_events w w') ->
  status jr = error
  /\ emails (committed w') = emails (session w)
  /\ attachments (committed w') = attachments (session w)
  /\ exists e, error_message jr = Some (str_exn e)
               /\ failed_write env w' e a p exc.
Proof.
  intros Hrun Hin.
  destruct (run_spec env w)
    as (jr1 & w1 & evs & Hrun1 & _ & _ & _ & _ & _ & _ & Ht & _ & Hcases).
  rewrite Hrun in Hrun1. inversion Hrun1; subst jr1 w1; clear Hrun1.
  unfold new_events in Hin. rewrite Ht, drop_app_length in Hin.
  simpl in Hin. destruct Hin as [Hin|Hin]; [discriminate Hin|].
  apply in_app_or in Hin as [Hin|[Hin|[]]]; [|discriminate Hin].
  destruct Hcases as [(_ & _ & _ & _ & Hq)|(Hst & He & Ha & e & Herr & Hfail)].
  { exfalso. eapply quiet_no_failure; eauto. }
  destruct Hfail as [Hq|(evs0 & a0 & p0 & exc0 & -> & Hq & Hf)].
  { exfalso. eapply quiet_no_failure; eauto. }
  apply in_app_or in Hin as [Hin|[Hin|[]]].
  { exfalso. eapply quiet_no_failure; eauto. }
  inversion Hin; subst. eauto 10.
Qed.

(** C5: every call of [run_email_check_job] returns, and what it does to
    the run records is this: it adds one record, committed in status
    [running] with a start time and no end time before the [try] block
    starts; it finishes that record once, with an end time, the counters
    of the [try] block and status [success] or [error]; every record that
    was there before is still there, unchanged. *)
Theorem run_record_created_and_finalized_once (env : Env) (w : World) :
  exists job_run0 w1 locals w2 job_run w',
    begin_run w = (Return job_run0, w1)
    /\ status job_run0 = running
    /\ started_at job_run0 = clock w
    /\ finished_at job_run0 = None
    /\ job_runs (committed w1) = job_runs (session w) ++ [job_run0]
    /\ check_job_try env w1 = (locals, w2)
    /\ run_email_check_job env w = (Return job_run, w')
    /\ job_pk job_run = job_pk job_run0
    /\ started_at job_run = started_at job_run0
    /\ (exists t, finished_at job_run = Some t)
    /\ messages_fetched job_run = l_messages_fetched locals
    /\ messages_saved job_run = l_messages_saved locals
    /\ (status job_run = success \/ status job_run = error)
    /\ job_runs (committed w') = job_runs (session w) ++ [job_run]
    /\ List.filter is_job_event (new_events w w')
       = [JobRunCreated (job_pk job_run);
          JobRunFinished (job_pk job_run) (status job_run)].
Proof.
  destruct (run_spec env w)
    as (jr & w' & evs & Hrun & Hpk & Hstart & (t & Hfin & _) & _ & Hjobs & _
        & Ht & Hb & Hcases).
  set (pk := next_pk job_pk (job_runs (session w))) in *.
  set (jr0 := mkJobRun pk (clock w) None 0 0 running None).
  set (s1 := set_job_runs (job_runs (session w) ++ [jr0]) (session w)).
  set (w1 := mkWorld s1 s1 (disk w) (S (clock w)) (trace w ++ [JobRunCreated pk])).
  destruct (check_job_try env w1) as [locals w2] eqn:Htry.
  pose proof (run_unfold env w locals w2 Htry) as Hrun'. cbv zeta in Hrun'.
  rewrite Hrun in Hrun'. inversion Hrun'; subst jr; clear Hrun'.
  exists jr0, w1, locals, w2. eexists _, _.
  split; [reflexivity|]. split; [reflexivity|]. split; [reflexivity|].
  split; [reflexivity|]. split; [reflexivity|]. split; [exact Htry|].
  split; [exact Hrun|]. split; [reflexivity|]. split; [reflexivity|].
  split; [eauto|]. split; [reflexivity|]. split; [reflexivity|].
  split; [destruct Hcases as [(-> & _)|(-> & _)]; auto|].
  split; [exact Hjobs|].
  unfold new_events. rewrite Ht, drop_app_length.
  simpl. rewrite List.filter_app, blob_only_no_job_events by exact Hb.
  reflexivity.
Qed.


(** Evaluates a run on closed inputs and names its result. *)
Ltac evaluate_run env w jr w' Hrun :=
  let r := eval vm_compute in (run_email_check_job env w) in
  lazymatch r with
  | (Return ?j, ?v) =>
      pose (jr := j); pose (w' := v);
      assert (Hrun : run_email_check_job env w = (Return jr, w'))
        by (vm_compute; reflexivity)
  end.



(** C4 (amended): a failed blob write ends the run in [error] and rolls
    back the whole transaction of the run: the record store holds exactly
    the messages and attachments it held when the run started, so what the
    run had written for earlier candidates is gone with the in-flight
    message, and what earlier runs committed is untouched. *)
Theorem failed_write_rolls_back_the_run
    (env : Env) (w : World) (jr : JobRun) (w' : World)
    (a : Attachment) (file_path : string) (exc : Exn) :
  run_email_check_job env w = (Return jr, w') ->
  In (BlobWriteFailed a file_path exc) (new_events w w') ->
  status jr = error
  /\ emails (committed w') = emails (session w)
  /\ attachments (committed w') = attachments (session w).
Proof.
  intros Hrun Hin.
  destruct (run_with_failed_write env w jr w' a file_path exc Hrun Hin)
    as (Hst & He & Ha & _).
  auto.
Qed.

Lemma failed_write_rolls_back_the_run_witness :
  emails (committed (snd (run_email_check_job
            (Sample.failing_disk [Sample.plain; Sample.with_report])
            Sample.fresh)))
  = emails (session Sample.fresh).
Proof.
  evaluate_run (Sample.failing_disk [Sample.plain; Sample.with_report])
               Sample.fresh jr w' Hrun.
  rewrite Hrun. simpl snd.
  refine (proj1 (proj2
    (failed_write_rolls_back_the_run _ _ jr w' Sample.report_row
       Sample.report_path (cause Sample.disk_full) Hrun _))).
  vm_compute. right. left. reflexivity.
Defined.

(** C4, the counterexample: [plain] is stored by the first turn of the
    loop, the write for [with_report] fails in the second, and after the
    run the row of [plain] is not in the record store. *)
Lemma earlier_message_lost_with_the_run :
  ~ earlier_candidates_kept
      (Sample.failing_disk [Sample.plain; Sample.with_report]) Sample.fresh.
Proof.
  intros H.
  set (env := Sample.failing_disk [Sample.plain; Sample.with_report]) in *.
  evaluate_run env Sample.fresh jr w' Hrun.
  assert (Hin : In (BlobWriteFailed Sample.report_row Sample.report_path
                                    (cause Sample.disk_full))
                   (new_events Sample.fresh w'))
    by (vm_compute; right; left; reflexivity).
  specialize (H jr w' _ _ _ Hrun Hin).
  let r := eval vm_compute in (begin_run Sample.fresh) in
  lazymatch r with
  | (Return ?j0, ?v1) =>
      let l := eval vm_compute in
        (check_job_loop env (List.filter enabled (email_filters (session v1)))
                        [Sample.plain] 0 v1) in
      lazymatch l with
      | ((?n, None), ?vmid) =>
          destruct (H j0 v1 [Sample.plain] [Sample.with_report] n vmid)
            as [Hkept _]; [vm_compute; reflexivity ..|];
          specialize (Hkept Sample.plain_row)
      end
  end.
  vm_compute in Hkept. apply Hkept. left. reflexivity.
Qed.

(** ** Metrics *)

Lemma fold_left_add (col : list nat) (n : nat) :
  fold_left Nat.add col n = n + list_sum col.
Proof.
  revert n. induction col as [|x col IH]; simpl; intros n; [lia|].
  rewrite IH. lia.
Qed.

Lemma coalesce_sql_sum (col : list nat) :
  JobRunRepository.coalesce (JobRunRepository.sql_sum col) 0 = list_sum col.
Proof.
  destruct col as [|x col]; [reflexivity|].
  unfold JobRunRepository.sql_sum, JobRunRepository.coalesce.
  rewrite fold_left_add. reflexivity.
Qed.

Lemma last_by_pk_spec (rows : list JobRun) :
  match JobRunRepository.last_by_pk rows with
  | Some last => In last rows /\ Forall (fun r => job_pk r <= job_pk last) rows
  | None => rows = []
  end.
Proof.
  induction rows as [|r rest IH]; simpl; [reflexivity|].
  destruct (JobRunRepository.last_by_pk rest) as [r'|].
  - destruct IH as [Hin Hall].
    destruct (Nat.ltb_spec (job_pk r') (job_pk r)).
    + split; [left; reflexivity|]. constructor; [lia|].
      eapply Forall_impl; [exact Hall|]. simpl. intros; lia.
    + split; [right; exact Hin|]. constructor; [lia|exact Hall].
  - subst rest. split; [left; reflexivity|]. constructor; [lia|constructor].
Qed.

Lemma last_by_pk_appended (rows : list JobRun) (jr : JobRun) :
  job_pk jr = next_pk job_pk rows ->
  JobRunRepository.last_by_pk (rows ++ [jr]) = Some jr.
Proof.
  intros Hpk.
  assert (Hlt : forall r, In r rows -> job_pk r < job_pk jr).
  { intros r Hr. rewrite Hpk. apply next_pk_fresh. exact Hr. }
  clear Hpk. induction rows as [|r rest IH]; simpl; [reflexivity|].
  rewrite IH by (intros; apply Hlt; right; assumption).
  specialize (Hlt r (or_introl eq_refl)).
  destruct (Nat.ltb_spec (job_pk jr) (job_pk r)); [lia|reflexivity].
Qed.

Lemma get_job_metrics_eval (w : World) :
  get_job_metrics w
  = (Return
       (let rows := job_runs (session w) in
        let last := JobRunRepository.last_by_pk rows in
        mkJobMetrics
          (match last with Some l => Some (started_at l) | None => None end)
          (match last with Some l => finished_at l | None => None end)
          (match last with Some l => Some (status l) | None => None end)
          (match last with Some l => error_message l | None => None end)
          (list_sum (map messages_fetched rows))
          (list_sum (map messages_saved rows))),
     w).
Proof.
  unfold get_job_metrics, JobRunRepository.get_aggregated_metrics,
    JobRunRepository.get_last, bind, gets, ret.
  rewrite !coalesce_sql_sum. reflexivity.
Qed.

Lemma metrics_after_run env w jr w' :
  run_email_check_job env w = (Return jr, w') ->
  exists m m',
    metrics_in w = Some m /\ metrics_in w' = Some m'
    /\ total_messages_fetched m' = total_messages_fetched m + messages_fetched jr
    /\ total_messages_saved m' = total_messages_saved m + messages_saved jr
    /\ last_run_start m' = Some (started_at jr)
    /\ last_run_end m' = finished_at jr
    /\ last_status m' = Some (status jr)
    /\ last_error m' = error_message jr
    /\ status jr <> running.
Proof.
  intros Hrun.
  destruct (run_spec env w)
    as (jr1 & w1 & evs & Hrun1 & Hpk & _ & _ & Hs & Hjobs & _ & _ & _ & Hcases).
  rewrite Hrun in Hrun1. inversion Hrun1; subst jr1 w1; clear Hrun1.
  unfold metrics_in. rewrite !get_job_metrics_eval. eexists _, _.
  split; [reflexivity|]. split; [reflexivity|]. cbv zeta. simpl.
  rewrite Hs, Hjobs, !map_app, !list_sum_app, last_by_pk_appended by exact Hpk.
  simpl. repeat split; try lia.
  destruct Hcases as [(-> & _)|(-> & _)]; discriminate.
Qed.

Lemma run_returns env w : exists jr w', run_email_check_job env w = (Return jr, w').
Proof. destruct (run_spec env w) as (jr & w' & _ & H & _). eauto. Qed.

Lemma metrics_after_runs (envs : list Env) (w : World) :
  exists jrs w' m m',
    run_many envs w = (jrs, w')
    /\ length jrs = length envs
    /\ metrics_in w = Some m /\ metrics_in w' = Some m'
    /\ total_messages_fetched m'
       = total_messages_fetched m + list_sum (map messages_fetched jrs)
    /\ total_messages_saved m'
       = total_messages_saved m + list_sum (map messages_saved jrs)
    /\ match last jrs with
       | Some jr =>
           last_run_start m' = Some (started_at jr)
           /\ last_run_end m' = finished_at jr
           /\ last_status m' = Some (status jr)
           /\ last_error m' = error_message jr
           /\ last_status m' <> Some running
       | None => m' = m
       end.
Proof.
  revert w. induction envs as [|env rest IH]; intros w; simpl.
  - unfold metrics_in. rewrite get_job_metrics_eval.
    eexists [], w, _, _. do 4 (split; [reflexivity|]). simpl.
    rewrite !coalesce_sql_sum. split; [lia|]. split; [lia|]. reflexivity.
  - destruct (run_returns env w) as (jr & w1 & Hrun). rewrite Hrun.
    destruct (metrics_after_run env w jr w1 Hrun)
      as (m & m1 & Hm & Hm1 & Hf1 & Hs1 & Hstart & Hend & Hst & Herr & Hnr).
    destruct (IH w1) as (jrs & w' & m1' & m' & Hmany & Hlen & Hm1' & Hm' & Hf & Hs & Hlast).
    rewrite Hm1 in Hm1'. inversion Hm1'; subst m1'; clear Hm1'.
    rewrite Hmany. exists (jr :: jrs), w', m, m'.
    repeat split; simpl; try assumption; try lia.
    destruct jrs as [|jr' jrs]; simpl in *.
    + subst m'. repeat split; try assumption. congruence.
    + destruct (last (jr' :: jrs)) eqn:El; [exact Hlast|].
      apply last_None in El. discriminate El.
Qed.

(** C8: [get_job_metrics] reads, without changing anything, the sums of
    [messages_fetched] and [messages_saved] over all run records (0 over
    none) and the start, end, status and error of the record with the
    largest key; over any sequence of runs the totals grow by the counters
    of each run, and the status reported after the last of them is that
    run's final status, never [running]. *)
Theorem job_metrics_sum_the_run_records (envs : list Env) (w : World) :
  exists m jrs w' m',
    get_job_metrics w = (Return m, w)
    /\ total_messages_fetched m
       = list_sum (map messages_fetched (job_runs (session w)))
    /\ total_messages_saved m
       = list_sum (map messages_saved (job_runs (session w)))
    /\ match JobRunRepository.last_by_pk (job_runs (session w)) with
       | Some most_recent =>
           In most_recent (job_runs (session w))
           /\ Forall (fun r => job_pk r <= job_pk most_recent) (job_runs (session w))
           /\ last_run_start m = Some (started_at most_recent)
           /\ last_run_end m = finished_at most_recent
           /\ last_status m = Some (status most_recent)
           /\ last_error m = error_message most_recent
       | None =>
           job_runs (session w) = []
           /\ total_messages_fetched m = 0 /\ total_messages_saved m = 0
           /\ last_run_start m = None /\ last_run_end m = None
           /\ last_status m = None /\ last_error m = None
       end
    /\ run_many envs w = (jrs, w')
    /\ length jrs = length envs
    /\ get_job_metrics w' = (Return m', w')
    /\ total_messages_fetched m'
       = total_messages_fetched m + list_sum (map messages_fetched jrs)
    /\ total_messages_saved m'
       = total_messages_saved m + list_sum (map messages_saved jrs)
    /\ match last jrs with
       | Some jr =>
           last_run_start m' = Some (started_at jr)
           /\ last_run_end m' = finished_at jr
           /\ last_status m' = Some (status jr)
           /\ last_error m' = error_message jr
           /\ last_status m' <> Some running
       | None => m' = m
       end.
Proof.
  destruct (metrics_after_runs envs w)
    as (jrs & w' & m & m' & Hmany & Hlen & Hm & Hm' & Hf & Hs & Hlast).
  unfold metrics_in in Hm, Hm'. rewrite get_job_metrics_eval in Hm, Hm'.
  inversion Hm as [Em]. inversion Hm' as [Em']. clear Hm Hm'.
  exists m, jrs, w', m'.
  split; [rewrite <- Em; apply get_job_metrics_eval|].
  split; [subst m; reflexivity|]. split; [subst m; reflexivity|].
  split.
  { pose proof (last_by_pk_spec (job_runs (session w))) as Hspec.
    rewrite <- Em. cbv zeta. simpl.
    destruct (JobRunRepository.last_by_pk (job_runs (session w))).
    - destruct Hspec. repeat split; assumption.
    - rewrite Hspec. simpl. repeat split. }
  split; [exact Hmany|]. split; [exact Hlen|].
  split; [rewrite <- Em'; apply get_job_metrics_eval|].
  auto.
Qed.

(** ** Candidates the loop passes over *)

Lemma save_attachments_env r env email_obj attachs w :
  save_attachments (set_fetched r env) email_obj attachs w
  = save_attachments env email_obj attachs w.
Proof.
  revert w. induction attachs as [|attach rest IH]; intros w; [reflexivity|].
  simpl. unfold bind.
  change (_save_attachment_with_rollback (set_fetched r env))
    with (_save_attachment_with_rollback env).
  destruct (_save_attachment_with_rollback env _ _ _ _ _ w) as [[[]|e] w1];
    [apply IH|reflexivity].
Qed.

Lemma check_job_turn_env r env filters em w :
  check_job_turn (set_fetched r env) filters em w = check_job_turn env filters em w.
Proof.
  unfold check_job_turn.
  destruct (negb (Str.truthy (raw_message_id em))); [reflexivity|].
  unfold bind.
  destruct (EmailRepository.get_by_message_id _ w) as [[[e|]|exc] w1]; try reflexivity.
  destruct (negb (apply_filters_to_email em filters)); [reflexivity|].
  destruct (EmailRepository.create _ _ _ _ _ _ _ w1) as [[email_obj|exc] w2];
    [|reflexivity].
  rewrite save_attachments_env. reflexivity.
Qed.

Lemma check_job_loop_env r env filters raw_emails n w :
  check_job_loop (set_fetched r env) filters raw_emails n w
  = check_job_loop env filters raw_emails n w.
Proof.
  revert n w. induction raw_emails as [|em rest IH]; intros n w; [reflexivity|].
  simpl. rewrite check_job_turn_env.
  destruct (check_job_turn env filters em w) as [[[|]|exc] w1];
    [apply IH|apply IH|reflexivity].
Qed.

Lemma check_job_try_unfold env w raw_emails :
  makedirs_error env = None ->
  fetch_unseen_emails_raw env = inr raw_emails ->
  check_job_try env w =
  match check_job_loop env (List.filter enabled (email_filters (session w)))
                       raw_emails 0 w with
  | ((saved, Some exc), w1) =>
      (mkLocals (length raw_emails) saved (Some (str_exn exc)) error,
       mkWorld (committed w1) (committed w1) (disk w1) (clock w1) (trace w1))
  | ((saved, None), w1) =>
      (mkLocals (length raw_emails) saved None success,
       mkWorld (session w1) (session w1) (disk w1) (clock w1) (trace w1))
  end.
Proof.
  intros Hmk Hfetch. unfold check_job_try, ensure_attachments_dir.
  rewrite Hmk, Hfetch. simpl.
  destruct (check_job_loop _ _ _ _ _) as [[saved [exc|]] w1]; reflexivity.
Qed.

(** A candidate whose turn does nothing can be dropped from the fetched
    list, wherever it stands, as long as the worlds the loop goes through
    keep the property [P] that makes its turn do nothing. *)
Lemma check_job_loop_skip env filters (P : World -> Prop) em :
  (forall w, P w -> check_job_turn env filters em w = (Return false, w)) ->
  (forall em' w b w', P w -> check_job_turn env filters em' w = (Return b, w') -> P w') ->
  forall before after n w,
    P w ->
    check_job_loop env filters (before ++ em :: after) n w
    = check_job_loop env filters (before ++ after) n w.
Proof.
  intros Hnoop Hkeep before after.
  induction before as [|em' before IH]; intros n w HP; simpl.
  - rewrite Hnoop by exact HP. reflexivity.
  - destruct (check_job_turn env filters em' w) as [[[|]|exc] w1] eqn:Hturn;
      [apply IH; eauto|apply IH; eauto|reflexivity].
Qed.

Lemma turn_without_identifier env filters em w :
  Str.truthy (raw_message_id em) = false ->
  check_job_turn env filters em w = (Return false, w).
Proof. intros H. unfold check_job_turn. rewrite H. reflexivity. Qed.

Lemma has_message_id_find (mid : string) (rows : list Email) :
  has_message_id mid rows = true ->
  exists e, List.find (fun e => String.eqb (message_id e) mid) rows = Some e.
Proof.
  unfold has_message_id. induction rows as [|r rows IH]; simpl; [discriminate|].
  destruct (String.eqb (message_id r) mid); simpl; eauto.
Qed.

Lemma turn_with_stored_identifier env filters em mid w :
  raw_message_id em = Some mid ->
  has_message_id mid (emails (session w)) = true ->
  check_job_turn env filters em w = (Return false, w).
Proof.
  intros Hid Hhas. unfold check_job_turn. rewrite Hid.
  destruct mid as [|c mid]; [reflexivity|]. simpl.
  unfold bind, EmailRepository.get_by_message_id, gets.
  apply has_message_id_find in Hhas as [e ->]. reflexivity.
Qed.

Lemma has_message_id_app mid rows es :
  has_message_id mid rows = true -> has_message_id mid (rows ++ es) = true.
Proof.
  unfold has_message_id. rewrite existsb_app. intros ->. reflexivity.
Qed.

Lemma count_zero_iff mid rows :
  has_message_id mid rows = false <-> count_message_id mid rows = 0.
Proof.
  unfold has_message_id, count_message_id.
  induction rows as [|r rows IH]; simpl; [tauto|].
  destruct (String.eqb (message_id r) mid); simpl; [split; discriminate|exact IH].
Qed.

Lemma count_appended_fresh mid rows es :
  appended_fresh rows es ->
  (has_message_id mid rows = true ->
   count_message_id mid (rows ++ es) = count_message_id mid rows)
  /\ (count_message_id mid rows <= 1 -> count_message_id mid (rows ++ es) <= 1).
Proof.
  revert rows. induction es as [|e es IH]; simpl; intros rows Hfresh.
  - rewrite app_nil_r. auto.
  - destruct Hfresh as [He Hfresh].
    destruct (IH _ Hfresh) as [IH1 IH2].
    replace (rows ++ e :: es) with ((rows ++ [e]) ++ es)
      by (rewrite <- app_assoc; reflexivity).
    assert (Hcount : count_message_id mid (rows ++ [e])
                     = count_message_id mid rows
                       + (if String.eqb (message_id e) mid then 1 else 0)).
    { unfold count_message_id. rewrite List.filter_app, length_app. simpl.
      destruct (String.eqb (message_id e) mid); reflexivity. }
    split.
    + intros Hhas. rewrite IH1 by (apply has_message_id_app; exact Hhas).
      rewrite Hcount.
      destruct (String.eqb_spec (message_id e) mid) as [E|_]; [|lia].
      rewrite E in He. congruence.
    + intros Hle. apply IH2. rewrite Hcount.
      destruct (String.eqb_spec (message_id e) mid) as [E|_]; [|lia].
      rewrite E in He. apply count_zero_iff in He. lia.
Qed.

Lemma run_without_noop_candidate env w before em after :
  makedirs_error env = None ->
  fetch_unseen_emails_raw env = inr (before ++ em :: after) ->
  (let filters := List.filter enabled (email_filters (session (after_begin w))) in
   check_job_loop env filters (before ++ em :: after) 0 (after_begin w)
   = check_job_loop env filters (before ++ after) 0 (after_begin w)) ->
  exists jr w' jr_without w_without,
    run_email_check_job env w = (Return jr, w')
    /\ run_email_check_job (set_fetched (inr (before ++ after)) env) w
       = (Return jr_without, w_without)
    /\ messages_fetched jr = length (before ++ em :: after)
    /\ messages_fetched jr_without = length (before ++ after)
    /\ messages_saved jr = messages_saved jr_without
    /\ status jr = status jr_without
    /\ error_message jr = error_message jr_without
    /\ emails (committed w') = emails (committed w_without)
    /\ attachments (committed w') = attachments (committed w_without)
    /\ disk w' = disk w_without
    /\ trace w' = trace w_without.
Proof.
  intros Hmk Hfetch Hloop. cbv zeta in Hloop.
  set (env' := set_fetched (inr (before ++ after)) env).
  pose proof (check_job_try_unfold env (after_begin w) _ Hmk Hfetch) as Htry.
  pose proof (check_job_try_unfold env' (after_begin w) (before ++ after) Hmk eq_refl)
    as Htry'.
  unfold env' in Htry'. rewrite check_job_loop_env in Htry'. fold env' in Htry'.
  rewrite Hloop in Htry.
  destruct (check_job_loop env _ (before ++ after) 0 (after_begin w))
    as [[saved oe] w1].
  destruct oe as [exc|];
    pose proof (run_unfold env w _ _ Htry) as Hrun;
    pose proof (run_unfold env' w _ _ Htry') as Hrun';
    cbv zeta in Hrun, Hrun';
    eexists _, _, _, _; (split; [exact Hrun|]); (split; [exact Hrun'|]);
    simpl; repeat split; reflexivity.
Qed.

(** C6: a fetched candidate whose identifier is empty or absent, at any
    position of the fetched list, is counted in [messages_fetched] and
    changes nothing else: the run stores, writes, counts as saved and
    reports exactly what it would without that candidate. *)
Theorem candidate_without_identifier_counted_not_stored
    (env : Env) (w : World) (before : list RawEmail) (em : RawEmail)
    (after : list RawEmail) :
  Str.truthy (raw_message_id em) = false ->
  makedirs_error env = None ->
  fetch_unseen_emails_raw env = inr (before ++ em :: after) ->
  exists jr w' jr_without w_without,
    run_email_check_job env w = (Return jr, w')
    /\ run_email_check_job (set_fetched (inr (before ++ after)) env) w
       = (Return jr_without, w_without)
    /\ messages_fetched jr = length (before ++ em :: after)
    /\ messages_fetched jr_without = length (before ++ after)
    /\ messages_saved jr = messages_saved jr_without
    /\ status jr = status jr_without
    /\ error_message jr = error_message jr_without
    /\ emails (committed w') = emails (committed w_without)
    /\ attachments (committed w') = attachments (committed w_without)
    /\ disk w' = disk w_without
    /\ trace w' = trace w_without.
Proof.
  intros Hid Hmk Hfetch.
  apply run_without_noop_candidate; [exact Hmk|exact Hfetch|].
  cbv zeta. apply (check_job_loop_skip env _ (fun _ => True)); auto.
  intros w0 _. apply turn_without_identifier. exact Hid.
Qed.

Lemma candidate_without_identifier_counted_not_stored_witness :
  exists jr w',
    run_email_check_job
      (Sample.healthy [Sample.plain; Sample.anonymous; Sample.with_report])
      Sample.fresh = (Return jr, w')
    /\ messages_fetched jr = 3
    /\ messages_saved jr = 2
    /\ map message_id (emails (committed w')) = ["<m1@example.org>"; "<m2@example.org>"].
Proof.
  destruct (candidate_without_identifier_counted_not_stored
              (Sample.healthy [Sample.plain; Sample.anonymous; Sample.with_report])
              Sample.fresh [Sample.plain] Sample.anonymous [Sample.with_report]
              eq_refl eq_refl eq_refl)
    as (jr & w' & jr2 & w2 & Hrun & Hrun2 & Hf & _ & Hs & _ & _ & He & _).
  exists jr, w'. split; [exact Hrun|]. split; [exact Hf|].
  vm_compute in Hrun2. inversion Hrun2; subst jr2 w2; clear Hrun2.
  split; [rewrite Hs; reflexivity|]. rewrite He. reflexivity.
Defined.

Lemma run_keeps_identifiers_unique env w jr w' mid :
  run_email_check_job env w = (Return jr, w') ->
  session w' = committed w'
  /\ (count_message_id mid (emails (session w)) <= 1 ->
      count_message_id mid (emails (committed w')) <= 1)
  /\ (has_message_id mid (emails (session w)) = true ->
      count_message_id mid (emails (committed w'))
      = count_message_id mid (emails (session w))).
Proof.
  intros Hrun.
  destruct (run_spec env w)
    as (jr1 & w1 & evs & Hrun1 & _ & _ & _ & Hs & _ & _ & _ & _ & Hcases).
  rewrite Hrun in Hrun1. inversion Hrun1; subst jr1 w1; clear Hrun1.
  split; [exact Hs|].
  destruct Hcases as [(_ & _ & (es & -> & Hfresh) & _)|(_ & -> & _)]; [|auto].
  destruct (count_appended_fresh mid _ _ Hfresh). auto.
Qed.

(** C3: a message whose identifier is in the record store after one run,
    whether that run stored it or it was there before, soft-deleted or
    not, is passed over by the next run, at any position of the fetched
    list: the store holds exactly one message with that identifier after
    both runs, and the second run counts, stores and writes exactly what
    it would had the message not been fetched again. *)
Theorem stored_identifier_skipped_by_next_run
    (env1 env2 : Env) (w0 : World) (jr1 : JobRun) (w1 : World)
    (before : list RawEmail) (em : RawEmail) (after : list RawEmail)
    (mid : string) :
  count_message_id mid (emails (session w0)) <= 1 ->
  run_email_check_job env1 w0 = (Return jr1, w1) ->
  has_message_id mid (emails (committed w1)) = true ->
  raw_message_id em = Some mid ->
  makedirs_error env2 = None ->
  fetch_unseen_emails_raw env2 = inr (before ++ em :: after) ->
  exists jr2 w2 jr_without w_without,
    run_email_check_job env2 w1 = (Return jr2, w2)
    /\ run_email_check_job (set_fetched (inr (before ++ after)) env2) w1
       = (Return jr_without, w_without)
    /\ count_message_id mid (emails (committed w1)) = 1
    /\ count_message_id mid (emails (committed w2)) = 1
    /\ messages_saved jr2 = messages_saved jr_without
    /\ status jr2 = status jr_without
    /\ error_message jr2 = error_message jr_without
    /\ emails (committed w2) = emails (committed w_without)
    /\ attachments (committed w2) = attachments (committed w_without)
    /\ disk w2 = disk w_without.
Proof.
  intros Hle Hrun1 Hhas Hid Hmk Hfetch.
  destruct (run_keeps_identifiers_unique env1 w0 jr1 w1 mid Hrun1) as (Hs1 & Hle1 & _).
  specialize (Hle1 Hle).
  assert (Hone : count_message_id mid (emails (committed w1)) = 1).
  { destruct (count_message_id mid (emails (committed w1))) as [|[|k]] eqn:Hc;
      [|reflexivity|lia].
    apply count_zero_iff in Hc. congruence. }
  destruct (run_without_noop_candidate env2 w1 before em after Hmk Hfetch)
    as (jr2 & w2 & jr_without & w_without & Hrun2 & Hrun2' & _ & _ & Hsaved & Hst
        & Herr & He & Ha & Hd & _).
  { cbv zeta.
    apply (check_job_loop_skip env2 _
             (fun w => committed_visible w
                       /\ has_message_id mid (emails (session w)) = true)).
    - intros w [_ Hw]. eapply turn_with_stored_identifier; eauto.
    - intros em' w b w' [Hv Hw] Hturn.
      apply check_job_turn_segment in Hturn as (Hc & _ & evs & _ & _ & Hr);
        [|exact Hv].
      inversion Hr as [evs' Hg _| |]; subst.
      split; [eapply grows_visible; eauto|].
      destruct Hg as ((es & -> & _) & _). apply has_message_id_app. exact Hw.
    - split; [intros a Ha; exact Ha|]. simpl. rewrite Hs1. exact Hhas. }
  exists jr2, w2, jr_without, w_without.
  destruct (run_keeps_identifiers_unique env2 w1 jr2 w2 mid Hrun2) as (_ & _ & Hsame).
  rewrite Hs1 in Hsame. specialize (Hsame Hhas).
  repeat split; try assumption. congruence.
Qed.

Lemma stored_identifier_skipped_by_next_run_witness :
  exists jr2 w2,
    run_email_check_job (Sample.healthy [Sample.plain; Sample.with_report])
      (snd (run_email_check_job (Sample.healthy [Sample.plain])
                                Sample.with_soft_deleted))
    = (Return jr2, w2)
    /\ count_message_id "<m1@example.org>" (emails (committed w2)) = 1
    /\ messages_saved jr2 = 1.
Proof.
  evaluate_run (Sample.healthy [Sample.plain]) Sample.with_soft_deleted jr1 w1 Hrun1.
  rewrite Hrun1. simpl snd.
  destruct (stored_identifier_skipped_by_next_run
              (Sample.healthy [Sample.plain])
              (Sample.healthy [Sample.plain; Sample.with_report])
              Sample.with_soft_deleted jr1 w1 [] Sample.plain [Sample.with_report]
              "<m1@example.org>")
    as (jr2 & w2 & jr' & w' & Hrun2 & Hrun' & _ & Hcount & Hsaved & _);
    [vm_compute; lia|exact Hrun1|reflexivity|reflexivity|reflexivity|reflexivity|].
  exists jr2, w2. split; [exact Hrun2|]. split; [exact Hcount|].
  vm_compute in Hrun'. inversion Hrun'; subst jr' w'; clear Hrun'.
  rewrite Hsaved. reflexivity.
Defined.

(** ** Who runs the pipeline *)

Lemma remove_one_occurrences (i j : Scheduler.Invocation) (l : list Scheduler.Invocation) :
  Scheduler.occurrences j (Scheduler.remove_one i l) <= Scheduler.occurrences j l.
Proof.
  unfold Scheduler.occurrences.
  induction l as [|k l IH]; simpl; [lia|].
  destruct (decide (i = k)) as [->|Hne]; simpl.
  - destruct (bool_decide (j = k)); simpl; lia.
  - destruct (bool_decide (j = k)); simpl; lia.
Qed.

Lemma not_running_occurrences (i : Scheduler.Invocation) (l : list Scheduler.Invocation) :
  Scheduler.running i l = false -> Scheduler.occurrences i l = 0.
Proof.
  unfold Scheduler.running, Scheduler.occurrences.
  induction l as [|k l IH]; simpl; [reflexivity|].
  destruct (bool_decide (i = k)); simpl; [discriminate|exact IH].
Qed.

(** The scheduler's own limit: one instance of the periodic job of a given
    scheduler at a time. It is kept by every request. *)
Lemma step_keeps_scheduled_limit (p : Scheduler.Process) (r : Scheduler.Request) :
  (forall g, Scheduler.occurrences (Scheduler.Scheduled g) (Scheduler.in_flight p) <= 1) ->
  forall g, Scheduler.occurrences (Scheduler.Scheduled g)
              (Scheduler.in_flight (Scheduler.step p r)) <= 1.
Proof.
  intros Hinv g. destruct r as [| | | |i]; simpl.
  - unfold Scheduler.start_scheduler. destruct (Scheduler._scheduler p); apply Hinv.
  - unfold Scheduler.shutdown_scheduler. destruct (Scheduler._scheduler p); apply Hinv.
  - unfold Scheduler.timer_fires. destruct (Scheduler._scheduler p) as [g0|]; [|apply Hinv].
    destruct (Scheduler.running _ _) eqn:Hrun; [apply Hinv|].
    simpl. unfold Scheduler.occurrences. simpl.
    destruct (bool_decide_reflect (Scheduler.Scheduled g = Scheduler.Scheduled g0)) as [E|_].
    + rewrite E. simpl.
      apply not_running_occurrences in Hrun. unfold Scheduler.occurrences in Hrun.
      rewrite Hrun. lia.
    + apply Hinv.
  - unfold Scheduler.occurrences. simpl. apply Hinv.
  - eapply Nat.le_trans; [apply remove_one_occurrences|apply Hinv].
Qed.

Lemma run_app (rs rs' : list Scheduler.Request) :
  Scheduler.run (rs ++ rs') = fold_left Scheduler.step rs' (Scheduler.run rs).
Proof. unfold Scheduler.run. apply fold_left_app. Qed.

Lemma scheduled_limit_reachable (rs : list Scheduler.Request) (g : nat) :
  Scheduler.occurrences (Scheduler.Scheduled g) (Scheduler.in_flight (Scheduler.run rs)) <= 1.
Proof.
  revert g. induction rs as [|r rs IH] using rev_ind; intros g.
  - simpl. unfold Scheduler.occurrences. simpl. lia.
  - rewrite run_app. simpl. apply step_keeps_scheduled_limit. exact IH.
Qed.

Lemma triggers_pile_up (p : Scheduler.Process) (n : nat) :
  length (Scheduler.in_flight
            (fold_left Scheduler.step (repeat Scheduler.TriggerJob n) p))
  = length (Scheduler.in_flight p) + n.
Proof.
  revert p. induction n as [|n IH]; intros p; simpl; [lia|].
  rewrite IH. simpl. lia.
Qed.

(** C9 (amended): the code has no gate in front of the pipeline. After any
    sequence of requests, the trigger endpoint starts an invocation
    whatever is in flight, so [n] further triggers put [n] further
    invocations in flight at once. What is limited is the periodic job
    alone: a second [start_scheduler] changes nothing while a scheduler is
    live, and no scheduler has two instances of its periodic job in flight. *)
Theorem on_demand_trigger_is_not_gated (rs : list Scheduler.Request) (n g : nat) :
  Scheduler.in_flight (Scheduler.run (rs ++ [Scheduler.TriggerJob]))
  = Scheduler.OnDemand :: Scheduler.in_flight (Scheduler.run rs)
  /\ length (Scheduler.in_flight
               (Scheduler.run (rs ++ repeat Scheduler.TriggerJob n)))
     = length (Scheduler.in_flight (Scheduler.run rs)) + n
  /\ Scheduler.run (rs ++ [Scheduler.StartScheduler; Scheduler.StartScheduler])
     = Scheduler.run (rs ++ [Scheduler.StartScheduler])
  /\ Scheduler.occurrences (Scheduler.Scheduled g)
                           (Scheduler.in_flight (Scheduler.run rs)) <= 1.
Proof.
  split; [rewrite run_app; reflexivity|].
  split; [rewrite run_app; apply triggers_pile_up|].
  split; [|apply scheduled_limit_reachable].
  rewrite !run_app. simpl. unfold Scheduler.start_scheduler.
  destruct (Scheduler._scheduler (Scheduler.run rs)) eqn:E; simpl; [rewrite E|];
    reflexivity.
Qed.

(** C9, the counterexample: the periodic job is running when the endpoint
    is called; both invocations are in flight. *)
Lemma trigger_overlaps_scheduled_run :
  ~ Scheduler.single_flight
      [Scheduler.StartScheduler; Scheduler.TimerFires; Scheduler.TriggerJob].
Proof. unfold Scheduler.single_flight. vm_compute. lia. Qed.

(** ** The two entry points *)



















(* ===================================================================== *)
(** * The rest of the code: properties *)
(* ===================================================================== *)

(** ** The filter engine, further *)

Lemma existsb_permutation {A} (p : A -> bool) (l l' : list A) :
  Permutation l l' -> existsb p l = existsb p l'.
Proof.
  induction 1 as [|x l l' _ IH|x y l|l l' l'' _ IH1 _ IH2]; simpl.
  - reflexivity.
  - rewrite IH. reflexivity.
  - destruct (p x), (p y); reflexivity.
  - congruence.
Qed.

Lemma filter_permutation {A} (p : A -> bool) (l l' : list A) :
  Permutation l l' -> Permutation (List.filter p l) (List.filter p l').
Proof.
  induction 1 as [|x l l' _ IH|x y l|l l' l'' _ IH1 _ IH2]; simpl.
  - constructor.
  - destruct (p x); [constructor|]; exact IH.
  - destruct (p x), (p y); try reflexivity. constructor.
  - etransitivity; eassumption.
Qed.

(** X1: the verdict of [apply_filters_to_email] does not depend on the
    order in which the rules are listed. *)
Theorem filter_verdict_ignores_rule_order
    (candidate : RawEmail) (rules rules' : list EmailFilter) :
  Permutation rules rules' ->
  apply_filters_to_email candidate rules = apply_filters_to_email candidate rules'.
Proof.
  intros Hperm.
  destruct rules as [|f rest].
  { apply Permutation_nil_l in Hperm. subst. reflexivity. }
  destruct rules' as [|f' rest'].
  { apply Permutation_nil_r in Hperm. discriminate Hperm. }
  unfold apply_filters_to_email. rewrite !filters_loop_spec.
  apply existsb_permutation, filter_permutation, Hperm.
Qed.

Lemma filter_verdict_ignores_rule_order_witness :
  apply_filters_to_email Sample.plain
    [mkEmailFilter 1 "bob" true (Some "bob@example.org") None None 5;
     mkEmailFilter 2 "greetings" true None (Some "HELLO") None 6]
  = apply_filters_to_email Sample.plain
    [mkEmailFilter 2 "greetings" true None (Some "HELLO") None 6;
     mkEmailFilter 1 "bob" true (Some "bob@example.org") None None 5].
Proof.
  apply filter_verdict_ignores_rule_order. apply perm_swap.
Defined.

Lemma filter_none {A} (p : A -> bool) (l : list A) :
  (forall x, In x l -> p x = false) -> List.filter p l = [].
Proof.
  induction l as [|x l IH]; simpl; intros H; [reflexivity|].
  rewrite (H x) by (left; reflexivity). apply IH. intros; apply H; right; assumption.
Qed.

(** X2: fail-open holds for the empty rule list only. When there are
    rules and none of them is both enabled and configured with a
    condition, every candidate is rejected. *)
Theorem only_inert_rules_reject_everything
    (candidate : RawEmail) (rules : list EmailFilter) :
  rules <> [] ->
  (forall f, In f rules -> enabled f && FilterSpec.has_condition f = false) ->
  apply_filters_to_email candidate rules = false.
Proof.
  intros Hne Hinert. destruct rules as [|f rest]; [contradiction|].
  unfold apply_filters_to_email. rewrite filters_loop_spec.
  rewrite filter_none; [reflexivity|]. exact Hinert.
Qed.

Lemma only_inert_rules_reject_everything_witness :
  apply_filters_to_email Sample.plain
    [mkEmailFilter 1 "empty" true None (Some "") None 5;
     mkEmailFilter 2 "off" false (Some "alice") None None 6] = false.
Proof.
  apply only_inert_rules_reject_everything; [discriminate|].
  intros f [<-|[<-|[]]]; reflexivity.
Defined.

(** X3: with a rule list that is not empty the verdict is monotone in the
    rules: a candidate accepted under some rules is accepted under any
    rule list that contains them. *)
Theorem more_rules_accept_more
    (candidate : RawEmail) (rules rules' : list EmailFilter) :
  rules <> [] ->
  (forall f, In f rules -> In f rules') ->
  apply_filters_to_email candidate rules = true ->
  apply_filters_to_email candidate rules' = true.
Proof.
  intros Hne Hincl Hacc.
  destruct rules as [|f rest]; [contradiction|].
  destruct rules' as [|f' rest']; [destruct (Hincl f (or_introl eq_refl))|].
  unfold apply_filters_to_email in *. rewrite filters_loop_spec in *.
  apply existsb_exists in Hacc as (r & Hr & Hconj).
  apply filter_In in Hr as [Hr Hen].
  apply existsb_exists. exists r. split; [|exact Hconj].
  apply filter_In. auto.
Qed.

Lemma more_rules_accept_more_witness :
  apply_filters_to_email Sample.plain
    [mkEmailFilter 1 "bob" true (Some "bob@example.org") None None 5;
     mkEmailFilter 2 "greetings" true None (Some "HELLO") None 6] = true.
Proof.
  apply (more_rules_accept_more _
           [mkEmailFilter 2 "greetings" true None (Some "HELLO") None 6]);
    [discriminate| |reflexivity].
  intros f [<-|[]]. right. left. reflexivity.
Defined.

(** X4: the verdict reads the candidate's sender, subject and body up to
    ASCII case, with an absent field read as the empty one: two candidates
    that agree on the three fields in this sense get the same verdict. *)
Theorem filter_verdict_ignores_case
    (candidate candidate' : RawEmail) (rules : list EmailFilter) :
  Str.lower (Str.or_empty (raw_sender candidate))
  = Str.lower (Str.or_empty (raw_sender candidate')) ->
  Str.lower (Str.or_empty (raw_subject candidate))
  = Str.lower (Str.or_empty (raw_subject candidate')) ->
  Str.lower (Str.or_empty (raw_body candidate))
  = Str.lower (Str.or_empty (raw_body candidate')) ->
  apply_filters_to_email candidate rules = apply_filters_to_email candidate' rules.
Proof.
  intros Hs Hj Hb. destruct rules as [|f rest]; [reflexivity|].
  unfold apply_filters_to_email.
  induction (f :: rest) as [|g l IH]; simpl; [reflexivity|].
  unfold filter_turn. rewrite Hs, Hj, Hb, IH. reflexivity.
Qed.

Lemma filter_verdict_ignores_case_witness :
  apply_filters_to_email Sample.plain
    [mkEmailFilter 2 "greetings" true None (Some "HELLO") None 6]
  = apply_filters_to_email
      (mkRawEmail (Some "<m9@example.org>") (Some "ALICE <ALICE@EXAMPLE.ORG>")
                  None None (Some "hELLO") (Some "FIRST") None [])
      [mkEmailFilter 2 "greetings" true None (Some "HELLO") None 6].
Proof.
  apply filter_verdict_ignores_case; reflexivity.
Defined.

(** ** The attachment writer, further *)

(** X5: [_save_attachment_with_rollback] ends in one of two ways. When it
    returns, the session has gained exactly one attachment row, with the
    next key, the derived stored name and the metadata it was given, and
    the file at the derived path holds the content. When it raises,
    whatever went wrong, it raises an HTTP 500 whose detail starts with
    the original filename in quotes, and the session is back at the last
    commit. The committed store is the same in both cases. *)
Theorem attachment_writer_outcomes
    (env : Env) (email_obj : Email) (fn : string) (mime : option string)
    (content : bytes) (size : option nat) (w : World) :
  let a := mkAttachment (next_pk attachment_pk (attachments (session w)))
             (email_pk email_obj) fn
             (stored_filename (email_pk email_obj)
                (next_pk attachment_pk (attachments (session w))) fn)
             mime size (clock w) in
  let '(o, w') := _save_attachment_with_rollback env email_obj fn mime content size w in
  committed w' = committed w
  /\ match o with
     | Return _ =>
         attachments (session w') = attachments (session w) ++ [a]
         /\ emails (session w') = emails (session w)
         /\ disk w' !! Str.os_path_join (attachments_dir env) (filename_stored a)
            = Some content
     | Raise e =>
         session w' = committed w
         /\ exists rest,
              e = HTTPException 500
                    ("Erro ao salvar anexo '" +:+ fn +:+ "'" +:+ rest)
     end.
Proof.
  intros a. subst a.
  unfold _save_attachment_with_rollback, AttachmentRepository.create,
    AttachmentRepository.set_filename_stored.
  mstep.
  destruct (existsb _ (attachments (session w))) eqn:Htemp; simpl.
  { split; [reflexivity|]. split; [reflexivity|]. eexists. reflexivity. }
  match goal with
  | |- context [existsb ?p ?l] => destruct (existsb p l) eqn:Huniq; simpl
  end.
  { split; [reflexivity|]. split; [reflexivity|]. eexists. reflexivity. }
  destruct (makedirs_error env) as [msg|] eqn:Hmk; simpl.
  { split; [reflexivity|]. split; [reflexivity|]. eexists. reflexivity. }
  rewrite replace_appended_row by reflexivity.
  set (p := Str.os_path_join _ _).
  destruct (write_fault env p content) as [fault|] eqn:Hwf; simpl.
  2:{ split; [reflexivity|]. split; [reflexivity|]. split; [reflexivity|].
      apply lookup_insert_eq. }
  destruct (partial fault) as [left_behind|]; simpl.
  - rewrite lookup_insert_eq. destruct (remove_error env p); simpl;
      rewrite ?lookup_insert_eq; simpl;
      (split; [reflexivity|]); (split; [reflexivity|]); eexists; reflexivity.
  - destruct (disk w !! p) eqn:Hp; simpl.
    + destruct (remove_error env p); simpl; rewrite ?Hp; simpl;
        (split; [reflexivity|]); (split; [reflexivity|]); eexists; reflexivity.
    + split; [reflexivity|]. split; [reflexivity|]. eexists; reflexivity.
Qed.

(** ** What a run of the check job adds *)

Lemma keeps_files_refl (d : gmap string bytes) : keeps_files d d.
Proof. intros p H. exact H. Qed.

Lemma keeps_files_trans (d1 d2 d3 : gmap string bytes) :
  keeps_files d1 d2 -> keeps_files d2 d3 -> keeps_files d1 d3.
Proof. intros H1 H2 p H. apply H2, H1, H. Qed.

Lemma keeps_files_insert (d : gmap string bytes) (p : string) (c : bytes) :
  keeps_files d (<[p := c]> d).
Proof.
  intros q H. destruct (decide (p = q)) as [->|Hne].
  - rewrite lookup_insert_eq. eauto.
  - rewrite lookup_insert_ne by exact Hne. exact H.
Qed.

Lemma has_blob_kept env (d d' : gmap string bytes) (a : Attachment) :
  keeps_files d d' -> has_blob env d a -> has_blob env d' a.
Proof. intros Hk H. apply Hk, H. Qed.

Lemma nodup_appended_key {A} (pk : A -> nat) (rows : list A) (r : A) :
  pk r = next_pk pk rows ->
  NoDup (map pk rows) -> NoDup (map pk (rows ++ [r])).
Proof.
  intros Hpk Hnd. rewrite map_app. simpl.
  apply NoDup_app. split; [exact Hnd|]. split; [|apply NoDup_singleton].
  intros k Hk Hk'. apply list_elem_of_singleton in Hk'. subst k.
  apply list_elem_of_In, in_map_iff in Hk as (r' & Heq & Hin).
  apply (next_pk_fresh pk) in Hin. lia.
Qed.

Lemma gained_refl env (w : World) : gained env 0 w w.
Proof.
  split; [exists []; rewrite app_nil_r; auto|].
  split; [exists []; rewrite app_nil_r; repeat split; constructor|].
  split; [apply keeps_files_refl|]. auto.
Qed.

Lemma gained_trans env (n1 n2 : nat) (w1 w2 w3 : World) :
  gained env n1 w1 w2 -> gained env n2 w2 w3 -> gained env (n1 + n2) w1 w3.
Proof.
  intros ((es1 & He1 & Hl1) & (as1 & Ha1 & Hn1 & Hb1) & Hk1 & Hu1 & Hv1)
         ((es2 & He2 & Hl2) & (as2 & Ha2 & Hn2 & Hb2) & Hk2 & Hu2 & Hv2).
  split; [exists (es1 ++ es2); rewrite He2, He1, app_assoc, length_app; auto|].
  split.
  { exists (as1 ++ as2). rewrite Ha2, Ha1, app_assoc.
    split; [reflexivity|]. split; [apply Forall_app; auto|].
    apply Forall_app. split; [|exact Hb2].
    eapply Forall_impl; [exact Hb1|]. intros a. apply has_blob_kept, Hk2. }
  split; [eapply keeps_files_trans; eauto|]. auto.
Qed.

Lemma save_attachment_return env email_obj fn mime content size w w' :
  _save_attachment_with_rollback env email_obj fn mime content size w
  = (Return tt, w') ->
  attachments (session w')
  = attachments (session w)
    ++ [mkAttachment (next_pk attachment_pk (attachments (session w)))
          (email_pk email_obj) fn
          (stored_filename (email_pk email_obj)
             (next_pk attachment_pk (attachments (session w))) fn)
          mime size (clock w)]
  /\ emails (session w') = emails (session w)
  /\ disk w'
     = <[Str.os_path_join (attachments_dir env)
           (stored_filename (email_pk email_obj)
              (next_pk attachment_pk (attachments (session w))) fn) := content]>
         (disk w).
Proof.
  unfold _save_attachment_with_rollback, AttachmentRepository.create,
    AttachmentRepository.set_filename_stored.
  mstep.
  destruct (existsb _ (attachments (session w))); simpl; [discriminate|].
  match goal with
  | |- context [existsb ?p ?l] => destruct (existsb p l); simpl; [discriminate|]
  end.
  destruct (makedirs_error env); simpl; [discriminate|].
  rewrite replace_appended_row by reflexivity.
  destruct (write_fault env _ content) as [fault|]; simpl.
  - destruct (partial fault); simpl.
    + rewrite lookup_insert_eq. destruct (remove_error env _); simpl;
        rewrite ?lookup_insert_eq; simpl; discriminate.
    + match goal with
      | |- context [disk w !! ?p] => destruct (disk w !! p) eqn:Hp; simpl
      end; [destruct (remove_error env _); simpl; rewrite ?Hp; simpl|];
        discriminate.
  - intros H. inversion H; subst; clear H. simpl. auto.
Qed.

Lemma save_attachments_return env email_obj attachs w w' :
  save_attachments env email_obj attachs w = (Return tt, w') ->
  emails (session w') = emails (session w)
  /\ (exists ats, attachments (session w') = attachments (session w) ++ ats
                  /\ Forall named_by_check_job ats
                  /\ Forall (has_blob env (disk w')) ats)
  /\ keeps_files (disk w) (disk w')
  /\ (NoDup (map attachment_pk (attachments (session w))) ->
      NoDup (map attachment_pk (attachments (session w')))).
Proof.
  revert w. induction attachs as [|attach rest IH]; simpl; intros w Hrun.
  - inversion Hrun; subst. split; [reflexivity|].
    split; [exists []; rewrite app_nil_r; repeat split; constructor|].
    split; [apply keeps_files_refl|auto].
  - unfold bind in Hrun.
    destruct (_save_attachment_with_rollback _ _ _ _ _ _ w) as [[[]|e] w1] eqn:H1;
      [|discriminate Hrun].
    apply save_attachment_return in H1 as (Ha1 & He1 & Hd1).
    apply IH in Hrun as (He & (ats & Ha & Hn & Hb) & Hk & Hu).
    split; [congruence|].
    assert (Hk1 : keeps_files (disk w) (disk w1))
      by (rewrite Hd1; apply keeps_files_insert).
    split.
    { eexists (_ :: ats). rewrite Ha, Ha1, <- app_assoc. simpl.
      split; [reflexivity|]. split; [constructor; [reflexivity|exact Hn]|].
      constructor; [|exact Hb].
      apply Hk. unfold has_blob. simpl. rewrite Hd1, lookup_insert_eq. eauto. }
    split; [eapply keeps_files_trans; eauto|].
    intros Hnd. apply Hu. rewrite Ha1. apply nodup_appended_key; [reflexivity|exact Hnd].
Qed.

Lemma check_job_turn_return env filters em w b w' :
  check_job_turn env filters em w = (Return b, w') ->
  gained env (if b then 1 else 0) w w'.
Proof.
  unfold check_job_turn.
  destruct (Str.truthy (raw_message_id em)); simpl.
  2:{ intros H; inversion H; subst. apply gained_refl. }
  unfold bind at 1. unfold EmailRepository.get_by_message_id, gets at 1.
  destruct (find _ _).
  { intros H; inversion H; subst. apply gained_refl. }
  destruct (apply_filters_to_email em filters); simpl.
  2:{ intros H; inversion H; subst. apply gained_refl. }
  unfold bind at 1.
  destruct (EmailRepository.create _ _ _ _ _ _ _ w) as [[email_obj|e] w1] eqn:H1;
    [|discriminate].
  apply email_create_spec in H1
    as [(e & He & _)|(email & He & _ & Hpk & _ & _ & Hem & Hat & _ & _ & _ & Hd & _)];
    [discriminate He|].
  inversion He; subst email; clear He.
  unfold bind at 1.
  destruct (save_attachments env email_obj (raw_attachments em) w1)
    as [[[]|e] w2] eqn:H2; [|discriminate].
  intros H. inversion H; subst; clear H.
  apply save_attachments_return in H2 as (He2 & (ats & Ha2 & Hn & Hb) & Hk & Hu).
  split; [exists [email_obj]; rewrite He2, Hem; auto|].
  split; [exists ats; rewrite Ha2, Hat; auto|].
  split; [rewrite <- Hd; exact Hk|].
  split.
  - intros Hnd. rewrite He2, Hem. apply nodup_appended_key; assumption.
  - rewrite <- Hat. exact Hu.
Qed.

Lemma check_job_loop_return env filters raw_emails n w n' oe w' :
  check_job_loop env filters raw_emails n w = ((n', oe), w') ->
  n <= n' /\ n' <= n + length raw_emails
  /\ (oe = None -> gained env (n' - n) w w').
Proof.
  revert n w. induction raw_emails as [|em rest IH]; simpl; intros n w Hrun.
  - inversion Hrun; subst. split; [lia|]. split; [lia|]. intros _.
    rewrite Nat.sub_diag. apply gained_refl.
  - destruct (check_job_turn env filters em w) as [[[|]|e] w1] eqn:H1.
    + apply check_job_turn_return in H1. apply IH in Hrun as (Hle & Hup & Hg).
      split; [lia|]. split; [lia|]. intros Hoe.
      replace (n' - n) with (1 + (n' - S n)) by lia.
      eapply gained_trans; eauto.
    + apply check_job_turn_return in H1. apply IH in Hrun as (Hle & Hup & Hg).
      split; [lia|]. split; [lia|]. intros Hoe.
      replace (n' - n) with (0 + (n' - n)) by lia.
      eapply gained_trans; eauto.
    + inversion Hrun; subst. split; [lia|]. split; [lia|]. discriminate.
Qed.

Lemma check_job_try_gain env w locals w' :
  check_job_try env w = (locals, w') ->
  l_messages_saved locals <= l_messages_fetched locals
  /\ (l_status_str locals = success ->
      gained env (l_messages_saved locals) w w').
Proof.
  unfold check_job_try, ensure_attachments_dir.
  destruct (makedirs_error env) as [msg|]; simpl.
  { intros H; inversion H; subst; clear H. simpl. split; [lia|discriminate]. }
  destruct (fetch_unseen_emails_raw env) as [exc|raw_emails].
  { intros H; inversion H; subst; clear H. simpl. split; [lia|discriminate]. }
  unfold EmailFilterRepository.get_all, gets.
  destruct (check_job_loop env _ raw_emails 0 w) as [[saved oe] w1] eqn:Hloop.
  apply check_job_loop_return in Hloop as (_ & Hup & Hg).
  destruct oe as [exc|]; simpl; intros H; inversion H; subst; clear H; simpl.
  - split; [lia|discriminate].
  - split; [lia|]. intros _. specialize (Hg eq_refl).
    rewrite Nat.sub_0_r in Hg. exact Hg.
Qed.

Lemma nodup_appended_fresh (rows es : list Email) :
  appended_fresh rows es ->
  NoDup (map message_id rows) -> NoDup (map message_id (rows ++ es)).
Proof.
  revert rows. induction es as [|e es IH]; simpl; intros rows Hfresh Hnd.
  - rewrite app_nil_r. exact Hnd.
  - destruct Hfresh as [He Hfresh].
    replace (rows ++ e :: es) with ((rows ++ [e]) ++ es)
      by (rewrite <- app_assoc; reflexivity).
    apply IH; [exact Hfresh|].
    rewrite map_app. simpl.
    apply NoDup_app. split; [exact Hnd|]. split; [|apply NoDup_singleton].
    intros k Hk Hk'. apply list_elem_of_singleton in Hk'. subst k.
    apply list_elem_of_In, in_map_iff in Hk as (r & Heq & Hin).
    unfold has_message_id in He.
    apply existsb_false_forall with (x := r) in He; [|exact Hin].
    apply String.eqb_neq in He. contradiction.
Qed.

(** What the run did, in the terms of [gained], when it ended in
    [success]; and its counters in any case. *)
Lemma run_gain env w jr w' :
  run_email_check_job env w = (Return jr, w') ->
  messages_saved jr <= messages_fetched jr
  /\ (status jr = success ->
      exists w3, gained env (messages_saved jr) (after_begin w) w3
                 /\ emails (committed w') = emails (session w3)
                 /\ attachments (committed w') = attachments (session w3)
                 /\ disk w' = disk w3).
Proof.
  intros Hrun.
  destruct (check_job_try env (after_begin w)) as [locals w3] eqn:Htry.
  pose proof (run_unfold env w locals w3 Htry) as Hrun'. cbv zeta in Hrun'.
  rewrite Hrun in Hrun'. inversion Hrun'; subst jr w'; clear Hrun'. simpl.
  apply check_job_try_gain in Htry as (Hle & Hg).
  split; [exact Hle|]. intros Hst. exists w3. auto.
Qed.

(** X6: the counters of a run of the check job. [messages_saved] never
    exceeds [messages_fetched], and when the run ends in [success] it is
    the number of messages the run added to the record store, which are
    appended after the ones that were there. *)
Theorem saved_counter_counts_the_messages_added
    (env : Env) (w : World) (jr : JobRun) (w' : World) :
  run_email_check_job env w = (Return jr, w') ->
  messages_saved jr <= messages_fetched jr
  /\ (status jr = success ->
      exists es, emails (committed w') = emails (session w) ++ es
                 /\ length es = messages_saved jr).
Proof.
  intros Hrun. apply run_gain in Hrun as (Hle & Hg).
  split; [exact Hle|]. intros Hst.
  destruct (Hg Hst) as (w3 & ((es & He & Hlen) & _) & Hem & _).
  exists es. rewrite Hem, He. auto.
Qed.

Lemma saved_counter_counts_the_messages_added_witness :
  exists jr w',
    run_email_check_job
      (Sample.healthy [Sample.plain; Sample.anonymous; Sample.plain; Sample.with_report])
      Sample.fresh = (Return jr, w')
    /\ messages_saved jr <= messages_fetched jr
    /\ length (emails (committed w')) = messages_saved jr.
Proof.
  evaluate_run
    (Sample.healthy [Sample.plain; Sample.anonymous; Sample.plain; Sample.with_report])
    Sample.fresh jr w' Hrun.
  exists jr, w'. split; [exact Hrun|].
  destruct (saved_counter_counts_the_messages_added _ _ _ _ Hrun) as (Hle & Hadd).
  split; [exact Hle|].
  destruct (Hadd eq_refl) as (es & He & Hlen). rewrite He. exact Hlen.
Defined.

(** X7: after a run of the check job that ended in [success], every
    attachment row the run added carries the stored name derived from its
    own keys and filename, and the file of that name exists in the
    attachment directory; the files that were there before the run are
    still there. *)
Theorem successful_run_leaves_a_blob_for_every_new_row
    (env : Env) (w : World) (jr : JobRun) (w' : World) :
  run_email_check_job env w = (Return jr, w') ->
  status jr = success ->
  keeps_files (disk w) (disk w')
  /\ exists ats, attachments (committed w') = attachments (session w) ++ ats
                 /\ Forall named_by_check_job ats
                 /\ Forall (has_blob env (disk w')) ats.
Proof.
  intros Hrun Hst. apply run_gain in Hrun as (_ & Hg).
  destruct (Hg Hst) as (w3 & (_ & (ats & Ha & Hn & Hb) & Hk & _) & _ & Hat & Hd).
  rewrite Hd. split; [exact Hk|]. exists ats. rewrite Hat, Ha. auto.
Qed.

Lemma successful_run_leaves_a_blob_for_every_new_row_witness :
  exists a,
    attachments (committed (snd (run_email_check_job
       (Sample.healthy [Sample.plain; Sample.with_report]) Sample.fresh))) = [a]
    /\ has_blob (Sample.healthy [Sample.plain; Sample.with_report])
         (disk (snd (run_email_check_job
            (Sample.healthy [Sample.plain; Sample.with_report]) Sample.fresh))) a.
Proof.
  evaluate_run (Sample.healthy [Sample.plain; Sample.with_report])
               Sample.fresh jr w' Hrun.
  rewrite Hrun. simpl snd.
  destruct (successful_run_leaves_a_blob_for_every_new_row _ _ _ _ Hrun eq_refl)
    as (_ & ats & Ha & _ & Hb).
  destruct ats as [|a [|a' ats]]; try (vm_compute in Ha; discriminate Ha).
  exists a. split; [exact Ha|]. inversion Hb; assumption.
Defined.

(** X8: a run of the check job, however it ends, keeps the keys of the
    record store unique: if no two messages share a primary key or a
    Message-ID and no two attachments share a primary key before the run,
    the same holds after it. *)
Theorem run_keeps_keys_unique
    (env : Env) (w : World) (jr : JobRun) (w' : World) :
  run_email_check_job env w = (Return jr, w') ->
  NoDup (map email_pk (emails (session w))) ->
  NoDup (map message_id (emails (session w))) ->
  NoDup (map attachment_pk (attachments (session w))) ->
  NoDup (map email_pk (emails (committed w')))
  /\ NoDup (map message_id (emails (committed w')))
  /\ NoDup (map attachment_pk (attachments (committed w'))).
Proof.
  intros Hrun Hk Hm Ha.
  destruct (run_spec env w)
    as (jr1 & w1 & evs & Hrun1 & _ & _ & _ & _ & _ & _ & _ & _ & Hcases).
  rewrite Hrun in Hrun1. inversion Hrun1; subst jr1 w1; clear Hrun1.
  destruct Hcases as [(Hst & _ & (es & He & Hfresh) & _)|(_ & He & Hat & _)].
  - apply run_gain in Hrun as (_ & Hg).
    destruct (Hg Hst) as (w3 & (_ & _ & _ & Hu & Hv) & Hem & Hatt & _).
    rewrite Hem, Hatt. split; [apply Hu; exact Hk|].
    split; [|apply Hv; exact Ha].
    rewrite <- Hem, He. apply nodup_appended_fresh; assumption.
  - rewrite He, Hat. auto.
Qed.

Lemma run_keeps_keys_unique_witness :
  NoDup (map message_id (emails (committed (snd (run_email_check_job
     (Sample.healthy [Sample.plain; Sample.plain; Sample.with_report])
     Sample.with_soft_deleted))))).
Proof.
  evaluate_run (Sample.healthy [Sample.plain; Sample.plain; Sample.with_report])
               Sample.with_soft_deleted jr w' Hrun.
  rewrite Hrun. simpl snd.
  refine (proj1 (proj2 (run_keeps_keys_unique _ _ _ _ Hrun _ _ _))).
  - vm_compute. apply NoDup_singleton.
  - vm_compute. apply NoDup_singleton.
  - vm_compute. apply NoDup_nil_2.
Defined.

(** X9: a run of the check job only appends. Whatever the transport
    delivers and however the run ends, the messages, attachments and run
    records that were in the record store are still there afterwards,
    unchanged and in front of what the run added, and the filter rules
    are the same. *)
Theorem run_only_appends (env : Env) (w : World) :
  exists jr w' es ats,
    run_email_check_job env w = (Return jr, w')
    /\ emails (committed w') = emails (session w) ++ es
    /\ attachments (committed w') = attachments (session w) ++ ats
    /\ job_runs (committed w') = job_runs (session w) ++ [jr]
    /\ email_filters (committed w') = email_filters (session w).
Proof.
  destruct (run_spec env w)
    as (jr & w' & evs & Hrun & _ & _ & _ & _ & Hj & Hf & _ & _ & Hcases).
  destruct Hcases as [(_ & _ & (es & He & _) & (ats & Ha) & _)|(_ & He & Ha & _)].
  - exists jr, w', es, ats. auto.
  - exists jr, w', [], []. rewrite !app_nil_r. auto.
Qed.

(** X10: when the transport raises instead of delivering messages, the
    run of the check job still returns: its record is finished as [error]
    with both counters at 0 and the text of the exception, and the record
    store and the attachment directory hold what they held before. *)
Theorem transport_failure_ends_the_run_in_error
    (env : Env) (w : World) (exc : Exn) :
  makedirs_error env = None ->
  fetch_unseen_emails_raw env = inl exc ->
  exists jr w',
    run_email_check_job env w = (Return jr, w')
    /\ status jr = error
    /\ messages_fetched jr = 0 /\ messages_saved jr = 0
    /\ error_message jr = Some (str_exn exc)
    /\ emails (committed w') = emails (session w)
    /\ attachments (committed w') = attachments (session w)
    /\ disk w' = disk w.
Proof.
  intros Hmk Hfetch.
  assert (Htry : check_job_try env (after_begin w)
                 = (mkLocals 0 0 (Some (str_exn exc)) error,
                    mkWorld (committed (after_begin w)) (committed (after_begin w))
                            (disk (after_begin w)) (clock (after_begin w))
                            (trace (after_begin w)))).
  { unfold check_job_try, ensure_attachments_dir. rewrite Hmk, Hfetch. reflexivity. }
  pose proof (run_unfold env w _ _ Htry) as Hrun. cbv zeta in Hrun.
  eexists _, _. split; [exact Hrun|]. simpl. repeat split; reflexivity.
Qed.

Lemma transport_failure_ends_the_run_in_error_witness :
  exists jr w',
    run_email_check_job
      (set_fetched (inl (TransportError "connection refused")) (Sample.healthy []))
      Sample.with_soft_deleted = (Return jr, w')
    /\ status jr = error
    /\ error_message jr = Some "connection refused"
    /\ emails (committed w') = emails (session Sample.with_soft_deleted).
Proof.
  destruct (transport_failure_ends_the_run_in_error
              (set_fetched (inl (TransportError "connection refused"))
                           (Sample.healthy []))
              Sample.with_soft_deleted (TransportError "connection refused")
              eq_refl eq_refl)
    as (jr & w' & Hrun & Hst & _ & _ & Herr & He & _).
  exists jr, w'. auto.
Defined.

Lemma turn_of_rejected_candidate env filters em w :
  apply_filters_to_email em filters = false ->
  check_job_turn env filters em w = (Return false, w).
Proof.
  intros Hrej. unfold check_job_turn.
  destruct (Str.truthy (raw_message_id em)); simpl; [|reflexivity].
  unfold bind, EmailRepository.get_by_message_id, gets.
  destruct (find _ _); [reflexivity|]. rewrite Hrej. reflexivity.
Qed.

(** X11: a fetched candidate that the enabled rules of the record store
    reject, at any position of the fetched list, is counted in
    [messages_fetched] and changes nothing else: the run stores, writes,
    counts as saved and reports what it would without that candidate. *)
Theorem rejected_candidate_counted_not_stored
    (env : Env) (w : World) (before : list RawEmail) (em : RawEmail)
    (after : list RawEmail) :
  apply_filters_to_email em (List.filter enabled (email_filters (session w))) = false ->
  makedirs_error env = None ->
  fetch_unseen_emails_raw env = inr (before ++ em :: after) ->
  exists jr w' jr_without w_without,
    run_email_check_job env w = (Return jr, w')
    /\ run_email_check_job (set_fetched (inr (before ++ after)) env) w
       = (Return jr_without, w_without)
    /\ messages_fetched jr = S (messages_fetched jr_without)
    /\ messages_saved jr = messages_saved jr_without
    /\ status jr = status jr_without
    /\ error_message jr = error_message jr_without
    /\ emails (committed w') = emails (committed w_without)
    /\ attachments (committed w') = attachments (committed w_without)
    /\ disk w' = disk w_without.
Proof.
  intros Hrej Hmk Hfetch.
  destruct (run_without_noop_candidate env w before em after Hmk Hfetch)
    as (jr & w' & jr2 & w2 & H1 & H2 & Hf & Hf2 & Hrest).
  { cbv zeta. apply (check_job_loop_skip env _ (fun _ => True)); auto.
    intros w0 _. apply turn_of_rejected_candidate. exact Hrej. }
  exists jr, w', jr2, w2. split; [exact H1|]. split; [exact H2|].
  split; [rewrite Hf, Hf2, !length_app; simpl; lia|].
  destruct Hrest as (? & ? & ? & ? & ? & ? & _). auto 10.
Qed.

Lemma rejected_candidate_counted_not_stored_witness :
  exists jr w',
    run_email_check_job (Sample.healthy [Sample.plain; Sample.with_report])
                        Sample.with_rule = (Return jr, w')
    /\ messages_fetched jr = 2 /\ messages_saved jr = 1
    /\ map message_id (emails (committed w')) = ["<m2@example.org>"].
Proof.
  destruct (rejected_candidate_counted_not_stored
              (Sample.healthy [Sample.plain; Sample.with_report]) Sample.with_rule
              [] Sample.plain [Sample.with_report] eq_refl eq_refl eq_refl)
    as (jr & w' & jr2 & w2 & Hrun & Hrun2 & Hf & Hs & _ & _ & He & _).
  exists jr, w'. split; [exact Hrun|].
  vm_compute in Hrun2. inversion Hrun2; subst jr2 w2; clear Hrun2.
  split; [rewrite Hf; reflexivity|]. split; [rewrite Hs; reflexivity|].
  rewrite He. reflexivity.
Defined.

(** ** The scheduled entry point *)

Lemma delete_appended_row (rows : list Attachment) (a : Attachment) :
  attachment_pk a = next_pk attachment_pk rows ->
  List.filter (fun r => negb (attachment_pk r =? next_pk attachment_pk rows)%nat)
              (rows ++ [a])
  = rows.
Proof.
  intros Hpk. rewrite List.filter_app. simpl. rewrite Hpk, Nat.eqb_refl. simpl.
  rewrite app_nil_r.
  assert (H : forall r, In r rows -> attachment_pk r < next_pk attachment_pk rows)
    by (intros; apply next_pk_fresh; assumption).
  clear Hpk. revert H. generalize (next_pk attachment_pk rows). intros k H.
  induction rows as [|r rows IH]; simpl; [reflexivity|].
  destruct (Nat.eqb_spec (attachment_pk r) k) as [E|_].
  - specialize (H r (or_introl eq_refl)). lia.
  - simpl. rewrite IH by (intros; apply H; right; assumption). reflexivity.
Qed.

(** X12: the scheduled entry point treats a failed blob write as the loss
    of that one attachment. When the write of a part raises, [store_part]
    returns normally; the attachment table is exactly what it was before
    the part (the pending row is deleted again), the messages are
    untouched, and whatever the write left at the derived path stays
    there, for the file is not removed. *)
Theorem scheduled_write_failure_drops_the_attachment_only
    (env : Env) (email_record : Email) (part : RawAttachment) (w : World)
    (fault : WriteFault) :
  att_filename part <> "" ->
  (forall a, In a (attachments (session w)) -> filename_stored a <> "PENDING") ->
  write_fault env
    (Str.os_path_join (attachments_dir env)
       (EmailFetchService.stored_name (email_pk email_record)
          (next_pk attachment_pk (attachments (session w))) (att_filename part)))
    (att_content part) = Some fault ->
  exists w',
    EmailFetchService.store_part env email_record part w = (Return tt, w')
    /\ attachments (session w') = attachments (session w)
    /\ emails (session w') = emails (session w)
    /\ committed w' = committed w
    /\ disk w' !! Str.os_path_join (attachments_dir env)
         (EmailFetchService.stored_name (email_pk email_record)
            (next_pk attachment_pk (attachments (session w))) (att_filename part))
       = match partial fault with
         | Some left_behind => Some left_behind
         | None => disk w !! Str.os_path_join (attachments_dir env)
                     (EmailFetchService.stored_name (email_pk email_record)
                        (next_pk attachment_pk (attachments (session w)))
                        (att_filename part))
         end.
Proof.
  intros Hfn Hpending Hwf.
  unfold EmailFetchService.store_part, AttachmentRepository.create,
    AttachmentRepository.set_filename_stored, AttachmentRepository.delete.
  destruct (att_filename part) as [|c fn] eqn:Efn; [contradiction|].
  mstep.
  assert (Hno : existsb (fun a => String.eqb (filename_stored a) "PENDING")
                        (attachments (session w)) = false).
  { destruct (existsb _ _) eqn:Hex; [|reflexivity].
    apply existsb_exists in Hex as (a & Ha & Heq).
    apply String.eqb_eq in Heq. destruct (Hpending a Ha Heq). }
  rewrite Hno. simpl. rewrite Hwf. simpl.
  destruct (partial fault) as [left_behind|]; simpl;
    rewrite delete_appended_row by reflexivity;
    eexists; repeat split; try reflexivity.
  simpl. apply lookup_insert_eq.
Qed.

Lemma scheduled_write_failure_drops_the_attachment_only_witness :
  exists w',
    EmailFetchService.store_part (Sample.failing_disk []) Sample.plain_row
      Sample.report Sample.fresh = (Return tt, w')
    /\ attachments (session w') = []
    /\ disk w' !! "/srv/attachments/ID00000001-00000001-report.pdf"
       = Some [Byte.x25].
Proof.
  destruct (scheduled_write_failure_drops_the_attachment_only
              (Sample.failing_disk []) Sample.plain_row Sample.report Sample.fresh
              Sample.disk_full)
    as (w' & Hrun & Ha & _ & _ & Hd).
  - discriminate.
  - intros a [].
  - reflexivity.
  - exists w'. split; [exact Hrun|]. split; [exact Ha|]. exact Hd.
Defined.

Lemma store_part_keeps env email_record part w o w' :
  EmailFetchService.store_part env email_record part w = (o, w') ->
  committed w' = committed w
  /\ emails (session w') = emails (session w)
  /\ email_filters (session w') = email_filters (session w)
  /\ job_runs (session w') = job_runs (session w)
  /\ clock w <= clock w'.
Proof.
  unfold EmailFetchService.store_part, AttachmentRepository.create,
    AttachmentRepository.set_filename_stored, AttachmentRepository.delete.
  destruct (negb (Str.truthy (Some (att_filename part)))).
  { intros H; inversion H; subst. auto 10. }
  mstep.
  destruct (existsb _ (attachments (session w))); simpl.
  { intros H; inversion H; subst. auto 10. }
  destruct (write_fault env _ _) as [fault|]; simpl.
  - destruct (partial fault); simpl; intros H; inversion H; subst; simpl;
      repeat split; lia.
  - match goal with
    | |- context [existsb ?p ?l] => destruct (existsb p l); simpl
    end; intros H; inversion H; subst; simpl; repeat split; lia.
Qed.

Lemma store_parts_keeps env email_record parts w o w' :
  EmailFetchService.store_parts env email_record parts w = (o, w') ->
  committed w' = committed w
  /\ emails (session w') = emails (session w)
  /\ email_filters (session w') = email_filters (session w)
  /\ job_runs (session w') = job_runs (session w)
  /\ clock w <= clock w'.
Proof.
  revert w. induction parts as [|part rest IH]; simpl; intros w Hrun.
  - inversion Hrun; subst. auto 10.
  - unfold bind in Hrun.
    destruct (EmailFetchService.store_part env email_record part w)
      as [[[]|e] w1] eqn:H1;
      apply store_part_keeps in H1 as (Hc & He & Hf & Hj & Hk).
    + apply IH in Hrun as (Hc' & He' & Hf' & Hj' & Hk').
      repeat split; try congruence. lia.
    + inversion Hrun; subst. auto 10.
Qed.

Lemma scheduled_progress_refl (w : World) : scheduled_progress w w.
Proof.
  split; [reflexivity|].
  split; [exists []; rewrite app_nil_r; split; [reflexivity|exact I]|].
  split; reflexivity.
Qed.

Lemma scheduled_progress_trans (w1 w2 w3 : World) :
  scheduled_progress w1 w2 -> scheduled_progress w2 w3 -> scheduled_progress w1 w3.
Proof.
  intros (Hc1 & (es1 & He1 & F1) & Hf1 & Hj1) (Hc2 & (es2 & He2 & F2) & Hf2 & Hj2).
  split; [congruence|]. split; [|split; congruence].
  exists (es1 ++ es2). split; [rewrite He2, He1, app_assoc; reflexivity|].
  apply appended_fresh_app; [exact F1|]. rewrite <- He1. exact F2.
Qed.

(** A turn of the scheduled loop: the committed store is never touched,
    and a turn that returns has only appended to the messages. *)
Lemma fetch_turn_progress env fetched w o w' :
  EmailFetchService.fetch_turn env fetched w = (o, w') ->
  committed w' = committed w
  /\ clock w <= clock w'
  /\ (exn_of o = None -> scheduled_progress w w').
Proof.
  unfold EmailFetchService.fetch_turn.
  destruct fetched as [msg|].
  2:{ intros H; inversion H; subst. split; [reflexivity|]. split; [lia|].
      intros _. apply scheduled_progress_refl. }
  destruct (negb (Str.truthy (raw_message_id msg))).
  { intros H; inversion H; subst. split; [reflexivity|]. split; [lia|].
    intros _. apply scheduled_progress_refl. }
  unfold bind at 1. unfold EmailRepository.get_by_message_id, gets at 1.
  destruct (find _ _).
  { intros H; inversion H; subst. split; [reflexivity|]. split; [lia|].
    intros _. apply scheduled_progress_refl. }
  unfold bind at 1. unfold utcnow at 1. unfold bind at 1.
  destruct (EmailRepository.create _ _ _ _ _ _ _ (tick w)) as [[email_record|e] w1] eqn:H1.
  2:{ apply email_create_spec in H1 as [(e' & _ & ->)|(email & He & _)];
        [|discriminate He].
      intros H; inversion H; subst. split; [reflexivity|].
      split; [simpl; lia|discriminate]. }
  apply email_create_spec in H1
    as [(e' & He & _)
       |(email & He & Hmid & _ & _ & Hnew & Hem & Hat & Hf & Hj & Hc & _ & _ & Hk)];
    [discriminate He|].
  inversion He; subst email; clear He. simpl in Hk.
  unfold bind at 1.
  destruct (EmailFetchService.store_parts env email_record _ w1) as [[[]|e] w2] eqn:H2;
    apply store_parts_keeps in H2 as (Hc2 & He2 & Hf2 & Hj2 & Hk2);
    intros H; inversion H; subst; clear H.
  - split; [rewrite Hc2, Hc; reflexivity|]. split; [lia|]. intros _.
    split; [rewrite Hc2, Hc; reflexivity|].
    split; [|split; [rewrite Hf2, Hf|rewrite Hj2, Hj]; reflexivity].
    exists [email_record]. split; [rewrite He2, Hem; reflexivity|].
    simpl. rewrite Hmid. simpl in Hnew. auto.
  - split; [rewrite Hc2, Hc; reflexivity|]. split; [lia|discriminate].
Qed.

Lemma fetch_loop_progress env message_nums n w n' oe w' :
  EmailFetchService.fetch_loop env message_nums n w = ((n', oe), w') ->
  committed w' = committed w
  /\ clock w <= clock w'
  /\ n' <= n + length message_nums
  /\ (oe = None -> scheduled_progress w w').
Proof.
  revert n w. induction message_nums as [|num rest IH]; simpl; intros n w Hrun.
  - inversion Hrun; subst. split; [reflexivity|]. split; [lia|]. split; [lia|].
    intros _. apply scheduled_progress_refl.
  - destruct (EmailFetchService.fetch_turn env num w) as [[[|]|e] w1] eqn:H1;
      apply fetch_turn_progress in H1 as (Hc1 & Hk1 & Hp1); simpl in Hp1.
    + apply IH in Hrun as (Hc & Hk & Hle & Hp). split; [congruence|].
      split; [lia|]. split; [lia|].
      intros Hoe. eapply scheduled_progress_trans; eauto.
    + apply IH in Hrun as (Hc & Hk & Hle & Hp). split; [congruence|].
      split; [lia|]. split; [lia|].
      intros Hoe. eapply scheduled_progress_trans; eauto.
    + inversion Hrun; subst. split; [exact Hc1|]. split; [lia|].
      split; [lia|discriminate].
Qed.

Lemma save_new_row (rows : list JobRun) (jr : JobRun) :
  job_pk jr = next_pk job_pk rows ->
  JobRunRepository.save jr rows = rows ++ [jr].
Proof.
  intros Hpk. unfold JobRunRepository.save.
  replace (existsb _ rows) with false; [reflexivity|].
  symmetry. destruct (existsb _ rows) eqn:Hex; [|reflexivity].
  apply existsb_exists in Hex as (r & Hr & Heq).
  apply Nat.eqb_eq in Heq. apply (next_pk_fresh job_pk) in Hr. lia.
Qed.

Lemma fetch_and_store_spec (env : Env) (w : World) :
  session w = committed w ->
  open_imap_error env = None ->
  exists w' jr,
    EmailFetchService.fetch_and_store_emails env w = (Return tt, w')
    /\ session w' = committed w'
    /\ job_runs (committed w') = job_runs (session w) ++ [jr]
    /\ job_pk jr = next_pk job_pk (job_runs (session w))
    /\ started_at jr = clock w
    /\ (exists t, finished_at jr = Some t /\ clock w < t)
    /\ messages_saved jr <= messages_fetched jr
    /\ email_filters (committed w') = email_filters (session w)
    /\ ((status jr = success /\ error_message jr = None
         /\ exists es, emails (committed w') = emails (session w) ++ es)
        \/ (status jr = error /\ emails (committed w') = emails (session w))).
Proof.
  intros Hfresh Hopen.
  set (pk := next_pk job_pk (job_runs (session w))).
  set (jr0 := mkJobRun pk (clock w) None 0 0 running None).
  set (s1 := set_job_runs (job_runs (session w) ++ [jr0]) (session w)).
  set (w0 := mkWorld (committed w) s1 (disk w) (S (clock w))
                     (trace w ++ [JobRunCreated pk])).
  assert (Hrun : EmailFetchService.fetch_and_store_emails env w
                 = EmailFetchService.fetch_try env jr0 w0).
  { unfold EmailFetchService.fetch_and_store_emails, JobRunRepository.create.
    rewrite Hopen. reflexivity. }
  rewrite Hrun. unfold EmailFetchService.fetch_try, JobRunRepository.finish.
  destruct (imap_select_ok env); simpl.
  2:{ mstep. eexists _, _. split; [reflexivity|]. simpl.
      rewrite save_appended by reflexivity. simpl.
      split; [reflexivity|]. split; [reflexivity|]. split; [reflexivity|].
      split; [reflexivity|]. split; [eexists; split; [reflexivity|simpl; lia]|].
      split; [simpl; lia|]. split; [reflexivity|]. right. auto. }
  destruct (imap_search env) as [data|message_nums].
  { mstep. eexists _, _. split; [reflexivity|]. simpl.
    rewrite save_appended by reflexivity. simpl.
    split; [reflexivity|]. split; [reflexivity|]. split; [reflexivity|].
    split; [reflexivity|]. split; [eexists; split; [reflexivity|simpl; lia]|].
    split; [simpl; lia|]. split; [reflexivity|]. right. auto. }
  destruct (EmailFetchService.fetch_loop env message_nums 0 w0)
    as [[saved oe] w1] eqn:Hloop.
  apply fetch_loop_progress in Hloop as (Hc & Hk & Hle & Hp).
  simpl in Hc, Hk, Hle.
  destruct oe as [e|]; mstep.
  - eexists _, _. split; [reflexivity|]. simpl.
    rewrite Hc, <- Hfresh. rewrite save_new_row by reflexivity. simpl.
    split; [reflexivity|]. split; [reflexivity|]. split; [reflexivity|].
    split; [reflexivity|]. split; [eexists; split; [reflexivity|simpl; lia]|].
    split; [simpl; lia|]. split; [reflexivity|]. right. auto.
  - destruct (Hp eq_refl) as (_ & (es & He & _) & Hf & Hj). simpl in He, Hf, Hj.
    eexists _, _. split; [reflexivity|]. simpl.
    rewrite Hj, save_appended by reflexivity. simpl.
    split; [reflexivity|]. split; [reflexivity|]. split; [reflexivity|].
    split; [reflexivity|]. split; [eexists; split; [reflexivity|simpl; lia]|].
    split; [simpl; lia|]. split; [exact Hf|]. left. eauto.
Qed.

(** X13: the run record of the scheduled entry point. Called on a fresh
    session with a connection that opens (and whose [logout] in the
    [finally] block does not raise), [fetch_and_store_emails] always
    returns, with everything committed, and has added exactly one run
    record after the earlier ones: started at the time of the call,
    finished later, in status [success] or [error], with [messages_saved]
    no larger than [messages_fetched]. The filter rules are untouched, and
    in status [error] so are the messages. *)
Theorem scheduled_run_is_recorded_once (env : Env) (w : World) :
  session w = committed w ->
  open_imap_error env = None ->
  exists w' jr,
    EmailFetchService.fetch_and_store_emails env w = (Return tt, w')
    /\ session w' = committed w'
    /\ job_runs (committed w') = job_runs (session w) ++ [jr]
    /\ job_pk jr = next_pk job_pk (job_runs (session w))
    /\ started_at jr = clock w
    /\ (exists t, finished_at jr = Some t /\ clock w < t)
    /\ messages_saved jr <= messages_fetched jr
    /\ email_filters (committed w') = email_filters (session w)
    /\ ((status jr = success /\ error_message jr = None
         /\ exists es, emails (committed w') = emails (session w) ++ es)
        \/ (status jr = error /\ emails (committed w') = emails (session w))).
Proof. exact (fetch_and_store_spec env w). Qed.

Lemma scheduled_run_is_recorded_once_witness :
  exists w' jr,
    EmailFetchService.fetch_and_store_emails
      (Sample.failing_disk [Sample.plain; Sample.with_report]) Sample.fresh
    = (Return tt, w')
    /\ job_runs (committed w') = [jr]
    /\ messages_saved jr <= messages_fetched jr.
Proof.
  destruct (scheduled_run_is_recorded_once
              (Sample.failing_disk [Sample.plain; Sample.with_report]) Sample.fresh
              eq_refl eq_refl)
    as (w' & jr & Hrun & _ & Hj & _ & _ & _ & Hle & _).
  exists w', jr. auto.
Defined.

(** X14: when the IMAP connection cannot be opened, the scheduled entry
    point lets the exception through and commits nothing: the run record
    it has just created exists in the open session only, so the failed
    attempt leaves no run record behind. *)
Theorem unopened_connection_leaves_no_run_record
    (env : Env) (w : World) (exc : Exn) :
  open_imap_error env = Some exc ->
  exists w',
    EmailFetchService.fetch_and_store_emails env w = (Raise exc, w')
    /\ committed w' = committed w
    /\ length (job_runs (session w')) = S (length (job_runs (session w)))
    /\ disk w' = disk w.
Proof.
  intros Hopen.
  unfold EmailFetchService.fetch_and_store_emails, JobRunRepository.create.
  rewrite Hopen. mstep. eexists. split; [reflexivity|]. simpl.
  rewrite length_app. simpl. repeat split; lia.
Qed.

Lemma unopened_connection_leaves_no_run_record_witness :
  exists w',
    EmailFetchService.fetch_and_store_emails
      (mkEnv "/srv/attachments" (inr []) None (fun _ _ => None) (fun _ => None)
             (Some (TransportError "Erro ao obter access token do Google"))
             true (inr []))
      Sample.fresh
    = (Raise (TransportError "Erro ao obter access token do Google"), w')
    /\ job_runs (committed w') = [].
Proof.
  destruct (unopened_connection_leaves_no_run_record
              (mkEnv "/srv/attachments" (inr []) None (fun _ _ => None)
                     (fun _ => None)
                     (Some (TransportError "Erro ao obter access token do Google"))
                     true (inr []))
              Sample.fresh _ eq_refl) as (w' & Hrun & Hc & _).
  exists w'. split; [exact Hrun|]. rewrite Hc. reflexivity.
Defined.

(** X15: when the mailbox cannot be selected or the search is refused, the
    scheduled entry point processes nothing: it returns with a run record
    finished as [error], both counters at 0 and the reason as the error
    text, and the messages, attachments and files are what they were
    (the [logout] of the [finally] block is taken not to raise). *)
Theorem refused_mailbox_is_recorded_as_error (env : Env) (w : World) :
  open_imap_error env = None ->
  imap_select_ok env = false \/ (exists data, imap_search env = inl data) ->
  exists w' jr,
    EmailFetchService.fetch_and_store_emails env w = (Return tt, w')
    /\ job_runs (committed w') = job_runs (session w) ++ [jr]
    /\ status jr = error
    /\ messages_fetched jr = 0 /\ messages_saved jr = 0
    /\ error_message jr
       = Some (if imap_select_ok env
               then match imap_search env with
                    | inl data => "Erro ao buscar mensagens: " +:+ data
                    | inr _ => ""
                    end
               else "Não foi possível selecionar INBOX")
    /\ emails (committed w') = emails (session w)
    /\ attachments (committed w') = attachments (session w)
    /\ disk w' = disk w.
Proof.
  intros Hopen Hrefused.
  unfold EmailFetchService.fetch_and_store_emails, JobRunRepository.create,
    EmailFetchService.fetch_try, JobRunRepository.finish.
  rewrite Hopen.
  destruct (imap_select_ok env); simpl.
  - destruct Hrefused as [H|[data Hdata]]; [discriminate H|]. rewrite Hdata.
    mstep. eexists _, _. split; [reflexivity|]. simpl.
    rewrite save_appended by reflexivity. repeat split; reflexivity.
  - mstep. eexists _, _. split; [reflexivity|]. simpl.
    rewrite save_appended by reflexivity. repeat split; reflexivity.
Qed.

Lemma refused_mailbox_is_recorded_as_error_witness :
  exists w' jr,
    EmailFetchService.fetch_and_store_emails
      (set_search (inl "[b'SEARCH not allowed now']") (Sample.healthy []))
      Sample.with_soft_deleted = (Return tt, w')
    /\ job_runs (committed w') = [jr]
    /\ status jr = error
    /\ error_message jr
       = Some "Erro ao buscar mensagens: [b'SEARCH not allowed now']".
Proof.
  destruct (refused_mailbox_is_recorded_as_error
              (set_search (inl "[b'SEARCH not allowed now']") (Sample.healthy []))
              Sample.with_soft_deleted eq_refl)
    as (w' & jr & Hrun & Hj & Hst & _ & _ & Herr & _).
  - right. eexists. reflexivity.
  - exists w', jr. auto.
Defined.

Lemma ret_ignores_rules rules {A} (x : A) : ignores_rules rules (ret x).
Proof. intros w. reflexivity. Qed.

Lemma bind_ignores_rules rules {A B} (c : M A) (k : A -> M B) :
  ignores_rules rules c ->
  (forall x, ignores_rules rules (k x)) ->
  ignores_rules rules (bind c k).
Proof.
  intros Hc Hk w. unfold bind. rewrite Hc.
  destruct (c w) as [[x|e] w1]; [apply Hk|reflexivity].
Qed.

Lemma email_create_ignores_rules rules mid s r c sj b ra :
  ignores_rules rules (EmailRepository.create mid s r c sj b ra).
Proof.
  intros w. unfold EmailRepository.create.
  destruct s as [from|]; [|reflexivity]. mstep.
  match goal with
  | |- context [existsb ?p ?l] => destruct (existsb p l); reflexivity
  end.
Qed.

Lemma store_part_ignores_rules rules env email_record part :
  ignores_rules rules (EmailFetchService.store_part env email_record part).
Proof.
  intros w.
  unfold EmailFetchService.store_part, AttachmentRepository.create,
    AttachmentRepository.set_filename_stored, AttachmentRepository.delete.
  destruct (negb (Str.truthy (Some (att_filename part)))); [reflexivity|].
  mstep.
  destruct (existsb _ (attachments (session w))); simpl; [reflexivity|].
  destruct (write_fault env _ _) as [fault|]; simpl.
  - destruct (partial fault); reflexivity.
  - match goal with
    | |- context [existsb ?p ?l] => destruct (existsb p l); reflexivity
    end.
Qed.

Lemma store_parts_ignores_rules rules env email_record parts :
  ignores_rules rules (EmailFetchService.store_parts env email_record parts).
Proof.
  induction parts as [|part rest IH]; [apply ret_ignores_rules|].
  simpl. apply bind_ignores_rules; [apply store_part_ignores_rules|].
  intros []. exact IH.
Qed.

Lemma fetch_turn_ignores_rules rules env fetched :
  ignores_rules rules (EmailFetchService.fetch_turn env fetched).
Proof.
  unfold EmailFetchService.fetch_turn.
  destruct fetched as [msg|]; [|apply ret_ignores_rules].
  destruct (negb (Str.truthy (raw_message_id msg))); [apply ret_ignores_rules|].
  apply bind_ignores_rules; [intros w; reflexivity|].
  intros [existing|]; [apply ret_ignores_rules|].
  apply bind_ignores_rules; [intros w; reflexivity|]. intros now.
  apply bind_ignores_rules; [apply email_create_ignores_rules|]. intros email_record.
  apply bind_ignores_rules; [apply store_parts_ignores_rules|]. intros [].
  apply ret_ignores_rules.
Qed.

Lemma fetch_loop_ignores_rules rules env message_nums n w :
  EmailFetchService.fetch_loop env message_nums n (with_rules rules w)
  = let '(r, w') := EmailFetchService.fetch_loop env message_nums n w in
    (r, with_rules rules w').
Proof.
  revert n w. induction message_nums as [|num rest IH]; intros n w; [reflexivity|].
  simpl. rewrite fetch_turn_ignores_rules.
  destruct (EmailFetchService.fetch_turn env num w) as [[[|]|e] w1];
    [apply IH|apply IH|reflexivity].
Qed.

Lemma finish_commit_ignores_rules rules job_run fetched saved st msg :
  ignores_rules rules (JobRunRepository.finish job_run fetched saved st msg ;; db_commit).
Proof. intros w. reflexivity. Qed.

Lemma rollback_finish_commit_ignores_rules rules job_run fetched saved st msg :
  ignores_rules rules
    (db_rollback ;; JobRunRepository.finish job_run fetched saved st msg ;; db_commit).
Proof. intros w. reflexivity. Qed.

(** X16: the scheduled entry point never consults the filter rules: run
    over a record store holding any other rules, it takes the same steps,
    stores the same messages, attachments, files and run record, and leaves
    those rules untouched.  (The on-demand entry point by contrast stores
    only what the rules accept.) *)
Theorem scheduled_run_never_consults_the_rules
    (rules : list EmailFilter) (env : Env) (w : World) :
  EmailFetchService.fetch_and_store_emails env (with_rules rules w)
  = let '(o, w') := EmailFetchService.fetch_and_store_emails env w in
    (o, with_rules rules w').
Proof.
  revert w. change (ignores_rules rules (EmailFetchService.fetch_and_store_emails env)).
  unfold EmailFetchService.fetch_and_store_emails.
  apply bind_ignores_rules; [intros w; reflexivity|]. intros job_run.
  destruct (open_imap_error env) as [e|]; [intros w; reflexivity|].
  unfold EmailFetchService.fetch_try.
  destruct (negb (imap_select_ok env)); [apply finish_commit_ignores_rules|].
  destruct (imap_search env) as [data|message_nums];
    [apply finish_commit_ignores_rules|].
  intros w. cbv beta zeta. rewrite fetch_loop_ignores_rules.
  destruct (EmailFetchService.fetch_loop env message_nums 0 w) as [[n [e|]] w1].
  - apply rollback_finish_commit_ignores_rules.
  - apply finish_commit_ignores_rules.
Qed.

(** ** Message numbers the scheduled loop passes over *)

Lemma store_parts_search r env email_record parts w :
  EmailFetchService.store_parts (set_search r env) email_record parts w
  = EmailFetchService.store_parts env email_record parts w.
Proof.
  revert w. induction parts as [|part rest IH]; intros w; [reflexivity|].
  simpl. unfold bind.
  change (EmailFetchService.store_part (set_search r env))
    with (EmailFetchService.store_part env).
  destruct (EmailFetchService.store_part env _ _ w) as [[[]|e] w1];
    [apply IH|reflexivity].
Qed.

Lemma fetch_turn_search r env fetched w :
  EmailFetchService.fetch_turn (set_search r env) fetched w
  = EmailFetchService.fetch_turn env fetched w.
Proof.
  unfold EmailFetchService.fetch_turn.
  destruct fetched as [msg|]; [|reflexivity].
  destruct (negb (Str.truthy (raw_message_id msg))); [reflexivity|].
  unfold bind.
  destruct (EmailRepository.get_by_message_id _ w) as [[[e|]|exc] w1]; try reflexivity.
  destruct (utcnow w1) as [[now|exc] w2]; [|reflexivity].
  destruct (EmailRepository.create _ _ _ _ _ _ _ w2) as [[email_record|exc] w3];
    [|reflexivity].
  rewrite store_parts_search. reflexivity.
Qed.

Lemma fetch_loop_search r env message_nums n w :
  EmailFetchService.fetch_loop (set_search r env) message_nums n w
  = EmailFetchService.fetch_loop env message_nums n w.
Proof.
  revert n w. induction message_nums as [|num rest IH]; intros n w; [reflexivity|].
  simpl. rewrite fetch_turn_search.
  destruct (EmailFetchService.fetch_turn env num w) as [[[|]|exc] w1];
    [apply IH|apply IH|reflexivity].
Qed.

Lemma turn_of_passed_over env num w :
  passed_over w num ->
  EmailFetchService.fetch_turn env num w = (Return false, w).
Proof.
  unfold passed_over, EmailFetchService.fetch_turn.
  destruct num as [msg|]; [|reflexivity].
  intros [Hid|Hhas]; [rewrite Hid; reflexivity|].
  destruct (negb (Str.truthy (raw_message_id msg))); [reflexivity|].
  unfold bind, EmailRepository.get_by_message_id, gets.
  apply has_message_id_find in Hhas as [e ->]. reflexivity.
Qed.

Lemma passed_over_kept env num num' w b w' :
  passed_over w num ->
  EmailFetchService.fetch_turn env num' w = (Return b, w') ->
  passed_over w' num.
Proof.
  intros HP Hturn. apply fetch_turn_progress in Hturn as (_ & _ & Hp).
  destruct (Hp eq_refl) as (_ & (es & He & _) & _).
  unfold passed_over in *. destruct num as [msg|]; [|exact I].
  destruct HP as [Hid|Hhas]; [left; exact Hid|right].
  rewrite He. apply has_message_id_app. exact Hhas.
Qed.

Lemma fetch_loop_skip env num before after n w :
  passed_over w num ->
  EmailFetchService.fetch_loop env (before ++ num :: after) n w
  = EmailFetchService.fetch_loop env (before ++ after) n w.
Proof.
  revert n w. induction before as [|num' before IH]; intros n w HP; simpl.
  - rewrite (turn_of_passed_over env num w HP). reflexivity.
  - destruct (EmailFetchService.fetch_turn env num' w) as [[[|]|exc] w1] eqn:Hturn;
      [apply IH; eapply passed_over_kept; eauto
      |apply IH; eapply passed_over_kept; eauto
      |reflexivity].
Qed.

(** X17: a message number of the search result whose fetch does not answer
    "OK", whose message has no Message-ID, or whose Message-ID is already
    stored, wherever it stands in the result, is counted in
    [messages_fetched] and changes nothing else: the scheduled run stores,
    writes, counts as saved and reports what it would without it. *)
Theorem scheduled_run_passes_over
    (env : Env) (w : World) (before : list (option RawEmail))
    (num : option RawEmail) (after : list (option RawEmail)) :
  session w = committed w ->
  open_imap_error env = None ->
  imap_select_ok env = true ->
  imap_search env = inr (before ++ num :: after) ->
  passed_over w num ->
  exists w' jr w_without jr_without,
    EmailFetchService.fetch_and_store_emails env w = (Return tt, w')
    /\ EmailFetchService.fetch_and_store_emails
         (set_search (inr (before ++ after)) env) w = (Return tt, w_without)
    /\ job_runs (committed w') = job_runs (session w) ++ [jr]
    /\ job_runs (committed w_without) = job_runs (session w) ++ [jr_without]
    /\ messages_fetched jr = S (messages_fetched jr_without)
    /\ messages_saved jr = messages_saved jr_without
    /\ status jr = status jr_without
    /\ error_message jr = error_message jr_without
    /\ emails (committed w') = emails (committed w_without)
    /\ attachments (committed w') = attachments (committed w_without)
    /\ disk w' = disk w_without.
Proof.
  intros Hfresh Hopen Hsel Hsearch HP.
  set (pk := next_pk job_pk (job_runs (session w))).
  set (jr0 := mkJobRun pk (clock w) None 0 0 running None).
  set (s1 := set_job_runs (job_runs (session w) ++ [jr0]) (session w)).
  set (w0 := mkWorld (committed w) s1 (disk w) (S (clock w))
                     (trace w ++ [JobRunCreated pk])).
  assert (HP0 : passed_over w0 num) by (destruct num; exact HP).
  assert (Hlen : length (before ++ num :: after) = S (length (before ++ after)))
    by (rewrite !length_app; simpl; lia).
  set (env' := set_search (inr (before ++ after)) env).
  assert (Hrun : forall env0 message_nums,
             open_imap_error env0 = None -> imap_select_ok env0 = true ->
             imap_search env0 = inr message_nums ->
             EmailFetchService.fetch_and_store_emails env0 w
             = match EmailFetchService.fetch_loop env0 message_nums 0 w0 with
               | ((messages_saved, None), w1) =>
                   (JobRunRepository.finish jr0 (length message_nums) messages_saved
                      success None ;; db_commit) w1
               | ((messages_saved, Some e), w1) =>
                   (db_rollback ;;
                    JobRunRepository.finish jr0 (length message_nums) messages_saved
                      error (Some (str_exn e)) ;; db_commit) w1
               end).
  { intros env0 message_nums H1 H2 H3.
    unfold EmailFetchService.fetch_and_store_emails, JobRunRepository.create,
      EmailFetchService.fetch_try.
    rewrite H1, H2, H3. reflexivity. }
  rewrite (Hrun env _ Hopen Hsel Hsearch).
  rewrite (Hrun env' (before ++ after) Hopen Hsel eq_refl).
  unfold env'. rewrite fetch_loop_search.
  rewrite (fetch_loop_skip env num before after 0 w0 HP0).
  destruct (EmailFetchService.fetch_loop env (before ++ after) 0 w0)
    as [[saved oe] w1] eqn:Hloop.
  apply fetch_loop_progress in Hloop as (Hc & _ & _ & Hp). simpl in Hc.
  rewrite Hlen. unfold JobRunRepository.finish.
  destruct oe as [e|]; mstep.
  - eexists _, _, _, _. split; [reflexivity|]. split; [reflexivity|]. simpl.
    rewrite Hc, <- Hfresh. rewrite !save_new_row by reflexivity. simpl.
    repeat split; reflexivity.
  - destruct (Hp eq_refl) as (_ & _ & _ & Hj). simpl in Hj.
    eexists _, _, _, _. split; [reflexivity|]. split; [reflexivity|]. simpl.
    rewrite Hj, !save_appended by reflexivity. simpl.
    repeat split; reflexivity.
Qed.

Lemma scheduled_run_passes_over_witness :
  passed_over Sample.with_soft_deleted (Some Sample.plain)
  /\ exists w' jr w_without jr_without,
       EmailFetchService.fetch_and_store_emails
         (Sample.healthy [Sample.plain; Sample.with_report])
         Sample.with_soft_deleted = (Return tt, w')
       /\ EmailFetchService.fetch_and_store_emails
            (set_search (inr [Some Sample.with_report])
                        (Sample.healthy [Sample.plain; Sample.with_report]))
            Sample.with_soft_deleted = (Return tt, w_without)
       /\ job_runs (committed w') = [jr]
       /\ job_runs (committed w_without) = [jr_without]
       /\ messages_fetched jr = S (messages_fetched jr_without)
       /\ messages_saved jr = messages_saved jr_without
       /\ emails (committed w') = emails (committed w_without).
Proof.
  assert (HP : passed_over Sample.with_soft_deleted (Some Sample.plain))
    by (right; reflexivity).
  split; [exact HP|].
  destruct (scheduled_run_passes_over
              (Sample.healthy [Sample.plain; Sample.with_report])
              Sample.with_soft_deleted [] (Some Sample.plain)
              [Some Sample.with_report] eq_refl eq_refl eq_refl eq_refl HP)
    as (w' & jr & w2 & jr2 & H1 & H2 & H3 & H4 & H5 & H6 & _ & _ & H7 & _).
  exists w', jr, w2, jr2. auto 10.
Defined.

(** ** The endpoints on messages and attachments *)

Lemma find_by_key {A} (key : A -> nat) (l : list A) (x : A) :
  NoDup (map key l) -> In x l ->
  find (fun y => (key y =? key x)%nat) l = Some x.
Proof.
  induction l as [|y l IH]; simpl; intros Hnd Hin; [destruct Hin|].
  apply NoDup_cons in Hnd as [Hy Hnd].
  destruct Hin as [->|Hin]; [rewrite Nat.eqb_refl; reflexivity|].
  destruct (Nat.eqb_spec (key y) (key x)) as [E|_]; [|apply IH; assumption].
  exfalso. apply Hy. rewrite E. apply list_elem_of_In, in_map. exact Hin.
Qed.

Lemma find_no_key {A} (key : A -> nat) (l : list A) (k : nat) :
  (forall y, In y l -> key y <> k) ->
  find (fun y => (key y =? k)%nat) l = None.
Proof.
  induction l as [|y l IH]; simpl; intros Hno; [reflexivity|].
  destruct (Nat.eqb_spec (key y) k) as [E|_]; [destruct (Hno y (or_introl eq_refl) E)|].
  apply IH. intros z Hz. apply Hno. right. exact Hz.
Qed.

Lemma found_by_key {A} (key : A -> nat) (l : list A) (k : nat) (x : A) :
  find (fun y => (key y =? k)%nat) l = Some x -> In x l /\ key x = k.
Proof.
  intros H. apply find_some in H as [Hin Hk]. apply Nat.eqb_eq in Hk. auto.
Qed.

Lemma other_row_other_key {A} (key : A -> nat) (l : list A) (x y : A) :
  NoDup (map key l) -> In x l -> In y l -> key y = key x -> y = x.
Proof.
  intros Hnd Hx Hy Hk.
  pose proof (find_by_key key l x Hnd Hx) as Fx.
  pose proof (find_by_key key l y Hnd Hy) as Fy.
  rewrite Hk in Fy. congruence.
Qed.

(** X18: a hard delete of a stored message removes its row and, by the
    cascade, its attachment rows, and commits; it never touches the
    attachment directory. Afterwards the message is not found, every one
    of its attachments answers 404 on download, and the files they named
    are all still on disk. *)
Theorem hard_delete_leaves_the_files
    (env : Env) (w : World) (email_no : nat) (email : Email) :
  find (fun e => (email_pk e =? email_no)%nat) (emails (session w)) = Some email ->
  NoDup (map email_pk (emails (session w))) ->
  NoDup (map attachment_pk (attachments (session w))) ->
  exists w',
    delete_email email_no true w = (Return tt, w')
    /\ committed w' = session w'
    /\ disk w' = disk w
    /\ (forall e, In e (emails (session w')) <-> In e (emails (session w)) /\ e <> email)
    /\ (forall a, In a (attachments (session w'))
                  <-> In a (attachments (session w)) /\ email_id a <> email_no)
    /\ get_email email_no w' = (Raise (HTTPException 404 "Email não encontrado"), w')
    /\ (forall a, In a (attachments (session w)) -> email_id a = email_no ->
          download_attachment env (attachment_pk a) w'
          = (Raise (HTTPException 404 "Anexo não encontrado"), w')).
Proof.
  intros Hfind Hke Hka.
  destruct (found_by_key email_pk _ _ _ Hfind) as [Hin Hpk].
  unfold delete_email, EmailRepository_get_by_id, EmailRepository_hard_delete.
  mstep. rewrite Hfind. simpl. eexists. split; [reflexivity|]. simpl.
  split; [reflexivity|]. split; [reflexivity|].
  assert (Hrows : forall e,
             In e (List.filter (fun e0 => negb (email_pk e0 =? email_pk email)%nat)
                               (emails (session w)))
             <-> In e (emails (session w)) /\ e <> email).
  { intros e. rewrite filter_In, negb_true_iff, Nat.eqb_neq.
    split; intros [He Hne]; (split; [exact He|]).
    - intros ->. apply Hne. reflexivity.
    - intros Hk. apply Hne.
      exact (other_row_other_key email_pk _ _ _ Hke Hin He Hk). }
  assert (Hatts : forall a,
             In a (List.filter (fun a0 => negb (email_id a0 =? email_pk email)%nat)
                               (attachments (session w)))
             <-> In a (attachments (session w)) /\ email_id a <> email_no).
  { intros a. rewrite filter_In, negb_true_iff, Nat.eqb_neq, Hpk. reflexivity. }
  split; [exact Hrows|]. split; [exact Hatts|]. split.
  - unfold get_email, EmailRepository_get_by_id. mstep.
    rewrite find_no_key; [reflexivity|].
    intros y Hy Hk. apply Hrows in Hy as [Hy Hne]. apply Hne.
    apply (other_row_other_key email_pk _ _ _ Hke Hin Hy). congruence.
  - intros a Ha Hid.
    unfold download_attachment, AttachmentRepository_get_by_id. mstep.
    rewrite find_no_key; [reflexivity|].
    intros y Hy Hk. apply Hatts in Hy as [Hy Hne]. apply Hne.
    rewrite (other_row_other_key attachment_pk _ _ _ Hka Ha Hy Hk). exact Hid.
Qed.

Lemma hard_delete_leaves_the_files_witness :
  exists w',
    delete_email 2 true stocked = (Return tt, w')
    /\ is_Some (disk w' !! Sample.report_path)
    /\ download_attachment (Sample.healthy []) 1 w'
       = (Raise (HTTPException 404 "Anexo não encontrado"), w').
Proof.
  assert (Hfind : exists email,
             find (fun e => (email_pk e =? 2)%nat) (emails (session stocked))
             = Some email) by (vm_compute; eexists; reflexivity).
  destruct Hfind as [email Hfind].
  destruct (hard_delete_leaves_the_files (Sample.healthy []) stocked 2 email Hfind)
    as (w' & Hdel & _ & Hdisk & _ & _ & _ & Hdown).
  - apply (bool_decide_unpack _). vm_compute. exact I.
  - apply (bool_decide_unpack _). vm_compute. exact I.
  - exists w'. split; [exact Hdel|]. split.
    + rewrite Hdisk. vm_compute. eexists. reflexivity.
    + apply (Hdown Sample.report_row); [vm_compute; left; reflexivity|reflexivity].
Defined.

Lemma in_firstn {A} (x : A) (n : nat) (l : list A) : In x (firstn n l) -> In x l.
Proof.
  revert l. induction n as [|n IH]; intros [|y l]; simpl; try tauto.
  intros [->|H]; [left; reflexivity|right; apply IH; exact H].
Qed.

Lemma in_skipn {A} (x : A) (n : nat) (l : list A) : In x (skipn n l) -> In x l.
Proof.
  revert l. induction n as [|n IH]; intros [|y l]; simpl; try tauto.
  intros H. right. apply IH. exact H.
Qed.

Lemma in_insert_listed (x e : Email) (sorted : list Email) :
  In x (insert_listed e sorted) <-> x = e \/ In x sorted.
Proof.
  induction sorted as [|y rest IH]; simpl.
  - split; intros [H|H]; auto.
  - destruct (listed_before e y); simpl; [split; intros [H|H]; auto|].
    rewrite IH. split; intros H; intuition auto.
Qed.

Lemma in_order_by_listing (x : Email) (rows : list Email) :
  In x (order_by_listing rows) <-> In x rows.
Proof.
  induction rows as [|e rest IH]; simpl; [reflexivity|].
  rewrite in_insert_listed, IH. split; intros [H|H]; auto.
Qed.

(** What a page of the listing holds are rows of the session that pass
    the filters of the request. *)
Lemma listed_items page page_size by_sender by_subject has_attachments
    include_deleted w r w' :
  list_emails page page_size by_sender by_subject has_attachments include_deleted w
  = (Return r, w') ->
  w' = w
  /\ forall x, In x (items r) ->
       In x (emails (session w))
       /\ query_filters (attachments (session w)) by_sender by_subject
            has_attachments include_deleted x = true.
Proof.
  unfold list_emails, EmailRepository_get_paginated.
  destruct ((page <? 1)%Z || (page_size <? 1)%Z); [discriminate|].
  mstep. intros H. inversion H; subst; clear H. split; [reflexivity|].
  simpl. intros x Hx. apply filter_In.
  apply in_order_by_listing, (in_skipn x (Z.to_nat ((page - 1) * page_size))).
  destruct (page_size <? 0)%Z; [exact Hx|].
  apply in_firstn in Hx. exact Hx.
Qed.

Lemma find_replaced {A} (key : A -> nat) (repl : A -> A) (l : list A) (k : nat) :
  (forall y, key (repl y) = key y) ->
  find (fun y => (key y =? k)%nat) (map repl l)
  = option_map repl (find (fun y => (key y =? k)%nat) l).
Proof.
  intros Hkey. induction l as [|y l IH]; simpl; [reflexivity|].
  rewrite Hkey. destruct (key y =? k)%nat; [reflexivity|exact IH].
Qed.

(** X19: a soft delete of a stored message flags its row and commits, and
    nothing else changes: attachments, files and the Message-IDs of the
    store are what they were. The row is still served by [get_email], now
    flagged; no listing that leaves [include_deleted] off shows it; and a
    later run of the check job passes over a candidate with its
    Message-ID, so a soft-deleted message is not stored a second time. *)
Theorem soft_deleted_message_is_hidden_not_forgotten
    (w : World) (email_no : nat) (email : Email) :
  find (fun e => (email_pk e =? email_no)%nat) (emails (session w)) = Some email ->
  NoDup (map email_pk (emails (session w))) ->
  exists w',
    delete_email email_no false w = (Return tt, w')
    /\ committed w' = session w'
    /\ attachments (session w') = attachments (session w)
    /\ disk w' = disk w
    /\ map email_pk (emails (session w')) = map email_pk (emails (session w))
    /\ map message_id (emails (session w')) = map message_id (emails (session w))
    /\ (exists flagged attachs,
          get_email email_no w' = (Return (flagged, attachs), w')
          /\ is_deleted flagged = true
          /\ message_id flagged = message_id email)
    /\ (forall page page_size by_sender by_subject has_attachments r w'',
          list_emails page page_size by_sender by_subject has_attachments false w'
          = (Return r, w'') ->
          forall x, In x (items r) -> email_pk x <> email_no)
    /\ (forall env filters em,
          raw_message_id em = Some (message_id email) ->
          check_job_turn env filters em w' = (Return false, w')).
Proof.
  intros Hfind Hke.
  destruct (found_by_key email_pk _ _ _ Hfind) as [Hin Hpk].
  unfold delete_email, EmailRepository_get_by_id, EmailRepository_soft_delete.
  mstep. rewrite Hfind. simpl. eexists. split; [reflexivity|]. simpl.
  set (email' := mkEmail (email_pk email) (message_id email) (sender email)
                   (recipient email) (cc email) (subject email) (body email)
                   (received_at email) (email_created_at email) true).
  set (repl := fun e : Email => if (email_pk e =? email_pk email)%nat then email' else e).
  assert (Hkey : forall y, email_pk (repl y) = email_pk y).
  { intros y. unfold repl. destruct (Nat.eqb_spec (email_pk y) (email_pk email));
      [symmetry; assumption|reflexivity]. }
  assert (Hmid : forall y, In y (emails (session w)) ->
                           message_id (repl y) = message_id y).
  { intros y Hy. unfold repl.
    destruct (Nat.eqb_spec (email_pk y) (email_pk email)) as [E|_]; [|reflexivity].
    rewrite (other_row_other_key email_pk _ _ _ Hke Hin Hy E). reflexivity. }
  split; [reflexivity|]. split; [reflexivity|]. split; [reflexivity|].
  split; [rewrite map_map; apply map_ext; exact Hkey|].
  assert (Hmids : map message_id (map repl (emails (session w)))
                  = map message_id (emails (session w))).
  { rewrite map_map. apply map_ext_in. exact Hmid. }
  split; [exact Hmids|]. split; [|split].
  - unfold get_email, EmailRepository_get_by_id. mstep.
    rewrite (find_replaced email_pk repl _ _ Hkey), Hfind. simpl.
    eexists _, _. split; [reflexivity|].
    unfold repl. rewrite Nat.eqb_refl. split; reflexivity.
  - intros page page_size by_sender by_subject has_attachments r w'' Hlist x Hx Hk.
    apply listed_items in Hlist as [_ Hitems].
    destruct (Hitems x Hx) as [Hrow Hq]. simpl in Hrow, Hq.
    apply in_map_iff in Hrow as (y & Hy & _).
    assert (Hflag : is_deleted x = true).
    { subst x. rewrite Hkey in Hk. unfold repl.
      rewrite <- Hpk in Hk. apply Nat.eqb_eq in Hk. rewrite Hk. reflexivity. }
    unfold query_filters in Hq. simpl in Hq. rewrite Hflag in Hq. discriminate Hq.
  - intros env filters em Hid.
    apply (turn_with_stored_identifier env filters em (message_id email)); [exact Hid|].
    simpl. unfold has_message_id. apply existsb_exists. exists (repl email).
    split; [apply in_map; exact Hin|].
    rewrite (Hmid email Hin). apply String.eqb_refl.
Qed.

Lemma soft_deleted_message_is_hidden_not_forgotten_witness :
  exists w',
    delete_email 1 false stocked = (Return tt, w')
    /\ check_job_turn (Sample.healthy []) [] Sample.plain w' = (Return false, w')
    /\ forall r w'',
         list_emails 1 10 None None None false w' = (Return r, w'') ->
         forall x, In x (items r) -> email_pk x <> 1.
Proof.
  assert (Hfind : find (fun e => (email_pk e =? 1)%nat) (emails (session stocked))
                  = Some Sample.plain_row) by (vm_compute; reflexivity).
  destruct (soft_deleted_message_is_hidden_not_forgotten stocked 1 Sample.plain_row Hfind)
    as (w' & Hdel & _ & _ & _ & _ & _ & _ & Hlist & Hturn).
  - apply (bool_decide_unpack _). vm_compute. exact I.
  - exists w'. split; [exact Hdel|]. split.
    + apply Hturn. reflexivity.
    + intros r w''. apply Hlist.
Defined.

(** X20: deleting a stored attachment removes its row and commits, and
    never fails once the row is found: the file it named is removed when
    the removal goes through and stays when it raises, no other file and
    no message is touched, and a later download of the attachment
    answers 404. *)
Theorem deleted_attachment_is_gone
    (env : Env) (w : World) (attachment_no : nat) (a : Attachment) :
  find (fun r => (attachment_pk r =? attachment_no)%nat) (attachments (session w))
  = Some a ->
  NoDup (map attachment_pk (attachments (session w))) ->
  exists w',
    delete_attachment env attachment_no w = (Return tt, w')
    /\ committed w' = session w'
    /\ emails (session w') = emails (session w)
    /\ (forall r, In r (attachments (session w'))
                  <-> In r (attachments (session w)) /\ r <> a)
    /\ (forall file_path,
          file_path <> Str.os_path_join (attachments_dir env) (filename_stored a) ->
          disk w' !! file_path = disk w !! file_path)
    /\ disk w' !! Str.os_path_join (attachments_dir env) (filename_stored a)
       = match remove_error env
                 (Str.os_path_join (attachments_dir env) (filename_stored a)) with
         | Some _ => disk w !! Str.os_path_join (attachments_dir env) (filename_stored a)
         | None => None
         end
    /\ download_attachment env attachment_no w'
       = (Raise (HTTPException 404 "Anexo não encontrado"), w').
Proof.
  intros Hfind Hka.
  destruct (found_by_key attachment_pk _ _ _ Hfind) as [Hin Hpk].
  set (file_path := Str.os_path_join (attachments_dir env) (filename_stored a)).
  assert (Hrows : forall r,
             In r (List.filter (fun r0 => negb (attachment_pk r0 =? attachment_pk a)%nat)
                               (attachments (session w)))
             <-> In r (attachments (session w)) /\ r <> a).
  { intros r. rewrite filter_In, negb_true_iff, Nat.eqb_neq.
    split; intros [Hr Hne]; (split; [exact Hr|]).
    - intros ->. apply Hne. reflexivity.
    - intros Hk. apply Hne.
      exact (other_row_other_key attachment_pk _ _ _ Hka Hin Hr Hk). }
  assert (Hgone : forall d,
             download_attachment env attachment_no
               (mkWorld
                  (set_attachments
                     (List.filter
                        (fun r0 => negb (attachment_pk r0 =? attachment_pk a)%nat)
                        (attachments (session w))) (session w))
                  (set_attachments
                     (List.filter
                        (fun r0 => negb (attachment_pk r0 =? attachment_pk a)%nat)
                        (attachments (session w))) (session w))
                  d (clock w) (trace w))
             = (Raise (HTTPException 404 "Anexo não encontrado"),
                mkWorld
                  (set_attachments
                     (List.filter
                        (fun r0 => negb (attachment_pk r0 =? attachment_pk a)%nat)
                        (attachments (session w))) (session w))
                  (set_attachments
                     (List.filter
                        (fun r0 => negb (attachment_pk r0 =? attachment_pk a)%nat)
                        (attachments (session w))) (session w))
                  d (clock w) (trace w))).
  { intros d. unfold download_attachment, AttachmentRepository_get_by_id. mstep.
    rewrite find_no_key; [reflexivity|].
    intros y Hy Hk. apply Hrows in Hy as [Hy Hne]. apply Hne.
    apply (other_row_other_key attachment_pk _ _ _ Hka Hin Hy). congruence. }
  unfold delete_attachment, AttachmentRepository_get_by_id, AttachmentRepository.delete.
  mstep. rewrite Hfind. simpl. fold file_path.
  destruct (disk w !! file_path) as [content|] eqn:Hfile; simpl.
  - destruct (remove_error env file_path) as [e|] eqn:Hrm; simpl.
    + eexists. split; [reflexivity|]. simpl.
      split; [reflexivity|]. split; [reflexivity|]. split; [exact Hrows|].
      split; [reflexivity|]. split; [exact Hfile|]. apply Hgone.
    + rewrite Hfile. simpl.
      eexists. split; [reflexivity|]. simpl.
      split; [reflexivity|]. split; [reflexivity|]. split; [exact Hrows|].
      split; [intros p Hp; apply lookup_delete_ne; congruence|].
      split; [apply lookup_delete_eq|]. apply Hgone.
  - eexists. split; [reflexivity|]. simpl.
    split; [reflexivity|]. split; [reflexivity|]. split; [exact Hrows|].
    split; [reflexivity|].
    split; [rewrite ?Hfile; destruct (remove_error env file_path); reflexivity|].
    apply Hgone.
Qed.

Lemma deleted_attachment_is_gone_witness :
  exists w',
    delete_attachment (Sample.healthy []) 1 stocked = (Return tt, w')
    /\ attachments (session w') = []
    /\ disk w' !! Sample.report_path = None.
Proof.
  assert (Hfind : find (fun r => (attachment_pk r =? 1)%nat)
                       (attachments (session stocked)) = Some Sample.report_row)
    by (vm_compute; reflexivity).
  destruct (deleted_attachment_is_gone (Sample.healthy []) stocked 1 Sample.report_row
              Hfind) as (w' & Hdel & _ & _ & Hrows & _ & Hfile & _).
  - apply (bool_decide_unpack _). vm_compute. exact I.
  - exists w'. split; [exact Hdel|]. split; [|exact Hfile].
    destruct (attachments (session w')) as [|r rest]; [reflexivity|].
    destruct (proj1 (Hrows r) (or_introl eq_refl)) as [Hr Hne].
    vm_compute in Hr. destruct Hr as [Hr|[]]. destruct (Hne (eq_sym Hr)).
Defined.

(** X21: what a successful run of the check job has stored can be
    downloaded. For every attachment row the run added, the download
    endpoint answers with the file at the derived path under the
    attachment directory, the stored MIME type (or
    "application/octet-stream") and the original filename (or
    "attachment"). *)
Theorem stored_attachment_can_be_downloaded
    (env : Env) (w : World) (jr : JobRun) (w' : World) :
  run_email_check_job env w = (Return jr, w') ->
  status jr = success ->
  NoDup (map attachment_pk (attachments (session w))) ->
  exists ats,
    attachments (committed w') = attachments (session w) ++ ats
    /\ forall a, In a ats ->
         download_attachment env (attachment_pk a) w'
         = (Return (mkFileResponse
                      (Str.os_path_join (attachments_dir env)
                         (stored_filename (email_id a) (attachment_pk a)
                                          (filename_original a)))
                      (if Str.truthy (mime_type a) then Str.or_empty (mime_type a)
                       else "application/octet-stream")
                      (if Str.truthy (Some (filename_original a))
                       then filename_original a else "attachment")),
            w').
Proof.
  intros Hrun Hst Hka.
  destruct (run_spec env w) as (jr1 & w1 & evs & Hrun1 & _ & _ & _ & Hs & _).
  rewrite Hrun in Hrun1. inversion Hrun1; subst jr1 w1; clear Hrun1.
  apply run_gain in Hrun as (_ & Hg).
  destruct (Hg Hst) as (w3 & (_ & (ats & Ha & Hn & Hb) & _ & _ & Hv) & _ & Hat & Hd).
  simpl in Ha, Hv. specialize (Hv Hka).
  exists ats. split; [rewrite Hat, Ha; reflexivity|].
  intros a Hin.
  assert (Hrow : In a (attachments (session w'))).
  { rewrite Hs, Hat, Ha. apply in_or_app. right. exact Hin. }
  assert (Hnamed : named_by_check_job a).
  { rewrite Forall_forall in Hn. apply Hn, list_elem_of_In. exact Hin. }
  assert (Hblob : has_blob env (disk w') a).
  { rewrite Forall_forall in Hb. rewrite Hd. apply Hb, list_elem_of_In. exact Hin. }
  unfold download_attachment, AttachmentRepository_get_by_id. mstep.
  rewrite (find_by_key attachment_pk _ a); [|rewrite Hs, Hat; exact Hv|exact Hrow].
  simpl. unfold has_blob in Hblob. destruct Hblob as [content Hcontent].
  rewrite Hcontent. simpl. rewrite <- Hnamed. reflexivity.
Qed.

Lemma stored_attachment_can_be_downloaded_witness :
  exists response,
    download_attachment (Sample.healthy [Sample.plain; Sample.with_report]) 1 stocked
    = (Return response, stocked)
    /\ response_path response = Sample.report_path.
Proof.
  evaluate_run (Sample.healthy [Sample.plain; Sample.with_report])
               Sample.fresh jr w' Hrun.
  destruct (stored_attachment_can_be_downloaded _ _ _ _ Hrun eq_refl)
    as (ats & Ha & Hdown).
  - apply (bool_decide_unpack _). vm_compute. exact I.
  - unfold stocked. rewrite Hrun. simpl snd.
    destruct ats as [|a [|a' ats]]; try (vm_compute in Ha; discriminate Ha).
    vm_compute in Ha. inversion Ha; subst a; clear Ha.
    eexists. split; [apply (Hdown _ (or_introl eq_refl))|reflexivity].
Defined.

(** ** The listing and its pages *)









Lemma listing_ordered_skipn n l : listing_ordered l -> listing_ordered (skipn n l).
Proof.
  revert l. induction n as [|n IH]; intros [|x l]; simpl; auto.
  intros [_ H]. apply IH. exact H.
Qed.








(** ** The text filters of the listing *)

Lemma lower_ascii_idem c : Str.lower_ascii (Str.lower_ascii c) = Str.lower_ascii c.
Proof. destruct c as [[] [] [] [] [] [] [] []]; reflexivity. Qed.

Lemma lower_ascii_wildcard c :
  Ascii.eqb (Str.lower_ascii c) "%" = Ascii.eqb c "%"
  /\ Ascii.eqb (Str.lower_ascii c) "_" = Ascii.eqb c "_".
Proof. destruct c as [[] [] [] [] [] [] [] []]; split; reflexivity. Qed.

Lemma sql_like_percent_cons pattern value :
  sql_like (String "%" pattern) value
  = (sql_like pattern value
     || match value with
        | EmptyString => false
        | String _ value' => sql_like (String "%" pattern) value'
        end).
Proof. destruct value; reflexivity. Qed.

Lemma sql_like_any value : sql_like "%" value = true.
Proof.
  induction value as [|c value IH]; [reflexivity|].
  rewrite sql_like_percent_cons, IH. apply orb_true_r.
Qed.

Lemma sql_like_prefix needle value :
  no_wildcard needle = true ->
  sql_like (Str.lower needle +:+ "%") (Str.lower value)
  = String.prefix (Str.lower needle) (Str.lower value).
Proof.
  revert value. induction needle as [|c needle IH]; intros value Hnw.
  - change (sql_like "%" (Str.lower value) = String.prefix "" (Str.lower value)).
    rewrite sql_like_any. destruct (Str.lower value); reflexivity.
  - simpl in Hnw. apply andb_prop in Hnw as [Hc Hnw]. apply andb_prop in Hc as [Hp Hu].
    apply negb_true_iff in Hp, Hu.
    destruct (lower_ascii_wildcard c) as [Ep Eu].
    change (Str.lower (String c needle) +:+ "%")
      with (String (Str.lower_ascii c) (Str.lower needle +:+ "%")).
    change (Str.lower (String c needle))
      with (String (Str.lower_ascii c) (Str.lower needle)).
    destruct value as [|d value].
    + cbn [Str.lower sql_like String.prefix]. rewrite Ep, Hp. reflexivity.
    + change (Str.lower (String d value))
        with (String (Str.lower_ascii d) (Str.lower value)).
      cbn [sql_like String.prefix]. rewrite Ep, Hp, Eu, Hu, !lower_ascii_idem.
      cbn [orb].
      destruct (ascii_dec (Str.lower_ascii c) (Str.lower_ascii d)) as [E|NE].
      * rewrite E, Ascii.eqb_refl. cbn [andb]. apply IH. exact Hnw.
      * apply Ascii.eqb_neq in NE. rewrite NE. reflexivity.
Qed.

Lemma sql_like_contains needle value :
  no_wildcard needle = true ->
  sql_like (String "%" (Str.lower needle +:+ "%")) (Str.lower value)
  = Str.contains (Str.lower needle) (Str.lower value).
Proof.
  intros Hnw. induction value as [|d value IH].
  - rewrite sql_like_percent_cons.
    rewrite (sql_like_prefix needle EmptyString Hnw). simpl. apply orb_false_r.
  - pose proof (sql_like_prefix needle (String d value) Hnw) as Hpre.
    change (Str.lower (String d value))
      with (String (Str.lower_ascii d) (Str.lower value)) in *.
    rewrite sql_like_percent_cons, Hpre, IH. reflexivity.
Qed.

Lemma lower_app a b : Str.lower (a +:+ b) = Str.lower a +:+ Str.lower b.
Proof. induction a as [|c a IH]; simpl; [reflexivity|]. rewrite IH. reflexivity. Qed.

(** X24: the text filters of the listing are substring tests that ignore
    ASCII letter case, as long as the text holds neither [%] nor [_]:
    with such a [sender] (or [subject]) the listing keeps exactly the rows
    whose sender (or subject, when there is one) contains the text after
    lower-casing both. A row without subject never passes a subject
    filter. *)
Theorem text_filters_are_substring_tests
    (attachs : list Attachment) (text : string) (e : Email) :
  no_wildcard text = true ->
  query_filters attachs (Some text) None None true e
  = Str.contains (Str.lower text) (Str.lower (sender e))
  /\ query_filters attachs None (Some text) None true e
     = match text, subject e with
       | EmptyString, _ => true
       | _, Some s => Str.contains (Str.lower text) (Str.lower s)
       | _, None => false
       end.
Proof.
  intros Hnw.
  assert (Hlike : forall value,
             ilike (Some value) ("%" +:+ text +:+ "%")
             = Str.contains (Str.lower text) (Str.lower value)).
  { intros value. unfold ilike.
    change ("%" +:+ text +:+ "%") with (String "%" (text +:+ "%")).
    change (Str.lower (String "%" (text +:+ "%")))
      with (String "%" (Str.lower (text +:+ "%"))).
    rewrite lower_app. apply sql_like_contains. exact Hnw. }
  unfold query_filters. destruct text as [|c text].
  - split; [|reflexivity]. simpl. destruct (Str.lower (sender e)); reflexivity.
  - cbn [Str.truthy Str.or_empty negb andb]. rewrite Hlike, !andb_true_r.
    split; [reflexivity|].
    destruct (subject e) as [s|]; [apply Hlike|reflexivity].
Qed.

Lemma text_filters_are_substring_tests_witness :
  query_filters [] (Some "ALICE@") None None true Sample.plain_row = true.
Proof.
  rewrite (proj1 (text_filters_are_substring_tests [] "ALICE@" Sample.plain_row
                    eq_refl)).
  reflexivity.
Defined.

(** ** The function the periodic job calls *)

(** X25: the function the scheduler calls never raises and leaves no
    open transaction. When the attachment directory can be made and the
    connection opens, it has committed exactly one finished run record.
    When either fails, the exception is swallowed and nothing at all is
    recorded: the committed store, and with it the metrics, and the files
    are what they were. (The [logout] of the [finally] block is taken not
    to raise.) *)
Theorem scheduled_job_fails_silently (env : Env) (w : World) :
  exists w',
    _run_email_job env w = (Return tt, w')
    /\ session w' = committed w'
    /\ match makedirs_error env, open_imap_error env with
       | None, None =>
           exists jr,
             job_runs (committed w') = job_runs (committed w) ++ [jr]
             /\ status jr <> running
             /\ exists t, finished_at jr = Some t
       | _, _ =>
           committed w' = committed w
           /\ disk w' = disk w
           /\ metrics_in w' = metrics_in (set_session (committed w) w)
       end.
Proof.
  unfold _run_email_job, SessionLocal, db_close, ensure_attachments_dir.
  destruct (makedirs_error env) as [msg|].
  { mstep. eexists. split; [reflexivity|]. simpl. repeat split; reflexivity. }
  destruct (open_imap_error env) as [e|] eqn:Hopen.
  { unfold EmailFetchService.fetch_and_store_emails, JobRunRepository.create.
    rewrite Hopen. mstep. eexists. split; [reflexivity|]. simpl.
    repeat split; reflexivity. }
  destruct (fetch_and_store_spec env (set_session (committed w) w) eq_refl Hopen)
    as (w1 & jr & Hrun & Hs & Hj & _ & _ & (t & Ht & _) & _ & _ & Hcases).
  cbv [bind try_except modify ret]. rewrite Hrun.
  eexists. split; [reflexivity|]. simpl. split; [reflexivity|].
  exists jr. split; [exact Hj|]. split; [|eauto].
  destruct Hcases as [(Hst & _)|(Hst & _)]; rewrite Hst; discriminate.
Qed.

(** ** The filter rules *)

Lemma filter_other_keys {A} (key : A -> nat) (rows : list A) (k : nat) :
  (forall r, In r rows -> key r <> k) ->
  List.filter (fun r => negb (key r =? k)%nat) rows = rows.
Proof.
  induction rows as [|r rows IH]; simpl; intros Hno; [reflexivity|].
  destruct (Nat.eqb_spec (key r) k) as [E|_];
    [destruct (Hno r (or_introl eq_refl) E)|].
  simpl. rewrite IH by (intros; apply Hno; right; assumption). reflexivity.
Qed.

Lemma find_appended {A} (f : A -> bool) (rows : list A) (x : A) :
  find f rows = None -> f x = true -> find f (rows ++ [x]) = Some x.
Proof.
  induction rows as [|r rows IH]; simpl; intros Hnone Hx; [rewrite Hx; reflexivity|].
  destruct (f r); [discriminate|]. apply IH; assumption.
Qed.

(** X26: creating a rule and deleting it again is a round trip. A rule
    with a name that is not in use is appended under a fresh key and
    committed, and [delete_filter] with that key restores the rule list as
    it was; neither touches messages, attachments or run records. With a
    name that is in use the creation raises and commits nothing. *)
Theorem created_rule_can_be_deleted_again (payload : EmailFilterCreate) (w : World) :
  if existsb (fun f => String.eqb (name f) (create_name payload))
             (email_filters (session w))
  then exists exc w',
         create_filter payload w = (Raise exc, w') /\ committed w' = committed w
  else exists filt w1 w2,
         create_filter payload w = (Return filt, w1)
         /\ email_filters (committed w1) = email_filters (session w) ++ [filt]
         /\ name filt = create_name payload
         /\ enabled filt = create_enabled payload
         /\ from_address filt = create_from_address payload
         /\ subject_contains filt = create_subject_contains payload
         /\ body_contains filt = create_body_contains payload
         /\ (forall f, In f (email_filters (session w)) -> filter_pk f < filter_pk filt)
         /\ delete_filter (filter_pk filt) w1 = (Return tt, w2)
         /\ email_filters (committed w2) = email_filters (session w)
         /\ emails (committed w2) = emails (session w)
         /\ attachments (committed w2) = attachments (session w)
         /\ job_runs (committed w2) = job_runs (session w)
         /\ disk w2 = disk w.
Proof.
  unfold create_filter, EmailFilterRepository_create.
  destruct (existsb _ (email_filters (session w))) eqn:Hused.
  - mstep. rewrite Hused. eexists _, _. split; reflexivity.
  - mstep. rewrite Hused. simpl.
    assert (Hfresh : forall f, In f (email_filters (session w)) ->
                               filter_pk f < next_pk filter_pk (email_filters (session w)))
      by (intros; apply next_pk_fresh; assumption).
    eexists _, _, _. split; [reflexivity|]. simpl.
    do 6 (split; [reflexivity|]). split; [exact Hfresh|].
    unfold delete_filter, EmailFilterRepository_get_by_id, EmailFilterRepository_delete.
    mstep. rewrite find_appended; simpl.
    + rewrite List.filter_app. simpl. rewrite Nat.eqb_refl. simpl.
      rewrite app_nil_r, filter_other_keys
        by (intros r Hr E; apply Hfresh in Hr; lia).
      split; [reflexivity|]. simpl. repeat split; reflexivity.
    + apply find_no_key. intros y Hy E. apply Hfresh in Hy. lia.
    + apply Nat.eqb_refl.
Qed.

(** X27: for the check job, disabling a rule is deleting it. The job
    reads the enabled rules only, and after [update_filter] has set
    [enabled] to false on a stored rule these are the rules a
    [delete_filter] of it would leave enabled, so every candidate gets the
    same verdict; the other rules, and the name and key of the rule
    itself, are as before. In particular, once the only enabled rule is
    disabled the job accepts every candidate. *)
Theorem disabled_rule_counts_as_deleted
    (w : World) (filter_id : nat) (filt : EmailFilter)
    (from_addr subject_part body_part : option string) :
  find (fun f => (filter_pk f =? filter_id)%nat) (email_filters (session w))
  = Some filt ->
  NoDup (map filter_pk (email_filters (session w))) ->
  exists filt' w_disabled w_deleted,
    update_filter filter_id
      (mkEmailFilterUpdate from_addr subject_part body_part (Some false)) w
    = (Return filt', w_disabled)
    /\ delete_filter filter_id w = (Return tt, w_deleted)
    /\ map filter_pk (email_filters (committed w_disabled))
       = map filter_pk (email_filters (session w))
    /\ map name (email_filters (committed w_disabled))
       = map name (email_filters (session w))
    /\ (forall f, In f (email_filters (session w)) -> filter_pk f <> filter_id ->
                  In f (email_filters (committed w_disabled)))
    /\ List.filter enabled (email_filters (committed w_disabled))
       = List.filter enabled (email_filters (committed w_deleted))
    /\ (forall em,
          apply_filters_to_email em
            (List.filter enabled (email_filters (committed w_disabled)))
          = apply_filters_to_email em
              (List.filter enabled (email_filters (committed w_deleted))))
    /\ ((forall f, In f (email_filters (session w)) -> enabled f = true -> f = filt) ->
        forall em,
          apply_filters_to_email em
            (List.filter enabled (email_filters (committed w_disabled))) = true).
Proof.
  intros Hfind Hk.
  destruct (found_by_key filter_pk _ _ _ Hfind) as [Hin Hpk].
  unfold update_filter, delete_filter, EmailFilterRepository_get_by_id,
    EmailFilterRepository_delete.
  mstep. rewrite Hfind. simpl.
  set (filt' := updated (mkEmailFilterUpdate from_addr subject_part body_part
                                             (Some false)) filt).
  set (repl := fun f : EmailFilter => if (filter_pk f =? filter_pk filt)%nat
                                      then filt' else f).
  assert (Hsame : forall f, In f (email_filters (session w)) ->
                            filter_pk f = filter_pk filt -> f = filt).
  { intros f Hf E. exact (other_row_other_key filter_pk _ _ _ Hk Hin Hf E). }
  assert (Henabled : forall rows,
             (forall f, In f rows -> filter_pk f = filter_pk filt -> f = filt) ->
             List.filter enabled (map repl rows)
             = List.filter enabled
                 (List.filter (fun f => negb (filter_pk f =? filter_pk filt)%nat) rows)).
  { induction rows as [|f rows IH]; intros Hs; [reflexivity|]. simpl.
    rewrite IH by (intros; apply Hs; [right|]; assumption).
    destruct (Nat.eqb_spec (filter_pk f) (filter_pk filt)) as [E|NE].
    - replace (repl f) with filt'
        by (unfold repl; rewrite E, Nat.eqb_refl; reflexivity).
      reflexivity.
    - replace (repl f) with f
        by (unfold repl; apply Nat.eqb_neq in NE; rewrite NE; reflexivity).
      reflexivity. }
  eexists _, _, _. split; [reflexivity|]. split; [reflexivity|]. simpl.
  fold filt'. fold repl.
  split; [|split; [|split; [|split; [|split]]]].
  - rewrite map_map. apply map_ext. intros f. unfold repl.
    destruct (Nat.eqb_spec (filter_pk f) (filter_pk filt)) as [E|_];
      [symmetry; exact E|reflexivity].
  - rewrite map_map. apply map_ext_in. intros f Hf. unfold repl.
    destruct (Nat.eqb_spec (filter_pk f) (filter_pk filt)) as [E|_]; [|reflexivity].
    rewrite (Hsame f Hf E). reflexivity.
  - intros f Hf Hne. apply in_map_iff. exists f. split; [|exact Hf].
    unfold repl. destruct (Nat.eqb_spec (filter_pk f) (filter_pk filt)) as [E|_];
      [congruence|reflexivity].
  - apply Henabled. exact Hsame.
  - intros em. rewrite Henabled by exact Hsame. reflexivity.
  - intros Honly em. rewrite Henabled by exact Hsame.
    replace (List.filter enabled _) with (@nil EmailFilter); [reflexivity|].
    symmetry. apply filter_none. intros f Hf.
    apply filter_In in Hf as [Hf Hne]. apply negb_true_iff, Nat.eqb_neq in Hne.
    destruct (enabled f) eqn:He; [|reflexivity].
    exfalso. apply Hne. rewrite (Honly f Hf He). reflexivity.
Qed.

Lemma disabled_rule_counts_as_deleted_witness :
  exists filt' w_disabled,
    update_filter 1 (mkEmailFilterUpdate None None None (Some false)) Sample.with_rule
    = (Return filt', w_disabled)
    /\ forall em,
         apply_filters_to_email em
           (List.filter enabled (email_filters (committed w_disabled))) = true.
Proof.
  assert (Hfind : exists filt,
             find (fun f => (filter_pk f =? 1)%nat)
                  (email_filters (session Sample.with_rule)) = Some filt)
    by (vm_compute; eexists; reflexivity).
  destruct Hfind as [filt Hfind].
  destruct (disabled_rule_counts_as_deleted Sample.with_rule 1 filt None None None Hfind)
    as (filt' & w1 & w2 & Hupd & _ & _ & _ & _ & _ & _ & Hopen).
  - apply (bool_decide_unpack _). vm_compute. exact I.
  - exists filt', w1. split; [exact Hupd|]. apply Hopen.
    vm_compute in Hfind. inversion Hfind; subst filt; clear Hfind.
    intros f Hf _. vm_compute in Hf. destruct Hf as [<-|[]]. reflexivity.
Defined.

(** X28: the metrics count the scheduled runs too. After the function the
    scheduler calls has run with a directory that can be made and a
    connection that opens, [get_job_metrics] reports the totals it
    reported before plus the two counters of the run record just added,
    and describes that record as the last run, which is never left in
    status [running]. *)
Theorem metrics_count_the_scheduled_run (env : Env) (w : World) :
  makedirs_error env = None ->
  open_imap_error env = None ->
  exists w' jr m m',
    _run_email_job env w = (Return tt, w')
    /\ job_runs (committed w') = job_runs (committed w) ++ [jr]
    /\ metrics_in (set_session (committed w) w) = Some m
    /\ metrics_in w' = Some m'
    /\ total_messages_fetched m' = total_messages_fetched m + messages_fetched jr
    /\ total_messages_saved m' = total_messages_saved m + messages_saved jr
    /\ last_run_start m' = Some (started_at jr)
    /\ last_run_end m' = finished_at jr
    /\ last_status m' = Some (status jr)
    /\ last_error m' = error_message jr
    /\ status jr <> running.
Proof.
  intros Hmk Hopen.
  destruct (fetch_and_store_spec env (set_session (committed w) w) eq_refl Hopen)
    as (w1 & jr & Hrun & Hs & Hj & Hpk & _ & _ & _ & _ & Hcases).
  simpl in Hj, Hpk.
  unfold _run_email_job, SessionLocal, db_close, ensure_attachments_dir.
  rewrite Hmk. cbv [bind try_except modify ret]. rewrite Hrun.
  eexists _, jr, _, _. split; [reflexivity|]. simpl. split; [exact Hj|].
  unfold metrics_in. rewrite !get_job_metrics_eval.
  split; [reflexivity|]. split; [reflexivity|]. cbv zeta. simpl.
  rewrite Hj, !map_app, !list_sum_app, last_by_pk_appended by exact Hpk.
  simpl. repeat split; try lia.
  destruct Hcases as [(Hst & _)|(Hst & _)]; rewrite Hst; discriminate.
Qed.

Lemma metrics_count_the_scheduled_run_witness :
  exists w' m',
    _run_email_job (Sample.healthy [Sample.plain; Sample.with_report]) stocked
    = (Return tt, w')
    /\ metrics_in w' = Some m'
    /\ total_messages_fetched m' = 4
    /\ total_messages_saved m' = 2.
Proof.
  destruct (metrics_count_the_scheduled_run
              (Sample.healthy [Sample.plain; Sample.with_report]) stocked
              eq_refl eq_refl)
    as (w' & jr & m & m' & Hrun & Hj & Hm & Hm' & Hf & Hsv & _).
  exists w', m'. split; [exact Hrun|]. split; [exact Hm'|].
  vm_compute in Hrun. inversion Hrun; subst w'; clear Hrun.
  vm_compute in Hj. inversion Hj; subst jr; clear Hj.
  vm_compute in Hm. inversion Hm; subst m; clear Hm.
  rewrite Hf, Hsv. split; reflexivity.
Defined.
